(** * SOLUSync-X web client: clock discipline, quality table and frame admission

    A shallow embedding of [client-web/src/clock.ts] (class [ClockSync]), of
    [FutureAudioPlayer.scheduleFrame] and of
    [SoluSyncClient.getNetworkQuality] / [SoluSyncClient.handleHeartbeat].

    JavaScript numbers are IEEE-754 binary64 values.  The code is embedded once,
    over an interface [Number] of the arithmetic it uses, and read at two
    instances:
    - [IEEE]: Rocq's primitive binary64 floats, the arithmetic the program
      really runs on (NaN, infinities, rounding);
    - [Exact]: the rationals [Q], the same program in error-free arithmetic,
      for the properties the specification states up to rounding error.

    [Date.now()] and [AudioContext.currentTime] are readings of the outside
    world: every function that reads one takes the reading as an argument. *)

From Stdlib Require Import Bool Arith ZArith List Lia.
From Stdlib Require Import QArith Qabs Lqa.
From Stdlib Require Import Floats.
From stdpp Require Import gmap.
Import ListNotations.

Set Warnings "-inexact-float".

(* ================================================================== *)
(** * The arithmetic of JavaScript numbers *)
(* ================================================================== *)

(** The operations of the [number] type that the client uses.  [lit] reads a
    decimal literal of the source text, [truthy] is the test [x || y] and
    [if (x)] perform on a number ([0], [-0] and [NaN] are falsy), and
    [nfinite] tells the finite numbers from NaN and the two infinities: the
    test a Web API performs on an argument declared [double]. *)
Class Number : Type := {
  num : Type;
  lit : Q -> num;
  nadd : num -> num -> num;
  nsub : num -> num -> num;
  nmul : num -> num -> num;
  ndiv : num -> num -> num;
  nopp : num -> num;
  nabs : num -> num;
  nltb : num -> num -> bool;
  truthy : num -> bool;
  nfinite : num -> bool
}.

Arguments lit {Number} q%_Q.

Declare Scope num_scope.
Delimit Scope num_scope with num.
Bind Scope num_scope with num.
Infix "+" := nadd : num_scope.
Infix "-" := nsub : num_scope.
Infix "*" := nmul : num_scope.
Infix "/" := ndiv : num_scope.
Notation "- x" := (nopp x) : num_scope.
Infix "<?" := nltb : num_scope.
Notation "x >? y" := (nltb y x) : num_scope.

(** A length or a count used as a number ([n * sumXX]). *)
Definition of_nat {N : Number} (n : nat) : num := lit (inject_Z (Z.of_nat n)).

(** ** Binary64 *)

Definition Z2float (z : Z) : float :=
  match z with
  | Z0 => PrimFloat.zero
  | Zpos _ => PrimFloat.of_uint63 (Uint63.of_Z z)
  | Zneg p => PrimFloat.opp (PrimFloat.of_uint63 (Uint63.of_Z (Zpos p)))
  end.

(** A decimal literal [m / 10^k] denotes the double nearest to it; for the
    literals of this program numerator and denominator are exact doubles, so
    the correctly rounded quotient is that double. *)
Definition Q2float (q : Q) : float :=
  PrimFloat.div (Z2float (Qnum q)) (Z2float (Zpos (Qden q))).

(** The rational a finite double stands for. *)
Definition float_value (x : float) : option Q :=
  match Prim2SF x with
  | S754_zero _ => Some 0%Q
  | S754_finite s m e =>
      Some ((if s then -1 else 1) * inject_Z (Zpos m) * Qpower 2 e)%Q
  | _ => None
  end.

Definition float_truthy (x : float) : bool :=
  negb (PrimFloat.eqb x PrimFloat.zero || PrimFloat.is_nan x).

#[export] Instance IEEE : Number := {|
  num := float;
  lit := Q2float;
  nadd := PrimFloat.add;
  nsub := PrimFloat.sub;
  nmul := PrimFloat.mul;
  ndiv := PrimFloat.div;
  nopp := PrimFloat.opp;
  nabs := PrimFloat.abs;
  nltb := PrimFloat.ltb;
  truthy := float_truthy;
  nfinite := PrimFloat.is_finite
|}.

(** ** Error-free arithmetic *)

Definition Qltb (x y : Q) : bool := negb (Qle_bool y x).

#[export] Instance Exact : Number := {|
  num := Q;
  lit := fun q => q;
  nadd := Qplus;
  nsub := Qminus;
  nmul := Qmult;
  ndiv := Qdiv;
  nopp := Qopp;
  nabs := Qabs;
  nltb := Qltb;
  truthy := fun x => negb (Qeq_bool x 0);
  nfinite := fun _ => true
|}.

(** Let a number written as a [float] or a [Q] select its arithmetic. *)
Canonical Structure IEEE.
Canonical Structure Exact.

(* ================================================================== *)
(** * [clock.ts]: the disciplined clock *)
(* ================================================================== *)

Module Clock.
Section WithNumber.
Context {N : Number}.
Local Open Scope num_scope.

(** [interface ClockSample] of [types.ts]. *)
Record ClockSample : Type := mkSample {
  s_offset : num;
  s_rtt : num;
  s_timestamp : num
}.

(** The mutable fields of [class ClockSync].  [maxSamples] and [filterWeight]
    are initialised once and never assigned: they are the constants below. *)
Record ClockSync : Type := mkClock {
  offset : num;
  drift : num;
  samples : list ClockSample;
  lastSyncTime : num
}.

Definition maxSamples : nat := 20.
Definition filterWeight : num := lit 0.1.

(** The field initialisers; [reset()] assigns the same values. *)
Definition init : ClockSync :=
  {| offset := lit 0; drift := lit 0; samples := []; lastSyncTime := lit 0 |}.

Definition reset (c : ClockSync) : ClockSync :=
  {| offset := lit 0; drift := lit 0; samples := []; lastSyncTime := lit 0 |}.

(** [Array.prototype.slice(-n)]: the last [n] elements, the whole array when
    it is shorter; [slice(-0)] is [slice(0)], the whole array. *)
Definition slice_last {A : Type} (n : nat) (l : list A) : list A :=
  if Nat.eqb n 0 then l else skipn (length l - n) l.

(** [now()], with [dateNow] the reading of [Date.now()] (milliseconds). *)
Definition now (c : ClockSync) (dateNow : num) : num :=
  let localTime := dateNow / lit 1000 in
  localTime + offset c + drift c * (localTime - lastSyncTime c).

Definition getOffset (c : ClockSync) : num := offset c.

(** [getLastRTT()].  The index [length - 1] is in range once the array is not
    empty; the [None] branch is the [undefined] the guard rules out. *)
Definition getLastRTT (c : ClockSync) : num :=
  if Nat.eqb (length (samples c)) 0 then lit 0
  else match nth_error (samples c) (length (samples c) - 1) with
       | Some s => s_rtt s * lit 1000
       | None => lit 0
       end.

(** The four running sums of the regression loop. *)
Record Sums : Type := mkSums {
  sumX : num; sumY : num; sumXY : num; sumXX : num
}.

(** One iteration of [for (const sample of recent)]. *)
Definition regressionStep (t0 : num) (acc : Sums) (sample : ClockSample) : Sums :=
  let x := s_timestamp sample - t0 in
  let y := s_offset sample in
  {| sumX := sumX acc + x;
     sumY := sumY acc + y;
     sumXY := sumXY acc + x * y;
     sumXX := sumXX acc + x * x |}.

Definition regressionSums (t0 : num) (recent : list ClockSample) : Sums :=
  fold_left (regressionStep t0) recent
    {| sumX := lit 0; sumY := lit 0; sumXY := lit 0; sumXX := lit 0 |}.

(** [const denom = n * sumXX - sumX * sumX]. *)
Definition regressionDenom (n : nat) (s : Sums) : num :=
  of_nat n * sumXX s - sumX s * sumX s.

(** [(n * sumXY - sumX * sumY) / denom]. *)
Definition regressionSlope (n : nat) (s : Sums) : num :=
  (of_nat n * sumXY s - sumX s * sumY s) / regressionDenom n s.

(** [calculateDrift()]. *)
Definition calculateDrift (c : ClockSync) : ClockSync :=
  if Nat.ltb (length (samples c)) 3 then c
  else
    let n := Nat.min 10 (length (samples c)) in
    let recent := slice_last n (samples c) in
    match recent with
    | [] => c
    | first :: _ =>
        let t0 := s_timestamp first in
        let sums := regressionSums t0 recent in
        let denom := regressionDenom n sums in
        if nabs denom >? lit 0.0001
        then {| offset := offset c;
                drift := regressionSlope n sums;
                samples := samples c;
                lastSyncTime := lastSyncTime c |}
        else c
    end.

(** [addSample(sample)]: push, trim, fuse the offset, re-estimate the drift,
    move the anchor. *)
Definition addSample (c : ClockSync) (sample : ClockSample) : ClockSync :=
  let pushed := samples c ++ [sample] in
  let kept :=
    if Nat.ltb maxSamples (length pushed) then slice_last maxSamples pushed
    else pushed in
  let c1 :=
    {| offset := offset c * (lit 1 - filterWeight) + s_offset sample * filterWeight;
       drift := drift c;
       samples := kept;
       lastSyncTime := lastSyncTime c |} in
  let c2 := if Nat.leb 3 (length (samples c1)) then calculateDrift c1 else c1 in
  {| offset := offset c2;
     drift := drift c2;
     samples := samples c2;
     lastSyncTime := s_timestamp sample |}.

(** Auxiliary: the array [addSample] leaves in [this.samples], the pushed
    array cut to its last [maxSamples] entries when longer. *)
Definition ringAfter (c : ClockSync) (sample : ClockSample) : list ClockSample :=
  let pushed := samples c ++ [sample] in
  if Nat.ltb maxSamples (length pushed) then slice_last maxSamples pushed else pushed.

(** Auxiliary: [recent[0].timestamp], the origin [t0] of the regression. *)
Definition windowStart (recent : list ClockSample) : num :=
  match recent with
  | first :: _ => s_timestamp first
  | [] => lit 0
  end.

(** The fields of a [clock_sync_response] that [handleResponse] reads. *)
Record ClockSyncResponse : Type := mkResponse {
  r_t1 : num;
  r_t2 : num;
  r_t3 : num
}.

(** [(window as any).__lastSyncT1 || response.t1]: the global is [undefined]
    until [sendSync] has stored a send time. *)
Definition probeT1 (lastSyncT1 : option num) (response : ClockSyncResponse) : num :=
  match lastSyncT1 with
  | Some t1 => if truthy t1 then t1 else r_t1 response
  | None => r_t1 response
  end.

(** The sample [handleResponse] builds. *)
Definition probeSample (lastSyncT1 : option num) (response : ClockSyncResponse)
    (dateNow : num) : ClockSample :=
  let t1 := probeT1 lastSyncT1 response in
  let t4 := dateNow / lit 1000 in
  let rtt := (t4 - t1) - (r_t3 response - r_t2 response) in
  let offset := ((r_t2 response - t1) + (r_t3 response - t4)) / lit 2 in
  {| s_offset := offset; s_rtt := rtt; s_timestamp := t4 |}.

(** [handleResponse(response)]. *)
Definition handleResponse (c : ClockSync) (lastSyncT1 : option num)
    (response : ClockSyncResponse) (dateNow : num) : ClockSync :=
  addSample c (probeSample lastSyncT1 response dateNow).

(** [updateQuickSample(offset, rtt)]. *)
Definition updateQuickSample (c : ClockSync) (offset rtt : num) (dateNow : num)
    : ClockSync :=
  addSample c {| s_offset := offset; s_rtt := rtt;
                 s_timestamp := dateNow / lit 1000 |}.

(** [sendSync]: the send time stored in [window.__lastSyncT1]. *)
Definition sendSync (dateNow : num) : option num := Some (dateNow / lit 1000).

End WithNumber.
End Clock.

(* ================================================================== *)
(** * [FutureAudioPlayer]: admission of a media frame *)
(* ================================================================== *)

Module Player.
Section WithNumber.
Context {N : Number}.
Local Open Scope num_scope.

(** The Web Audio side is an external collaborator: the payload type, the
    decoded buffer type and the decoding step (which may throw, [None]) are
    parameters of the embedding. *)
Context {ArrayBuffer AudioBuffer : Type}.
Variable decodeAudioData : ArrayBuffer -> option AudioBuffer.

Inductive FrameType : Type := Audio | Video | VideoKeyframe.

(** [interface MediaFrame] of [types.ts]; sequence numbers are integers. *)
Record MediaFrame : Type := mkFrame {
  f_data : ArrayBuffer;
  f_timestamp : num;
  f_duration : num;
  f_frameType : FrameType;
  f_sequence : Z
}.

(** An [AudioBufferSourceNode] handed to the audio device, recorded as what
    the device was told: [source.buffer = audioBuffer;
    source.start(contextTime)].  The record does not carry the identity of
    the JavaScript object: two nodes given the same buffer and the same start
    time are the same record. *)
Record SourceNode : Type := mkSource {
  src_buffer : AudioBuffer;
  src_startAt : num
}.

(** The fields of [class FutureAudioPlayer]; [audioContext] records whether
    the context has been created. *)
Record FutureAudioPlayer : Type := mkPlayer {
  audioContext : bool;
  futureBufferMs : num;
  scheduledSources : gmap Z SourceNode;
  nextSequence : Z
}.

(** What one call of [scheduleFrame] did: the two warnings carry the number
    printed ([-delay * 1000], [delay * 1000]); [Started] is the call that
    reaches the renderer; [DecodeFailed] and [StartFailed] are the promise
    rejected by an exception of the decoder or of [source.start]. *)
Inductive Outcome : Type :=
  | DroppedLate (lateMs : num)
  | DroppedTooFar (aheadMs : num)
  | Started (source : SourceNode)
  | DecodeFailed
  | StartFailed.

(** [source.start(when)].  The argument is declared [double], so the call
    throws a [TypeError] when [when] is NaN or infinite; Web Audio throws a
    [RangeError] when [when] is negative. *)
Definition startAccepts (when : num) : bool :=
  nfinite when && negb (when <? lit 0).

Definition initContext (p : FutureAudioPlayer) : FutureAudioPlayer :=
  if audioContext p then p
  else {| audioContext := true;
          futureBufferMs := futureBufferMs p;
          scheduledSources := scheduledSources p;
          nextSequence := nextSequence p |}.

(** [scheduleFrame(frame)], with the readings [dateNow] of [Date.now()] and
    [currentTime] of [audioContext.currentTime].  [source.start] is called
    before [scheduledSources.set]: when it throws, the table is left as it
    was. *)
Definition scheduleFrame (p : FutureAudioPlayer) (clockSync : Clock.ClockSync)
    (frame : MediaFrame) (dateNow currentTime : num)
    : FutureAudioPlayer * Outcome :=
  let p := initContext p in
  let now := Clock.now clockSync dateNow in
  let playTime := f_timestamp frame in
  let delay := playTime - now in
  if delay <? lit 0 then (p, DroppedLate (- delay * lit 1000))
  else if delay >? lit 10 then (p, DroppedTooFar (delay * lit 1000))
  else
    match decodeAudioData (f_data frame) with
    | None => (p, DecodeFailed)
    | Some audioBuffer =>
        let contextTime := currentTime + delay in
        let source := {| src_buffer := audioBuffer; src_startAt := contextTime |} in
        if startAccepts contextTime
        then ({| audioContext := audioContext p;
                 futureBufferMs := futureBufferMs p;
                 scheduledSources :=
                   <[f_sequence frame := source]> (scheduledSources p);
                 nextSequence := nextSequence p |},
              Started source)
        else (p, StartFailed)
    end.

(** A frame reaches the renderer when a source is started for it; it is
    dropped when one of the two admission guards returns early. *)
Definition reachesRenderer (o : Outcome) : bool :=
  match o with
  | Started _ => true
  | _ => false
  end.

Definition dropped (o : Outcome) : bool :=
  match o with
  | DroppedLate _ | DroppedTooFar _ => true
  | _ => false
  end.

End WithNumber.
End Player.

(* ================================================================== *)
(** * [SoluSyncClient]: network quality and heartbeats *)
(* ================================================================== *)

Module Client.
Section WithNumber.
Context {N : Number}.
Local Open Scope num_scope.

(** [enum NetworkQuality] of [types.ts]. *)
Inductive NetworkQuality : Type := Excellent | Good | Fair | Poor | Critical.

(** [getNetworkQuality()]. *)
Definition getNetworkQuality (clockSync : Clock.ClockSync) : NetworkQuality :=
  let rtt := Clock.getLastRTT clockSync in
  if rtt <? lit 10 then Excellent
  else if rtt <? lit 50 then Good
  else if rtt <? lit 100 then Fair
  else if rtt <? lit 200 then Poor
  else Critical.

(** The fields of a [heartbeat] that the client reads; [server_time] is
    optional. *)
Record HeartbeatMessage : Type := mkHeartbeat {
  client_time : num;
  server_time : option num
}.

(** [handleHeartbeat(message)].  [Date.now()] is read three times: for the
    round trip, for the offset, and by [updateQuickSample] for the time stamp. *)
Definition handleHeartbeat (clockSync : Clock.ClockSync) (message : HeartbeatMessage)
    (dateNow1 dateNow2 dateNow3 : num) : Clock.ClockSync :=
  match server_time message with
  | Some serverTime =>
      if truthy serverTime then
        let rtt := dateNow1 / lit 1000 - client_time message in
        let offset := serverTime - dateNow2 / lit 1000 + rtt / lit 2 in
        Clock.updateQuickSample clockSync offset rtt dateNow3
      else clockSync
  | None => clockSync
  end.

End WithNumber.
End Client.

(* ================================================================== *)
(** * Runs of the clock, and the specification's vocabulary *)
(* ================================================================== *)

Module Runs.
Section WithNumber.
Context {N : Number}.
Local Open Scope num_scope.
Import Clock.

(** One submission to the clock: a full probe (the stored send time, the
    response and the receive reading) or a quick sample. *)
Inductive Submission : Type :=
  | Probe (lastSyncT1 : option num) (response : ClockSyncResponse) (dateNow : num)
  | Quick (offset rtt : num) (dateNow : num).

Definition submit (c : ClockSync) (e : Submission) : ClockSync :=
  match e with
  | Probe w r d => handleResponse c w r d
  | Quick o r d => updateQuickSample c o r d
  end.

(** The clock after a sequence of submissions, from a fresh instance. *)
Definition run (es : list Submission) : ClockSync := fold_left submit es init.

Definition reachable (c : ClockSync) : Prop := exists es, c = run es.

End WithNumber.
End Runs.

(** The specification's words, in error-free arithmetic. *)
Module Spec.
Local Open Scope Q_scope.

(** Sum of squared residuals of the line [y = a + b t] over the points
    [(t, y)]. *)
Fixpoint sse (pts : list (Q * Q)) (a b : Q) : Q :=
  match pts with
  | [] => 0
  | (t, y) :: rest => (y - (a + b * t)) * (y - (a + b * t)) + sse rest a b
  end.

(** [b] is an ordinary-least-squares slope of the points: with some intercept
    it minimises the sum of squared residuals over all lines. *)
Definition is_ols_slope (pts : list (Q * Q)) (b : Q) : Prop :=
  exists a, forall a' b', sse pts a b <= sse pts a' b'.

(** The points the clock regresses: sample offset against receive time. *)
Definition points (recent : list (@Clock.ClockSample Exact)) : list (Q * Q) :=
  map (fun s => (Clock.s_timestamp s, Clock.s_offset s)) recent.

(** The number of regressed samples, as a rational. *)
Definition count (recent : list (@Clock.ClockSample Exact)) : Q :=
  inject_Z (Z.of_nat (length recent)).

(** The intercept (at the origin [t0] of the regression) that goes with the
    slope the code computes from the sums [S] of [n] samples. *)
Definition fittedIntercept (n : nat) (S : @Clock.Sums Exact) : Q :=
  (Clock.sumY S - Clock.regressionSlope n S * Clock.sumX S) / of_nat n.

(** The smoothing the specification describes for the quality inputs: the
    offset's moving average (weight 0.1, started at 0) run over the raw round
    trips, in milliseconds. *)
Definition smoothedFrom (start : Q) (rawMs : list Q) : Q :=
  fold_left (fun acc r => acc * (1 - 0.1) + r * 0.1) rawMs start.

Definition smoothedRTT (rawMs : list Q) : Q := smoothedFrom 0 rawMs.

(** The quality table read at a round-trip time in milliseconds. *)
Definition qualityOf (rttMs : Q) : Client.NetworkQuality :=
  if Qltb rttMs 10 then Client.Excellent
  else if Qltb rttMs 50 then Client.Good
  else if Qltb rttMs 100 then Client.Fair
  else if Qltb rttMs 200 then Client.Poor
  else Client.Critical.

End Spec.

(* ================================================================== *)
(** * Concrete runs used below *)
(* ================================================================== *)

Module Scenarios.
Import Clock Runs.
Local Open Scope float_scope.

(** A probe sent at 10 s and received at 12 s whose server claims to have
    held it for 5 s: the round trip computes to -3 s. *)
Definition negativeRttResponse : @ClockSyncResponse IEEE :=
  mkResponse 10 100 105.

Definition afterNegativeRtt : @ClockSync IEEE :=
  handleResponse init (Some 10) negativeRttResponse 12000.

(** A heartbeat sample with a round trip of 50 ms. *)
Definition afterRtt50ms : @ClockSync IEEE :=
  updateQuickSample init 0 0.05 1000.

(** Round trips of 40 ms, then 60 ms. *)
Definition afterRtt40 : @ClockSync IEEE := run [Quick 0 0.04 1000].

Definition afterRtt40then60 : @ClockSync IEEE :=
  run [Quick 0 0.04 1000; Quick 0 0.06 2000].

(** Measured offsets falling by 2 s per second of local time. *)
Definition steepSubmissions : list (@Submission IEEE) :=
  [Quick 0 0 0; Quick (-2) 0 1000; Quick (-4) 0 2000].

Definition steep : @ClockSync IEEE := run steepSubmissions.

(** Offsets rising by 1 s per second of local time, in error-free
    arithmetic: two samples, then a third. *)
Definition risingTwo : @ClockSync Exact :=
  run [Quick 0 0 0; Quick 1 0 1000]%Q.

Definition risingThird : @ClockSample Exact := (mkSample 2 0 2)%Q.

Definition risingRing : list (@ClockSample Exact) :=
  samples (addSample risingTwo risingThird).

Definition risingRecent : list (@ClockSample Exact) :=
  slice_last (Nat.min 10 (length risingRing)) risingRing.

Definition risingDenom : Q :=
  regressionDenom (Nat.min 10 (length risingRing))
    (regressionSums (windowStart risingRecent) risingRecent).

(** Offsets falling by half a second per second, in error-free arithmetic. *)
Definition gentle : @ClockSync Exact :=
  run [Quick 0 0 0; Quick (-0.5) 0 1000; Quick (-1) 0 2000]%Q.

(** The steep run in error-free arithmetic. *)
Definition steepExact : @ClockSync Exact :=
  run [Quick 0 0 0; Quick (-2) 0 1000; Quick (-4) 0 2000]%Q.

(** Three quick samples whose measured offsets lie exactly on the line
    [offset = 1700000000 + 2^-20 * (t - 1700000000)], received at the local
    times 1700000000, 1700000001 and 1700000002 s; every number is a double.
    The same submissions are read in either arithmetic. *)
Definition collinearQuicks {N : Number} : list (@Submission N) :=
  [Quick (lit 1700000000) (lit 0.05) (lit 1700000000000);
   Quick (lit (1782579200000001 # 1048576)) (lit 0.05) (lit 1700000001000);
   Quick (lit (1782579200000002 # 1048576)) (lit 0.05) (lit 1700000002000)].

(** The first two of them and the sample of the third, in error-free
    arithmetic, and the window the regression then runs over. *)
Definition collinearTwo : @ClockSync Exact :=
  run [Quick 1700000000 0.05 1700000000000;
       Quick (1782579200000001 # 1048576) 0.05 1700000001000]%Q.

Definition collinearThird : @ClockSample Exact :=
  (mkSample (1782579200000002 # 1048576) 0.05 (1700000002000 / 1000))%Q.

Definition collinearRing : list (@ClockSample Exact) :=
  samples (addSample collinearTwo collinearThird).

Definition collinearRecent : list (@ClockSample Exact) :=
  slice_last (Nat.min 10 (length collinearRing)) collinearRing.

Definition collinearDenom : Q :=
  regressionDenom (Nat.min 10 (length collinearRing))
    (regressionSums (windowStart collinearRecent) collinearRecent).

(** Measured offsets rising by 1 s per second of local time, in binary64. *)
Definition risingFloat : @ClockSync IEEE :=
  run [Quick 0 0 0; Quick 1 0 1000; Quick 2 0 2000].

(** Measured offsets falling by 0.9999 s per second of local time. *)
Definition slippingSubmissions : list (@Submission IEEE) :=
  [Quick 1700000000 0 1700000000000;
   Quick 1699999999.0001 0 1700000001000;
   Quick 1699999998.0002 0 1700000002000].

Definition slipping : @ClockSync IEEE := run slippingSubmissions.

(** A player that has not created its audio context yet, a decoder that
    always succeeds, and a frame of sequence number 7 to be presented at
    [presentation]; the clock is fresh, so [now()] is the local time. *)
Definition idlePlayer : @Player.FutureAudioPlayer IEEE unit :=
  Player.mkPlayer false 80 ∅ 0.

Definition decodeAlways (data : unit) : option unit := Some tt.

Definition frameAt (presentation : float) : @Player.MediaFrame IEEE unit :=
  Player.mkFrame tt presentation 0.02 Player.Audio 7.

Definition scheduleAt (presentation : float)
    : @Player.FutureAudioPlayer IEEE unit * @Player.Outcome IEEE unit :=
  Player.scheduleFrame decodeAlways idlePlayer init
    (frameAt presentation) 10000 5.

(** A quick sample whose offset is NaN, and a probe whose server time stamps
    are infinite. *)
Definition afterNaNQuick : @ClockSync IEEE :=
  updateQuickSample init nan 0 0.

Definition afterInfiniteProbe : @ClockSync IEEE :=
  handleResponse init (Some 10) (mkResponse 10 infinity infinity) 12000.

End Scenarios.

(* ================================================================== *)
(** * Histories of submissions *)
(* ================================================================== *)

Module History.
Section WithNumber.
Context {N : Number}.
Local Open Scope num_scope.
Import Clock Runs.

(** The sample a submission hands to [addSample]. *)
Definition sampleOf (e : Submission) : ClockSample :=
  match e with
  | Probe w r d => probeSample w r d
  | Quick o r d => {| s_offset := o; s_rtt := r; s_timestamp := d / lit 1000 |}
  end.

(** [q] to the power [n]. *)
Fixpoint Qpow (q : Q) (n : nat) : Q :=
  match n with
  | O => 1%Q
  | S n' => (q * Qpow q n')%Q
  end.

(** The clock after further submissions, from any state. *)
Definition runFrom (c : ClockSync) (es : list Submission) : ClockSync :=
  fold_left submit es c.

(** Two samples that agree on measured offset and time stamp (their round
    trips may differ). *)
Definition sameButRtt (s s' : ClockSample) : Prop :=
  s_offset s = s_offset s' /\ s_timestamp s = s_timestamp s'.

End WithNumber.
End History.


(* ================================================================== *)
(** * [Math.max] *)
(* ================================================================== *)

(** [Math.max] on two numbers, for each arithmetic. *)
Class MathMax (N : Number) : Type := {
  nmax : num -> num -> num
}.

(** Binary64: NaN if either argument is NaN; otherwise the larger one, with
    [+0] above [-0] (the sum of two zeros is [-0] only when both are). *)
Definition float_max (x y : float) : float :=
  if (PrimFloat.is_nan x || PrimFloat.is_nan y)%bool then PrimFloat.nan
  else if PrimFloat.ltb x y then y
  else if PrimFloat.ltb y x then x
  else if PrimFloat.eqb x PrimFloat.zero then PrimFloat.add x y
  else x.

#[export] Instance IEEE_max : MathMax IEEE := {| nmax := float_max |}.

#[export] Instance Exact_max : MathMax Exact :=
  {| nmax := fun x y => if Qltb x y then y else x |}.

(* ================================================================== *)
(** * [FutureAudioPlayer]: the remaining methods *)
(* ================================================================== *)

Module Player2.
Section WithNumber.
Context {N : Number} {M : MathMax N}.
Local Open Scope num_scope.
Import Player.

Context {ArrayBuffer AudioBuffer : Type}.

(** [audioContext.decodeAudioData], the browser's decoder used by
    [playBuffer]; [None] is a rejected promise. *)
Variable contextDecode : ArrayBuffer -> option AudioBuffer.

(** What one call of [playBuffer] did: the source started, with the number
    assigned to the gain of its [GainNode], or the promise rejected by the
    decoder ([PlayRejected]), by the assignment to [gain.value]
    ([GainFailed]) or by [source.start] ([PlayStartFailed]). *)
Inductive PlayOutcome : Type :=
  | Played (source : @SourceNode N AudioBuffer) (gain : num)
  | PlayRejected
  | GainFailed
  | PlayStartFailed.

(** [gainNode.gain.value = volume].  The attribute is declared [float]: the
    assignment throws a [TypeError] unless [volume] rounds to a finite
    single-precision number, that is unless [|volume| < 2^128 - 2^103]
    (NaN and the infinities fail the comparison). *)
Definition gainLimit : num :=
  lit 33554431 * lit 2251799813685248 * lit 4503599627370496.

Definition gainAccepts (volume : num) : bool := nabs volume <? gainLimit.

(** [playBuffer(data, startAt, volume = 1.0)], with the readings [dateNow]
    and [currentTime]; [volume] is [None] when the argument is omitted.  The
    gain is assigned before [source.start] is called, and the counter and the
    table are touched only after it: an exception of either leaves them as
    they were. *)
Definition playBuffer (p : @FutureAudioPlayer N AudioBuffer)
    (clockSync : Clock.ClockSync) (data : ArrayBuffer) (startAt : num)
    (volume : option num) (dateNow currentTime : num)
    : @FutureAudioPlayer N AudioBuffer * PlayOutcome :=
  let volume := match volume with Some v => v | None => lit 1 end in
  let p := initContext p in
  match contextDecode data with
  | None => (p, PlayRejected)
  | Some audioBuffer =>
      if negb (gainAccepts volume) then (p, GainFailed)
      else
        let now := Clock.now clockSync dateNow in
        let delay := nmax (lit 0) (startAt - now) in
        let contextTime := currentTime + delay in
        let source :=
          {| src_buffer := audioBuffer; src_startAt := contextTime |} in
        if startAccepts contextTime
        then
          let sequence := nextSequence p in
          ({| audioContext := audioContext p;
              futureBufferMs := futureBufferMs p;
              scheduledSources := <[sequence := source]> (scheduledSources p);
              nextSequence := (nextSequence p + 1)%Z |},
           Played source volume)
        else (p, PlayStartFailed)
  end.

(** [stop()]: every source in the table is stopped (errors are swallowed),
    then the table is cleared.  The second component lists the sources on
    which [source.stop()] was called. *)
Definition stop (p : @FutureAudioPlayer N AudioBuffer)
    : @FutureAudioPlayer N AudioBuffer * list (@SourceNode N AudioBuffer) :=
  ({| audioContext := audioContext p;
      futureBufferMs := futureBufferMs p;
      scheduledSources := ∅;
      nextSequence := nextSequence p |},
   snd <$> map_to_list (scheduledSources p)).

(** The [onended] callback installed by [scheduleFrame] and [playBuffer]:
    [this.scheduledSources.delete(sequence)]. *)
Definition sourceEnded (p : @FutureAudioPlayer N AudioBuffer) (sequence : Z)
    : @FutureAudioPlayer N AudioBuffer :=
  {| audioContext := audioContext p;
     futureBufferMs := futureBufferMs p;
     scheduledSources := delete sequence (scheduledSources p);
     nextSequence := nextSequence p |}.

Definition setFutureBufferMs (p : @FutureAudioPlayer N AudioBuffer) (ms : num)
    : @FutureAudioPlayer N AudioBuffer :=
  {| audioContext := audioContext p;
     futureBufferMs := ms;
     scheduledSources := scheduledSources p;
     nextSequence := nextSequence p |}.

Definition getFutureBufferMs (p : @FutureAudioPlayer N AudioBuffer) : num :=
  futureBufferMs p.

(** No entry of the table sits at or above the counter [nextSequence]. *)
Definition countedKeysFree (p : @FutureAudioPlayer N AudioBuffer) : Prop :=
  forall k : Z, (nextSequence p <= k)%Z -> scheduledSources p !! k = None.

End WithNumber.
End Player2.

(* ================================================================== *)
(** * [SoluSyncClient]: headers, outgoing frames and dispatch *)
(* ================================================================== *)

From Stdlib Require String Sorted.

Module Session.
Import Stdlib.Strings.String.
Section WithNumber.
Context {N : Number}.
Local Open Scope num_scope.

(** [interface MessageHeader] of [types.ts]; [sequence] is a counter of
    integers (a JavaScript number counts exactly up to 2^53). *)
Record MessageHeader : Type := mkHeader {
  h_id : String.string;
  h_timestamp : num;
  h_node_id : String.string;
  h_sequence : Z
}.

(** [type MediaAction] and [enum NodeType] of [types.ts]. *)
Inductive MediaAction : Type := Play | Pause | Stop | Seek | Load | Unload.

Inductive NodeType : Type := Master | Replica | ClientNode.

(** [interface MediaControlParams]; [{}] has every key absent. *)
Record MediaControlParams : Type := mkParams {
  volume : option num;
  loopCount : option num;
  fadeInMs : option num;
  fadeOutMs : option num;
  seekPosition : option num
}.

Definition noParams : MediaControlParams :=
  {| volume := None; loopCount := None; fadeInMs := None; fadeOutMs := None;
     seekPosition := None |}.

(** The messages the client builds, before [JSON.stringify]. *)
Inductive Outgoing : Type :=
  | MediaControl (header : MessageHeader) (action : MediaAction)
      (track_id : String.string) (start_at : num) (params : MediaControlParams)
  | Hello (header : MessageHeader) (protocol_version : String.string)
      (capabilities : list String.string) (node_type : NodeType)
      (auth_token : option String.string)
  | Heartbeat (header : MessageHeader) (client_time : num)
  | ClockSyncRequest (header : MessageHeader) (t1 : num).

Definition headerOf (m : Outgoing) : MessageHeader :=
  match m with
  | MediaControl h _ _ _ _ | Hello h _ _ _ _ | Heartbeat h _
  | ClockSyncRequest h _ => h
  end.

(** A parsed incoming message: its [type] and the fields [handleResponse]
    and [handleHeartbeat] read from it. *)
Record Incoming : Type := mkIncoming {
  in_type : String.string;
  in_response : Clock.ClockSyncResponse;
  in_heartbeat : Client.HeartbeatMessage
}.

(** What [emit] was called with. *)
Inductive Event : Type :=
  | Ready
  | ErrorEvent (message : Incoming)
  | MessageEvent (message : Incoming).

(** The fields of [class SoluSyncClient] used below, with the two pieces of
    the outside world the methods touch: [socketOpen] is the test
    [this.ws && this.ws.readyState === WebSocket.OPEN], [sent] lists the
    messages handed to [ws.send] (oldest first), [emitted] the events
    emitted, and [lastSyncT1] is the global [window.__lastSyncT1]. *)
Record SoluSyncClient : Type := mkClient {
  clockSync : Clock.ClockSync;
  nodeId : String.string;
  sequence : Z;
  connected : bool;
  socketOpen : bool;
  sent : list Outgoing;
  emitted : list Event;
  lastSyncT1 : option num
}.

Definition withSequence (c : SoluSyncClient) (n : Z) : SoluSyncClient :=
  {| clockSync := clockSync c; nodeId := nodeId c; sequence := n;
     connected := connected c; socketOpen := socketOpen c; sent := sent c;
     emitted := emitted c; lastSyncT1 := lastSyncT1 c |}.

Definition withClock (c : SoluSyncClient) (k : Clock.ClockSync) : SoluSyncClient :=
  {| clockSync := k; nodeId := nodeId c; sequence := sequence c;
     connected := connected c; socketOpen := socketOpen c; sent := sent c;
     emitted := emitted c; lastSyncT1 := lastSyncT1 c |}.

Definition emit (c : SoluSyncClient) (e : Event) : SoluSyncClient :=
  {| clockSync := clockSync c; nodeId := nodeId c; sequence := sequence c;
     connected := connected c; socketOpen := socketOpen c; sent := sent c;
     emitted := emitted c ++ [e]; lastSyncT1 := lastSyncT1 c |}.

(** [send(message)]: handed to the socket when it is open, dropped otherwise. *)
Definition send (c : SoluSyncClient) (message : Outgoing) : SoluSyncClient :=
  if socketOpen c
  then {| clockSync := clockSync c; nodeId := nodeId c; sequence := sequence c;
          connected := connected c; socketOpen := socketOpen c;
          sent := sent c ++ [message];
          emitted := emitted c; lastSyncT1 := lastSyncT1 c |}
  else c.

(** [createHeader()], with [id] the string [generateId()] drew and [dateNow]
    the reading of [Date.now()]; [this.sequence++] hands out the old value. *)
Definition createHeader (c : SoluSyncClient) (id : String.string) (dateNow : num)
    : MessageHeader * SoluSyncClient :=
  ({| h_id := id; h_timestamp := dateNow / lit 1000; h_node_id := nodeId c;
      h_sequence := sequence c |},
   withSequence c (sequence c + 1)%Z).

(** [play(trackId, startAt?, params = {})]: the header is built first, then
    [startAt || this.clockSync.now() + 0.1]. *)
Definition play (c : SoluSyncClient) (trackId : String.string)
    (startAt : option num) (params : option MediaControlParams)
    (id : String.string) (dateNow1 dateNow2 : num) : SoluSyncClient :=
  let params := match params with Some ps => ps | None => noParams end in
  let (header, c) := createHeader c id dateNow1 in
  let fallback := Clock.now (clockSync c) dateNow2 + lit 0.1 in
  let start_at :=
    match startAt with
    | Some v => if truthy v then v else fallback
    | None => fallback
    end in
  send c (MediaControl header Play trackId start_at params).

(** [pause(trackId)] and [stop(trackId)]. *)
Definition pause (c : SoluSyncClient) (trackId : String.string)
    (id : String.string) (dateNow1 dateNow2 : num) : SoluSyncClient :=
  let (header, c) := createHeader c id dateNow1 in
  send c (MediaControl header Pause trackId (Clock.now (clockSync c) dateNow2)
            noParams).

Definition stop (c : SoluSyncClient) (trackId : String.string)
    (id : String.string) (dateNow1 dateNow2 : num) : SoluSyncClient :=
  let (header, c) := createHeader c id dateNow1 in
  send c (MediaControl header Stop trackId (Clock.now (clockSync c) dateNow2)
            noParams).

(** [ClockSync.sendSync(client)]: the header is built by hand (node id
    ['client'], sequence 0), the send time is stored in the global, and the
    message goes through [client._send]. *)
Definition sendSync (c : SoluSyncClient) (id : String.string) (dateNow : num)
    : SoluSyncClient :=
  let t1 := dateNow / lit 1000 in
  let message :=
    ClockSyncRequest
      {| h_id := id; h_timestamp := t1; h_node_id := "client"%string;
         h_sequence := 0 |} t1 in
  let c :=
    {| clockSync := clockSync c; nodeId := nodeId c; sequence := sequence c;
       connected := connected c; socketOpen := socketOpen c; sent := sent c;
       emitted := emitted c; lastSyncT1 := Some t1 |} in
  send c message.

(** The callback of [startHeartbeat] (every 5 s), and of [startClockSync]. *)
Definition heartbeatTick (c : SoluSyncClient) (id : String.string)
    (dateNow1 dateNow2 : num) : SoluSyncClient :=
  if connected c then
    let (header, c) := createHeader c id dateNow1 in
    send c (Heartbeat header (dateNow2 / lit 1000))
  else c.

Definition clockSyncTick (c : SoluSyncClient) (id : String.string)
    (dateNow : num) : SoluSyncClient :=
  if connected c then sendSync c id dateNow else c.

(** The four message types [handleMessage] knows. *)
Definition typeHello : String.string := "hello".
Definition typeResponse : String.string := "clock_sync_response".
Definition typeHeartbeat : String.string := "heartbeat".
Definition typeError : String.string := "error".

(** [handleMessage], after [JSON.parse]: the [switch] on [message.type]. *)
Definition handleMessage (c : SoluSyncClient) (message : Incoming)
    (dateNow1 dateNow2 dateNow3 : num) : SoluSyncClient :=
  if String.eqb (in_type message) typeHello then emit c Ready
  else if String.eqb (in_type message) typeResponse then
    withClock c
      (Clock.handleResponse (clockSync c) (lastSyncT1 c) (in_response message)
         dateNow1)
  else if String.eqb (in_type message) typeHeartbeat then
    withClock c
      (Client.handleHeartbeat (clockSync c) (in_heartbeat message)
         dateNow1 dateNow2 dateNow3)
  else if String.eqb (in_type message) typeError then emit c (ErrorEvent message)
  else emit c (MessageEvent message).

(** One call into the client, with the outside readings it consumes. *)
Inductive Call : Type :=
  | CallPlay (trackId : String.string) (startAt : option num)
      (params : option MediaControlParams) (id : String.string)
      (dateNow1 dateNow2 : num)
  | CallPause (trackId id : String.string) (dateNow1 dateNow2 : num)
  | CallStop (trackId id : String.string) (dateNow1 dateNow2 : num)
  | HeartbeatTick (id : String.string) (dateNow1 dateNow2 : num)
  | ClockSyncTick (id : String.string) (dateNow : num)
  | Receive (message : Incoming) (dateNow1 dateNow2 dateNow3 : num).

Definition call (c : SoluSyncClient) (k : Call) : SoluSyncClient :=
  match k with
  | CallPlay t s ps id d1 d2 => play c t s ps id d1 d2
  | CallPause t id d1 d2 => pause c t id d1 d2
  | CallStop t id d1 d2 => stop c t id d1 d2
  | HeartbeatTick id d1 d2 => heartbeatTick c id d1 d2
  | ClockSyncTick id d => clockSyncTick c id d
  | Receive m d1 d2 d3 => handleMessage c m d1 d2 d3
  end.

Definition calls (c : SoluSyncClient) (ks : list Call) : SoluSyncClient :=
  fold_left call ks c.

(** A call that builds a header with [createHeader]. *)
Definition makesHeader (c : SoluSyncClient) (k : Call) : bool :=
  match k with
  | CallPlay _ _ _ _ _ _ | CallPause _ _ _ _ | CallStop _ _ _ _ => true
  | HeartbeatTick _ _ _ => connected c
  | ClockSyncTick _ _ | Receive _ _ _ _ => false
  end.

(** Whether a frame is a clock-sync request. *)
Definition isSyncRequest (m : Outgoing) : bool :=
  match m with
  | ClockSyncRequest _ _ => true
  | _ => false
  end.

(** The sequence numbers of the frames that went through [createHeader]
    (every frame but the clock-sync requests), in the order sent. *)
Definition countedSequences (ms : list Outgoing) : list Z :=
  map (fun m => h_sequence (headerOf m))
    (List.filter (fun m => negb (isSyncRequest m)) ms).

(** The clock-sync requests among the frames sent. *)
Definition syncRequests (ms : list Outgoing) : list Outgoing :=
  List.filter isSyncRequest ms.

(** The frames sent so far, relative to the counter: the sequence numbers
    of the frames built on [createHeader] increase strictly and lie below
    the counter, and every clock-sync request carries sequence 0. *)
Definition ordered (c : SoluSyncClient) : Prop :=
  Sorted.StronglySorted Z.lt (countedSequences (sent c)) /\
  Forall (fun n => (n < sequence c)%Z) (countedSequences (sent c)) /\
  Forall (fun m => h_sequence (headerOf m) = 0%Z) (syncRequests (sent c)).

(** The number of calls that build a header. *)
Definition headersMade (c : SoluSyncClient) (ks : list Call) : nat :=
  List.length (List.filter (makesHeader c) ks).

End WithNumber.
End Session.

(* ================================================================== *)
(** * [FutureAudioPlayer.decodeAudioData]: raw PCM16 to an [AudioBuffer] *)
(* ================================================================== *)

Module Pcm.
Section WithNumber.
Context {N : Number}.
Local Open Scope num_scope.

(** An [ArrayBuffer] is its bytes, each in [0 .. 255].  The [AudioBuffer]
    made by [createBuffer(2, length, 48000)] is its two channels of [length]
    samples, all 0 at first. *)
Record AudioBuffer : Type := mkBuffer {
  channel0 : list num;
  channel1 : list num
}.

(** [dataView.getInt16(offset, true)]: little-endian, two's complement;
    [None] is the [RangeError] thrown when the two bytes are not both inside
    the buffer. *)
Definition getInt16 (data : list Z) (offset : nat) : option Z :=
  match nth_error data offset, nth_error data (offset + 1) with
  | Some low, Some high =>
      let unsigned := (low + 256 * high)%Z in
      Some (if (unsigned <? 32768)%Z then unsigned else (unsigned - 65536)%Z)
  | _, _ => None
  end.

(** [dataView.getInt16(offset, true) / 32768]: a multiple of 2^-15 of
    magnitude at most 1, which the [Float32Array] stores without rounding. *)
Definition toSample (value : Z) : num := lit (inject_Z value) / lit 32768.

(** The inner loop [for (let i = 0; i < samples; i++)] for one channel, from
    index [i] with [remaining] iterations to go.  A write past the end of the
    [Float32Array] is ignored, as stdpp's list insert is. *)
Fixpoint fillChannel (data : list Z) (channel : nat) (i remaining : nat)
    (channelData : list num) : option (list num) :=
  match remaining with
  | O => Some channelData
  | S remaining' =>
      let offset := ((i * 2 + channel) * 2)%nat in
      match getInt16 data offset with
      | None => None
      | Some value =>
          fillChannel data channel (S i) remaining'
            (<[i := toSample value]> channelData)
      end
  end.

(** [decodeAudioData(data)] with the audio context in place.
    [samples = byteLength / 4] need not be an integer: [createBuffer] takes
    its integer part ([frames]) and throws when that is 0, while the loops
    run for every [i < samples] ([iterations], the quotient rounded up). *)
Definition decodeAudioData (data : list Z) : option AudioBuffer :=
  let byteLength := length data in
  let frames := (byteLength / 4)%nat in
  let iterations := ((byteLength + 3) / 4)%nat in
  if Nat.eqb frames 0 then None
  else
    match fillChannel data 0 0 iterations (repeat (lit 0) frames) with
    | None => None
    | Some filled0 =>
        match fillChannel data 1 0 iterations (repeat (lit 0) frames) with
        | None => None
        | Some filled1 => Some {| channel0 := filled0; channel1 := filled1 |}
        end
    end.

(** The sample of frame [i] and channel [channel] in well-formed data. *)
Definition sampleAt (data : list Z) (channel i : nat) : option num :=
  toSample <$> getInt16 data ((i * 2 + channel) * 2).

End WithNumber.
End Pcm.

Module SessionScenarios.
Import Stdlib.Strings.String.
Import Clock Session.
Local Open Scope float_scope.

(** A connected client that has sent nothing yet; [open] tells whether its
    socket is open. *)
Definition freshClient (open : bool) : @SoluSyncClient IEEE :=
  mkClient init "client-k3j9x0a1b" 0 true open [] [] None.

(** Play at an explicit time, pause, a heartbeat, a sync probe, then play
    with start time 0. *)
Definition someCalls : list (@Call IEEE) :=
  [CallPlay "intro" (Some 12.5) None "a1" 10000 10000;
   CallPause "intro" "a2" 11000 11000;
   HeartbeatTick "a3" 12000 12000;
   ClockSyncTick "a4" 13000;
   CallPlay "intro" (Some 0) None "a5" 14000 14000].

(** A server error and a message of a type the client does not know. *)
Definition errorMessage : @Incoming IEEE :=
  mkIncoming "error" (mkResponse 0 0 0) (Client.mkHeartbeat 0 None).

Definition statusMessage : @Incoming IEEE :=
  mkIncoming "node_status" (mkResponse 0 0 0) (Client.mkHeartbeat 0 None).

End SessionScenarios.

(* ================================================================== *)
(** * Further concrete runs *)
(* ================================================================== *)

Module Scenarios2.
Import Clock Runs History.

(** Three probes on a fresh clock, in error-free arithmetic, each measuring
    the offset 1000.05 (sent and received at the local times 0, 1, 2 s with no
    round trip). *)
Definition steadyProbes : list (@Submission Exact) :=
  [Probe None (mkResponse 0 1000.05 1000.05) 0;
   Probe None (mkResponse 1 1001.05 1001.05) 1000;
   Probe None (mkResponse 2 1002.05 1002.05) 2000]%Q.

(** Two quick samples measuring 0.2 s and -0.1 s. *)
Definition mixedQuicks : list (@Submission Exact) :=
  [Quick 0.2 0.01 1000; Quick (-0.1) 0.01 2000]%Q.

(** The same two measurements behind much longer round trips. *)
Definition mixedQuicksSlow : list (@Submission Exact) :=
  [Quick 0.2 5 1000; Quick (-0.1) 0.3 2000]%Q.

(** Samples on the line [offset = 0.5 + 2 t] at the local times 0, 1 s, and a
    third at 3 s. *)
Definition onLineTwo : @ClockSync Exact :=
  run [Quick 0.5 0 0; Quick 2.5 0 1000]%Q.

Definition onLineThird : @ClockSample Exact := (mkSample 6.5 0 3)%Q.

Definition onLineRing : list (@ClockSample Exact) :=
  samples (addSample onLineTwo onLineThird).

Definition onLineRecent : list (@ClockSample Exact) :=
  slice_last (Nat.min 10 (length onLineRing)) onLineRing.

Definition onLineDenom : Q :=
  regressionDenom (Nat.min 10 (length onLineRing))
    (regressionSums (windowStart onLineRecent) onLineRecent).

(** Three samples taken within the same millisecond, on a clock whose drift
    was estimated before. *)
Definition drifting : @ClockSync Exact := (mkClock 0 0.25 [] 0)%Q.

Definition burstTwo : @ClockSync Exact :=
  runFrom drifting [Quick 1 0 7000; Quick 2 0 7000]%Q.

Definition burstThird : @ClockSample Exact := (mkSample 3 0 7)%Q.

(** A clock that starts 5 s off. *)
Definition fiveOff : @ClockSync Exact := (mkClock 5 0 [] 0)%Q.

(** A frame whose presentation time is NaN, offered to the idle player of
    [Scenarios] while the clock reads 10 s. *)
Definition scheduleNaNFrame
    : @Player.FutureAudioPlayer IEEE unit * @Player.Outcome IEEE unit :=
  Player.scheduleFrame Scenarios.decodeAlways Scenarios.idlePlayer init
    (Scenarios.frameAt PrimFloat.nan) 10000%float 5%float.

(** A buffer that should have started at 9.8 s, and one due at 60 s, played
    on the idle player while the clock reads 10 s. *)
Definition playAt (startAt : float)
    : @Player.FutureAudioPlayer IEEE unit * @Player2.PlayOutcome IEEE unit :=
  Player2.playBuffer Scenarios.decodeAlways Scenarios.idlePlayer init tt
    startAt None 10000%float 5%float.

(** A frame with sequence number 0, the idle player's counter, due at 10 s;
    then a buffer played 50 s ahead. *)
Definition frameZero : @Player.MediaFrame IEEE unit :=
  Player.mkFrame tt 10%float 0.02%float Player.Audio 0.

Definition afterFrameZero
    : @Player.FutureAudioPlayer IEEE unit * @Player.Outcome IEEE unit :=
  Player.scheduleFrame Scenarios.decodeAlways Scenarios.idlePlayer init
    frameZero 10000%float 5%float.

Definition afterFrameZeroThenPlay
    : @Player.FutureAudioPlayer IEEE unit * @Player2.PlayOutcome IEEE unit :=
  Player2.playBuffer Scenarios.decodeAlways (fst afterFrameZero) init tt
    60%float None 10000%float 5%float.

(** Two frames with sequence number 7, due at 10 s and at 12 s. *)
Definition afterFirstSeven
    : @Player.FutureAudioPlayer IEEE unit * @Player.Outcome IEEE unit :=
  Scenarios.scheduleAt 10%float.

Definition afterSecondSeven
    : @Player.FutureAudioPlayer IEEE unit * @Player.Outcome IEEE unit :=
  Player.scheduleFrame Scenarios.decodeAlways (fst afterFirstSeven) init
    (Scenarios.frameAt 12%float) 10000%float 5%float.

(** Two stereo frames of PCM16: left 1 and -32768, right -1 and 32767. *)
Definition twoFrames : list Z :=
  [1; 0; 255; 255; 0; 128; 255; 127]%Z.

(** A player fed raw PCM, and a frame with an empty payload due at 5 s. *)
Definition pcmPlayer : @Player.FutureAudioPlayer IEEE (@Pcm.AudioBuffer IEEE) :=
  Player.mkPlayer false 80%float ∅ 0.

Definition emptyFrame : @Player.MediaFrame IEEE (list Z) :=
  Player.mkFrame [] 5%float 0.02%float Player.Audio 7.

(** Submissions that follow the NaN quick sample of [Scenarios]. *)
Definition afterPoison : list (@Submission IEEE) :=
  [Quick 0.2 0.01 1000; Quick 0.2 0.01 2000]%float.

End Scenarios2.

(* ================================================================== *)
(** * Rounding to binary64, on integers *)
(* ================================================================== *)

(** What the rounding of the standard library's [SpecFloat] computes,
    written as arithmetic on integers: the definitions used to show that
    the binary64 operations are monotone. *)
Module Round.
Local Open Scope Z_scope.

(** Iteration of a function, [n] times. *)
Fixpoint iterate {A : Type} (f : A -> A) (n : nat) (x : A) : A :=
  match n with
  | O => x
  | S n' => f (iterate f n' x)
  end.

(** [m / 2^n] rounded to the nearest integer, ties to even, for [n >= 1]. *)
Definition rne (m n : Z) : Z :=
  let q := m / 2 ^ n in
  let rem := m mod 2 ^ n in
  let half := 2 ^ (n - 1) in
  if rem <? half then q
  else if rem =? half then (if Z.even q then q else q + 1)
  else q + 1.

(** The same with [n <= 0] standing for an exact shift to the left. *)
Definition grne (m n : Z) : Z := if n <=? 0 then m * 2 ^ (- n) else rne m n.

(** A mantissa (possibly zero) and an exponent, as a number of the format. *)
Definition pack (s : bool) (o : Z * Z) : spec_float :=
  match fst o with
  | Z0 => S754_zero s
  | Zpos p => if snd o <=? 971 then S754_finite s p (snd o) else S754_infinity s
  | Zneg _ => S754_nan
  end.

(** A rounded mantissa of 54 bits is [2^53]: it moves to the next binade. *)
Definition carry (q k : Z) : Z * Z :=
  if q =? 2 ^ 53 then (2 ^ 52, k + 1) else (q, k).

(** The positive number [m * 2^e] rounded to the format: the mantissa is
    [m * 2^e / 2^k] rounded to nearest even, at the exponent [k] the format
    gives to numbers of this magnitude. *)
Definition rndR (m e : Z) : Z * Z :=
  let k := fexp prec emax (Zdigits2 m + e) in
  carry (grne m (k - e)) k.

(** A non-negative mantissa at the exponent the format gives it. *)
Definition canonical (o : Z * Z) : Prop :=
  0 <= fst o /\ -1074 <= snd o /\
  (0 < fst o -> fexp prec emax (Zdigits2 (fst o) + snd o) = snd o).

(** The value of a result in units of [2^B]. *)
Definition oval (B : Z) (o : Z * Z) : Z := fst o * 2 ^ (snd o - B).

(** The integer [M] in units of [2^E], rounded to the format. *)
Definition N (E M : Z) : spec_float := binary_normalize prec emax M E false.

Definition finite_or_zero (x : spec_float) : bool :=
  match x with
  | S754_zero _ | S754_finite _ _ _ => true
  | _ => false
  end.

(** A finite number of the format, in units of [2^-1074]. *)
Definition IV (x : spec_float) : Z :=
  match x with
  | S754_finite s m e => cond_Zopp s (Zpos m) * 2 ^ (e + 1074)
  | _ => 0
  end.

(** Equal, or two zeros. *)
Definition same (a b : spec_float) : Prop :=
  a = b \/ exists s s', a = S754_zero s /\ b = S754_zero s'.

End Round.

(* ================================================================== *)
(** * Sanity checks of the embedding *)
(* ================================================================== *)

Module Checks.
Import Clock.
Local Open Scope float_scope.

(** The decimal literals of the source denote the doubles JavaScript reads. *)
Example literals_are_the_doubles :
  (@lit IEEE 0.1 = 0.1 /\ @lit IEEE 0.0001 = 0.0001 /\ @lit IEEE 1000 = 1000 /\
   @lit IEEE 0 = 0 /\ @lit IEEE 1 = 1 /\ @lit IEEE 2 = 2 /\ @lit IEEE 10 = 10 /\
   @lit IEEE 50 = 50 /\ @lit IEEE 100 = 100 /\ @lit IEEE 200 = 200 /\
   @of_nat IEEE 3 = 3 /\ @of_nat IEEE 10 = 10)%float.
Proof. repeat split; reflexivity. Qed.

(** [1 - filterWeight] is the double [0.9]. *)
Example one_minus_weight :
  (@lit IEEE 1 - @filterWeight IEEE)%num = 0.9%float.
Proof. reflexivity. Qed.

(** Scenario S1 of the specification: one probe (0, 1000.05, 1000.05, 0) on a
    fresh clock gives [rtt = 0], [offset_meas = 1000.05] and offset 100.005. *)
Example basic_sync_first_probe :
  handleResponse init None (mkResponse 0 1000.05 1000.05) 0
  = mkClock 100.005 0 [mkSample 1000.05 0 0] 0.
Proof. vm_compute. reflexivity. Qed.

End Checks.

(* ================================================================== *)
(** * Structure of [addSample], in any arithmetic *)
(* ================================================================== *)

Module ClockFacts.
Section WithNumber.
Context {N : Number}.
Local Open Scope num_scope.
Import Clock.

Lemma slice_last_length {A : Type} (n : nat) (l : list A) :
  (0 < n)%nat -> length (slice_last n l) = Nat.min n (length l).
Proof.
  intros Hn. unfold slice_last.
  destruct (Nat.eqb_spec n 0) as [->|_]; [lia|].
  rewrite length_skipn. lia.
Qed.

Lemma slice_last_suffix {A : Type} (n : nat) (l : list A) :
  exists dropped, l = dropped ++ slice_last n l.
Proof.
  unfold slice_last. destruct (Nat.eqb n 0).
  - exists []. reflexivity.
  - exists (firstn (length l - n) l). symmetry. apply firstn_skipn.
Qed.

Lemma slice_last_app_one {A : Type} (n : nat) (l : list A) (x : A) :
  (0 < n)%nat -> slice_last n (l ++ [x]) = slice_last (n - 1) l ++ [x] \/
                 (n = 1%nat /\ slice_last n (l ++ [x]) = [x]).
Proof.
  intros Hn. unfold slice_last.
  destruct (Nat.eqb_spec n 0) as [->|_]; [lia|].
  rewrite length_app. simpl.
  destruct (Nat.eqb_spec (n - 1) 0) as [H1|H1].
  - right. split; [lia|].
    replace (length l + 1 - n)%nat with (length l + 0)%nat by lia.
    rewrite skipn_app, Nat.add_0_r, skipn_all.
    replace (length l - length l)%nat with 0%nat by lia. reflexivity.
  - left. rewrite skipn_app.
    replace (length l + 1 - n - length l)%nat with 0%nat by lia.
    replace (length l + 1 - n)%nat with (length l - (n - 1))%nat by lia.
    reflexivity.
Qed.

Lemma calculateDrift_offset (c : ClockSync) : offset (calculateDrift c) = offset c.
Proof.
  unfold calculateDrift.
  destruct (Nat.ltb _ 3); [reflexivity|].
  destruct (slice_last _ _); [reflexivity|].
  cbv zeta. destruct (nltb _ _); reflexivity.
Qed.

Lemma calculateDrift_samples (c : ClockSync) : samples (calculateDrift c) = samples c.
Proof.
  unfold calculateDrift.
  destruct (Nat.ltb _ 3); [reflexivity|].
  destruct (slice_last _ _); [reflexivity|].
  cbv zeta. destruct (nltb _ _); reflexivity.
Qed.

Lemma calculateDrift_lastSyncTime (c : ClockSync) :
  lastSyncTime (calculateDrift c) = lastSyncTime c.
Proof.
  unfold calculateDrift.
  destruct (Nat.ltb _ 3); [reflexivity|].
  destruct (slice_last _ _); [reflexivity|].
  cbv zeta. destruct (nltb _ _); reflexivity.
Qed.

Lemma addSample_samples (c : ClockSync) (s : ClockSample) :
  samples (addSample c s) = ringAfter c s.
Proof.
  unfold addSample, ringAfter. cbn [samples].
  destruct (Nat.leb 3 _); [apply calculateDrift_samples | reflexivity].
Qed.

Lemma addSample_offset (c : ClockSync) (s : ClockSample) :
  offset (addSample c s)
  = offset c * (lit 1 - filterWeight) + s_offset s * filterWeight.
Proof.
  unfold addSample. cbn [offset samples].
  destruct (Nat.leb 3 _); [apply calculateDrift_offset | reflexivity].
Qed.

Lemma addSample_lastSyncTime (c : ClockSync) (s : ClockSample) :
  lastSyncTime (addSample c s) = s_timestamp s.
Proof. reflexivity. Qed.

Lemma ringAfter_length (c : ClockSync) (s : ClockSample) :
  length (ringAfter c s) = Nat.min maxSamples (length (samples c) + 1).
Proof.
  unfold ringAfter. cbv zeta.
  destruct (Nat.ltb_spec maxSamples (length (samples c ++ [s]))) as [H|H];
    rewrite ?slice_last_length by (unfold maxSamples; lia);
    rewrite length_app in *; cbn [length] in *; unfold maxSamples in *; lia.
Qed.

Lemma ringAfter_keeps_order (c : ClockSync) (s : ClockSample) :
  exists dropped kept,
    samples c = dropped ++ kept /\ ringAfter c s = kept ++ [s].
Proof.
  unfold ringAfter. cbv zeta.
  destruct (Nat.ltb maxSamples (length (samples c ++ [s]))).
  - destruct (slice_last_app_one maxSamples (samples c) s) as [H|[H _]];
      [unfold maxSamples; lia| |discriminate H].
    destruct (slice_last_suffix (maxSamples - 1) (samples c)) as [d Hd].
    exists d, (slice_last (maxSamples - 1) (samples c)). split; assumption.
  - exists [], (samples c). split; reflexivity.
Qed.

End WithNumber.
End ClockFacts.

(* ================================================================== *)
(** * Drift estimation *)
(* ================================================================== *)

Module Drift.
Import Clock ClockFacts Runs Scenarios.

Section WithNumber.
Context {N : Number}.
Local Open Scope num_scope.

Lemma regressionSums_snoc (t0 : num) (l : list ClockSample) (s : ClockSample) :
  regressionSums t0 (l ++ [s]) = regressionStep t0 (regressionSums t0 l) s.
Proof. unfold regressionSums. rewrite fold_left_app. reflexivity. Qed.

(** What [calculateDrift] leaves in [drift] once the ring holds three
    samples. *)
Lemma calculateDrift_drift (c : ClockSync) :
  (3 <= length (samples c))%nat ->
  let n := Nat.min 10 (length (samples c)) in
  let recent := slice_last n (samples c) in
  let sums := regressionSums (windowStart recent) recent in
  drift (calculateDrift c)
  = if nabs (regressionDenom n sums) >? lit 0.0001
    then regressionSlope n sums else drift c.
Proof.
  intros Hlen. cbv zeta. unfold calculateDrift.
  destruct (Nat.ltb_spec (length (samples c)) 3) as [H|_]; [lia|].
  assert (Hne : (0 < length (slice_last (Nat.min 10 (length (samples c))) (samples c)))%nat)
    by (rewrite slice_last_length; lia).
  destruct (slice_last _ _) as [|first rest] eqn:E; [cbn in Hne; lia|].
  cbn [windowStart]. destruct (nltb _ _); reflexivity.
Qed.

Lemma addSample_drift_few (c : ClockSync) (s : ClockSample) :
  (length (samples (addSample c s)) < 3)%nat ->
  drift (addSample c s) = drift c.
Proof.
  rewrite addSample_samples. unfold addSample. fold (ringAfter c s).
  cbn [samples drift]. intros H.
  destruct (Nat.leb_spec 3 (length (ringAfter c s))) as [H3|_]; [lia|reflexivity].
Qed.

Lemma addSample_drift_enough (c : ClockSync) (s : ClockSample) :
  (3 <= length (samples (addSample c s)))%nat ->
  let ring := samples (addSample c s) in
  let n := Nat.min 10 (length ring) in
  let recent := slice_last n ring in
  let sums := regressionSums (windowStart recent) recent in
  drift (addSample c s)
  = if nabs (regressionDenom n sums) >? lit 0.0001
    then regressionSlope n sums else drift c.
Proof.
  cbv zeta. rewrite addSample_samples. intros H.
  unfold addSample. fold (ringAfter c s). cbn [samples drift].
  destruct (Nat.leb_spec 3 (length (ringAfter c s))) as [_|H3]; [|lia].
  rewrite calculateDrift_drift by exact H. reflexivity.
Qed.

End WithNumber.
End Drift.

(* ================================================================== *)
(** * The sample ring *)
(* ================================================================== *)

Module Ring.
Import Clock ClockFacts Runs.

(** C9.  After any insertion the ring holds at most [maxSamples] = 20 samples
    and is still oldest-first: it is a suffix of the old ring, in the old
    order, followed by the new sample. *)
Theorem ring_bounded_oldest_first {N : Number} (c : ClockSync) (s : ClockSample) :
  (length (samples (addSample c s)) <= 20)%nat /\
  exists dropped kept,
    samples c = dropped ++ kept /\ samples (addSample c s) = kept ++ [s].
Proof.
  rewrite addSample_samples. split.
  - rewrite ringAfter_length. unfold maxSamples. lia.
  - apply ringAfter_keeps_order.
Qed.

(** Every run keeps the ring within its capacity. *)
Lemma run_ring_bounded {N : Number} (es : list Submission) :
  (length (samples (run es)) <= maxSamples)%nat.
Proof.
  unfold run.
  assert (H : (length (samples (@init N)) <= maxSamples)%nat)
    by (cbn; unfold maxSamples; lia).
  revert H. generalize (@init N).
  induction es as [|e es IH]; intros c Hc; cbn [fold_left]; [exact Hc|].
  apply IH. destruct e; cbn [submit]; unfold handleResponse, updateQuickSample;
    rewrite addSample_samples, ringAfter_length; lia.
Qed.

End Ring.

(* ================================================================== *)
(** * Probes and quick samples *)
(* ================================================================== *)

Module Probes.
Import Clock ClockFacts Runs Scenarios.

(** C1, as stated, fails: the probe of [afterNegativeRtt] has round trip
    [-3 < 0], and yet its sample is appended and fused (offset and anchor
    change). *)
Lemma negative_rtt_probe_is_fused :
  s_rtt (probeSample (Some 10%float) negativeRttResponse 12000%float)
  = (-3)%float /\
  PrimFloat.ltb (-3) 0 = true /\
  @init IEEE = (mkClock 0 0 [] 0)%float /\
  afterNegativeRtt
  = (mkClock 9.1500000000000004 0 [mkSample 91.5 (-3) 12] 12)%float.
Proof. repeat split; vm_compute; reflexivity. Qed.

(** C1, amended.  Every probe is fused: with [t1] the stored send time (the
    echoed one when none is stored), [rtt = (t4 - t1) - (t3 - t2)] and
    [offset_meas = ((t2 - t1) + (t3 - t4)) / 2], the sample with exactly these
    values and time stamp [t4] is appended (whatever the sign or size of
    [rtt]) and fused by [addSample]. *)
Theorem probe_always_fused {N : Number} (c : ClockSync) (lastSyncT1 : option num)
    (response : ClockSyncResponse) (dateNow : num) :
  let t1 := probeT1 lastSyncT1 response in
  let t4 := (dateNow / lit 1000)%num in
  let rtt := ((t4 - t1) - (r_t3 response - r_t2 response))%num in
  let offset_meas := (((r_t2 response - t1) + (r_t3 response - t4)) / lit 2)%num in
  let sample := {| s_offset := offset_meas; s_rtt := rtt; s_timestamp := t4 |} in
  handleResponse c lastSyncT1 response dateNow = addSample c sample /\
  (exists dropped kept,
     samples c = dropped ++ kept /\
     samples (handleResponse c lastSyncT1 response dateNow) = kept ++ [sample]) /\
  offset (handleResponse c lastSyncT1 response dateNow)
  = (offset c * (lit 1 - lit 0.1) + offset_meas * lit 0.1)%num /\
  lastSyncTime (handleResponse c lastSyncT1 response dateNow) = t4.
Proof.
  cbv zeta. unfold handleResponse, probeSample. repeat split.
  - rewrite addSample_samples. apply ringAfter_keeps_order.
  - apply addSample_offset.
Qed.

(** C10.  A quick sample goes through [addSample] exactly as a probe does: a
    probe has the effect of the quick sample carrying the probe's measured
    offset and round trip; the offset is fused with the same weight 0.1, the
    anchor moves to the sample's time stamp, and the sample is appended
    whatever its round trip.  A heartbeat with a (truthy) server time is such
    a quick sample. *)
Theorem quick_sample_same_path {N : Number} (c : ClockSync) (offset_est rtt_est : num)
    (dateNow : num) (lastSyncT1 : option num) (response : ClockSyncResponse)
    (clientTime serverTime dateNow1 dateNow2 : num) :
  let quick := {| s_offset := offset_est; s_rtt := rtt_est;
                  s_timestamp := (dateNow / lit 1000)%num |} in
  let probe := probeSample lastSyncT1 response dateNow in
  updateQuickSample c offset_est rtt_est dateNow = addSample c quick /\
  handleResponse c lastSyncT1 response dateNow
  = updateQuickSample c (s_offset probe) (s_rtt probe) dateNow /\
  offset (updateQuickSample c offset_est rtt_est dateNow)
  = (offset c * (lit 1 - lit 0.1) + offset_est * lit 0.1)%num /\
  lastSyncTime (updateQuickSample c offset_est rtt_est dateNow)
  = (dateNow / lit 1000)%num /\
  (exists dropped kept,
     samples c = dropped ++ kept /\
     samples (updateQuickSample c offset_est rtt_est dateNow) = kept ++ [quick]) /\
  Client.handleHeartbeat c (Client.mkHeartbeat clientTime (Some serverTime))
    dateNow1 dateNow2 dateNow
  = if truthy serverTime
    then let rtt := (dateNow1 / lit 1000 - clientTime)%num in
         updateQuickSample c (serverTime - dateNow2 / lit 1000 + rtt / lit 2)%num
           rtt dateNow
    else c.
Proof.
  cbv zeta. unfold updateQuickSample, handleResponse, probeSample.
  repeat split.
  - apply addSample_offset.
  - rewrite addSample_samples. apply ringAfter_keeps_order.
Qed.

(** After [reset()] a probe has the effect it has on a fresh instance. *)
Lemma reset_then_probe {N : Number} (c : ClockSync) (lastSyncT1 : option num)
    (response : ClockSyncResponse) (dateNow : num) :
  handleResponse (reset c) lastSyncT1 response dateNow
  = handleResponse init lastSyncT1 response dateNow.
Proof. reflexivity. Qed.

End Probes.

(* ================================================================== *)
(** * The last round trip and the quality table *)
(* ================================================================== *)

Module Quality.
Import Clock ClockFacts Runs Scenarios Client.

Lemma getLastRTT_last {N : Number} (o d a : num) (ss : list ClockSample)
    (s : ClockSample) :
  getLastRTT (mkClock o d (ss ++ [s]) a) = (s_rtt s * lit 1000)%num.
Proof.
  unfold getLastRTT. cbn [samples].
  rewrite length_app. cbn [length].
  destruct (Nat.eqb_spec (length ss + 1) 0) as [H|_]; [lia|].
  replace (length ss + 1 - 1)%nat with (length ss) by lia.
  rewrite nth_error_app2 by lia.
  replace (length ss - length ss)%nat with 0%nat by lia. reflexivity.
Qed.

(** C8, as stated, fails: after a sample whose round trip is 0.05 s the
    accessor returns 50, not 0.05. *)
Lemma last_rtt_of_50ms_is_50 :
  samples afterRtt50ms = [mkSample 0 0.05 1]%float /\
  getLastRTT afterRtt50ms = 50%float /\
  PrimFloat.eqb (getLastRTT afterRtt50ms) 0.05 = false.
Proof. repeat split; vm_compute; reflexivity. Qed.

(** C8, amended.  [getLastRTT] returns the round trip of the most recent
    sample converted to milliseconds (the stored seconds times 1000), and 0
    when the ring is empty. *)
Theorem last_rtt_in_milliseconds {N : Number} (o d a : num)
    (ss : list ClockSample) (s : ClockSample) :
  getLastRTT (mkClock o d (ss ++ [s]) a) = (s_rtt s * lit 1000)%num /\
  getLastRTT (mkClock o d [] a) = lit 0.
Proof. split; [apply getLastRTT_last | reflexivity]. Qed.

(** C7, as stated, fails: one raw round trip of 60 ms after one of 40 ms moves
    the reported quality from Good to Fair at once, while the moving average
    of the round trips (weight 0.1) is still far below the 50 ms boundary,
    whether it is started at 0 or at the first round trip. *)
Lemma quality_follows_raw_rtt :
  getNetworkQuality afterRtt40 = Good /\
  getNetworkQuality afterRtt40then60 = Fair /\
  (Spec.smoothedRTT [40; 60] < 50)%Q /\
  (Spec.smoothedFrom 40 [60] < 50)%Q /\
  Spec.qualityOf (Spec.smoothedFrom 40 [60])%Q = Good.
Proof. repeat split; vm_compute; reflexivity. Qed.

(** C7, amended.  The quality level is decided from the raw round trip of the
    most recent sample alone, in milliseconds, against the bounds 10, 50, 100
    and 200; nothing is smoothed and loss is not consulted.  With an empty
    ring the level is Excellent. *)
Theorem quality_from_last_raw_rtt {N : Number} (o d a : num)
    (ss : list ClockSample) (s : ClockSample) :
  let rtt := (s_rtt s * lit 1000)%num in
  getNetworkQuality (mkClock o d (ss ++ [s]) a)
  = (if (rtt <? lit 10)%num then Excellent
     else if (rtt <? lit 50)%num then Good
     else if (rtt <? lit 100)%num then Fair
     else if (rtt <? lit 200)%num then Poor
     else Critical) /\
  getNetworkQuality (@init IEEE) = Excellent /\
  getNetworkQuality (@init Exact) = Excellent.
Proof.
  cbv zeta. unfold getNetworkQuality. rewrite getLastRTT_last.
  repeat split.
Qed.

End Quality.

(* ================================================================== *)
(** * Facts about binary64 comparison and NaN *)
(* ================================================================== *)

Module FloatFacts.
Local Open Scope float_scope.

Lemma SFeqb_refl_not_nan (f : spec_float) : f <> S754_nan -> SFeqb f f = true.
Proof.
  destruct f as [s|s| |s m e]; intros H; try congruence; unfold SFeqb; cbn.
  - reflexivity.
  - destruct s; reflexivity.
  - destruct s; rewrite Z.compare_refl, Pos.compare_cont_refl; reflexivity.
Qed.

Lemma is_nan_spec (x : float) : is_nan x = true <-> Prim2SF x = S754_nan.
Proof.
  unfold is_nan. rewrite FloatAxioms.eqb_spec. split.
  - intros H. destruct (Prim2SF x) eqn:E; try reflexivity;
      rewrite SFeqb_refl_not_nan in H by discriminate; discriminate H.
  - intros ->. reflexivity.
Qed.

Lemma mul_nan_l (x y : float) : is_nan x = true -> is_nan (x * y) = true.
Proof. rewrite !is_nan_spec, FloatAxioms.mul_spec. intros ->. reflexivity. Qed.

Lemma mul_nan_r (x y : float) : is_nan y = true -> is_nan (x * y) = true.
Proof.
  rewrite !is_nan_spec, FloatAxioms.mul_spec. intros ->.
  unfold SF64mul. destruct (Prim2SF x); reflexivity.
Qed.

Lemma add_nan_l (x y : float) : is_nan x = true -> is_nan (x + y) = true.
Proof. rewrite !is_nan_spec, FloatAxioms.add_spec. intros ->. reflexivity. Qed.

Lemma add_nan_r (x y : float) : is_nan y = true -> is_nan (x + y) = true.
Proof.
  rewrite !is_nan_spec, FloatAxioms.add_spec. intros ->.
  unfold SF64add. destruct (Prim2SF x); reflexivity.
Qed.

(** A NaN compares false with everything. *)
Lemma ltb_nan_l (x y : float) : is_nan x = true -> (x <? y) = false.
Proof. rewrite is_nan_spec, FloatAxioms.ltb_spec. intros ->. reflexivity. Qed.

Lemma ltb_nan_r (x y : float) : is_nan y = true -> (x <? y) = false.
Proof.
  rewrite is_nan_spec, FloatAxioms.ltb_spec. intros ->.
  unfold SFltb. destruct (Prim2SF x); reflexivity.
Qed.

Lemma abs_nan (x : float) : is_nan x = true -> is_nan (abs x) = true.
Proof. rewrite !is_nan_spec, FloatAxioms.abs_spec. intros ->. reflexivity. Qed.

(** A zero (of either sign) is neither below 0 nor above 10. *)
Lemma zero_within_window (d : float) :
  (d =? 0) = true -> (d <? 0) = false /\ (10 <? d) = false.
Proof.
  rewrite FloatAxioms.eqb_spec, !FloatAxioms.ltb_spec.
  change (Prim2SF 0) with (S754_zero false).
  change (Prim2SF 10) with (S754_finite false 5629499534213120 (-49)).
  destruct (Prim2SF d) as [s|s| |s m e]; cbn; try discriminate; auto.
  - destruct s; discriminate.
  - destruct s; discriminate.
Qed.

Lemma above_ten_not_negative (d : float) : (10 <? d) = true -> (d <? 0) = false.
Proof.
  rewrite !FloatAxioms.ltb_spec.
  change (Prim2SF 0) with (S754_zero false).
  change (Prim2SF 10) with (S754_finite false 5629499534213120 (-49)).
  destruct (Prim2SF d) as [s|s| |s m e]; cbn; try discriminate; auto.
  - destruct s; [discriminate|reflexivity].
  - destruct s; [discriminate|reflexivity].
Qed.

(** The finite doubles are the zeros and the numbers with a mantissa. *)
Lemma is_finite_spec (x : float) :
  is_finite x = match Prim2SF x with
                | S754_zero _ | S754_finite _ _ _ => true
                | _ => false
                end.
Proof.
  unfold is_finite, is_infinity, is_nan.
  rewrite !FloatAxioms.eqb_spec, FloatAxioms.abs_spec.
  change (Prim2SF infinity) with (S754_infinity false).
  destruct (Prim2SF x) as [s|s| |s m e] eqn:E; try reflexivity.
  - destruct s; reflexivity.
  - rewrite SFeqb_refl_not_nan by discriminate. reflexivity.
Qed.

(** What [source.start] accepts, on the representation. *)
Lemma startAccepts_spec (x : float) :
  @Player.startAccepts IEEE x
  = match Prim2SF x with
    | S754_zero _ | S754_finite false _ _ => true
    | _ => false
    end.
Proof.
  unfold Player.startAccepts. cbn [nfinite nltb IEEE].
  change (@lit IEEE 0) with 0. rewrite is_finite_spec, FloatAxioms.ltb_spec.
  change (Prim2SF 0) with (S754_zero false).
  destruct (Prim2SF x) as [s|s| |s m e]; try reflexivity; destruct s; reflexivity.
Qed.

(** Adding a zero to a time [source.start] accepts gives such a time. *)
Lemma startAccepts_add_zero (c d : float) :
  (d =? 0) = true ->
  @Player.startAccepts IEEE c = true -> @Player.startAccepts IEEE (c + d) = true.
Proof.
  rewrite !startAccepts_spec, FloatAxioms.eqb_spec, FloatAxioms.add_spec.
  change (Prim2SF 0) with (S754_zero false).
  destruct (Prim2SF d) as [sd|sd| |sd md ed]; cbn; try discriminate;
    try (destruct sd; discriminate).
  intros _. destruct (Prim2SF c) as [s|s| |s m e]; try discriminate.
  - intros _. destruct s, sd; reflexivity.
  - destruct s; [discriminate|]. intros _. reflexivity.
Qed.

(** A NaN start time is refused. *)
Lemma startAccepts_nan (x : float) :
  is_nan x = true -> @Player.startAccepts IEEE x = false.
Proof. rewrite is_nan_spec, startAccepts_spec. intros ->. reflexivity. Qed.

End FloatFacts.

(* ================================================================== *)
(** * Binary64 addition, subtraction and multiplication are monotone *)
(* ================================================================== *)

Module Rounding.
Import Round.
Local Open Scope Z_scope.

(** ** Binary digits *)

Lemma digits2_pos_bounds (p : positive) :
  2 ^ (Zpos (digits2_pos p) - 1) <= Zpos p < 2 ^ Zpos (digits2_pos p).
Proof.
  induction p as [p IH|p IH|]; cbn [digits2_pos].
  - rewrite Pos2Z.inj_succ.
    replace (Z.succ (Zpos (digits2_pos p)) - 1) with (Z.succ (Zpos (digits2_pos p) - 1))
      by lia.
    rewrite !Z.pow_succ_r by lia. lia.
  - rewrite Pos2Z.inj_succ.
    replace (Z.succ (Zpos (digits2_pos p)) - 1) with (Z.succ (Zpos (digits2_pos p) - 1))
      by lia.
    rewrite !Z.pow_succ_r by lia. lia.
  - cbn. lia.
Qed.

Lemma Zdigits2_bounds (m : Z) :
  0 < m -> 0 < Zdigits2 m /\ 2 ^ (Zdigits2 m - 1) <= m < 2 ^ Zdigits2 m.
Proof.
  destruct m as [|p|p]; try lia. intros _. cbn [Zdigits2].
  split; [lia | apply digits2_pos_bounds].
Qed.

Lemma Zdigits2_unique (m d : Z) :
  2 ^ (d - 1) <= m < 2 ^ d -> 0 < d -> Zdigits2 m = d.
Proof.
  intros H Hd.
  assert (Hm : 0 < m) by (pose proof (Z.pow_pos_nonneg 2 (d - 1)); lia).
  destruct (Zdigits2_bounds m Hm) as [Hpos Hb].
  destruct (Z.lt_trichotomy (Zdigits2 m) d) as [L|[E|G]]; [|exact E|].
  - assert (2 ^ Zdigits2 m <= 2 ^ (d - 1)) by (apply Z.pow_le_mono_r; lia). lia.
  - assert (2 ^ d <= 2 ^ (Zdigits2 m - 1)) by (apply Z.pow_le_mono_r; lia). lia.
Qed.

Lemma Zdigits2_shift (m j : Z) :
  0 < m -> 0 <= j -> Zdigits2 (m * 2 ^ j) = Zdigits2 m + j.
Proof.
  intros Hm Hj. destruct (Zdigits2_bounds m Hm) as [Hpos Hb].
  apply Zdigits2_unique; [|lia].
  replace (Zdigits2 m + j - 1) with ((Zdigits2 m - 1) + j) by lia.
  rewrite !Z.pow_add_r by lia.
  pose proof (Z.pow_pos_nonneg 2 j). nia.
Qed.

Lemma Zdigits2_mono (m m' : Z) : 0 < m <= m' -> Zdigits2 m <= Zdigits2 m'.
Proof.
  intros H.
  destruct (Zdigits2_bounds m ltac:(lia)) as [Hpos Hb].
  destruct (Zdigits2_bounds m' ltac:(lia)) as [Hpos' Hb'].
  destruct (Z.le_gt_cases (Zdigits2 m) (Zdigits2 m')) as [L|G]; [exact L|].
  assert (2 ^ Zdigits2 m' <= 2 ^ (Zdigits2 m - 1)) by (apply Z.pow_le_mono_r; lia).
  lia.
Qed.

(** ** Shifting right with a round bit and a sticky bit *)

Lemma iter_pos_nat {A : Type} (f : A -> A) (p : positive) (x : A) :
  @SpecFloat.iter_pos A f p x = iterate f (Pos.to_nat p) x.
Proof.
  assert (Hadd : forall n k y, iterate f (n + k) y = iterate f n (iterate f k y)).
  { intros n k y. induction n as [|n IH]; [reflexivity|]. cbn. rewrite IH. reflexivity. }
  revert x. induction p as [p IH|p IH|]; intros x; cbn [SpecFloat.iter_pos].
  - rewrite !IH, Pos2Nat.inj_xI.
    replace (S (2 * Pos.to_nat p))%nat with (Pos.to_nat p + (Pos.to_nat p + 1))%nat by lia.
    rewrite !Hadd. reflexivity.
  - rewrite !IH, Pos2Nat.inj_xO.
    replace (2 * Pos.to_nat p)%nat with (Pos.to_nat p + Pos.to_nat p)%nat by lia.
    rewrite Hadd. reflexivity.
  - reflexivity.
Qed.

Lemma shr_1_spec (m : Z) (r s : bool) :
  0 <= m ->
  shr_1 {| shr_m := m; shr_r := r; shr_s := s |}
  = {| shr_m := m / 2; shr_r := Z.odd m; shr_s := r || s |}.
Proof.
  intros Hm. rewrite <- Z.div2_div.
  destruct m as [|[p|p|]|p]; try lia; reflexivity.
Qed.

Lemma shr_iter (n : nat) (m : Z) :
  0 <= m ->
  iterate shr_1 (S n) {| shr_m := m; shr_r := false; shr_s := false |}
  = {| shr_m := m / 2 ^ Z.of_nat (S n);
       shr_r := Z.odd (m / 2 ^ Z.of_nat n);
       shr_s := negb (m mod 2 ^ Z.of_nat n =? 0) |}.
Proof.
  intros Hm. induction n as [|n IH].
  - cbn [iterate]. rewrite shr_1_spec by exact Hm.
    change (2 ^ Z.of_nat 1) with 2. change (2 ^ Z.of_nat 0) with 1.
    rewrite Z.div_1_r, Z.mod_1_r. reflexivity.
  - change (iterate shr_1 (S (S n)) ?x) with (shr_1 (iterate shr_1 (S n) x)).
    rewrite IH.
    assert (Hp : 0 < 2 ^ Z.of_nat n) by (apply Z.pow_pos_nonneg; lia).
    assert (Hq : 0 <= m / 2 ^ Z.of_nat (S n)) by (apply Z.div_pos; [lia|apply Z.pow_pos_nonneg; lia]).
    rewrite shr_1_spec by exact Hq.
    f_equal.
    + rewrite Z.div_div by (try apply Z.pow_pos_nonneg; lia).
      f_equal. replace (Z.of_nat (S (S n))) with (Z.succ (Z.of_nat (S n))) by lia.
      rewrite Z.pow_succ_r by lia. lia.
    + replace (Z.of_nat (S n)) with (Z.succ (Z.of_nat n)) by lia.
      rewrite Z.pow_succ_r by lia.
      rewrite (Z.mul_comm 2), Z.rem_mul_r by lia.
      rewrite Zodd_mod.
      pose proof (Z.mod_pos_bound m (2 ^ Z.of_nat n) Hp) as Hr.
      pose proof (Z.mod_pos_bound (m / 2 ^ Z.of_nat n) 2 ltac:(lia)) as Hb.
      generalize dependent (m mod 2 ^ Z.of_nat n). intros R _ HR.
      generalize dependent ((m / 2 ^ Z.of_nat n) mod 2). intros B HB.
      repeat match goal with
             | |- context [Z.eqb ?a ?b] => destruct (Z.eqb_spec a b)
             end; cbn; try reflexivity; exfalso; nia.
Qed.

(** ** Rounding an integer quotient to nearest, ties to even *)

Lemma pow2_split (n : Z) : 0 < n -> 2 ^ n = 2 * 2 ^ (n - 1) /\ 0 < 2 ^ (n - 1).
Proof.
  intros Hn. split; [|apply Z.pow_pos_nonneg; lia].
  replace n with (Z.succ (n - 1)) at 1 by lia. apply Z.pow_succ_r. lia.
Qed.

(** What [shr] and [round_nearest_even] compute together. *)
Lemma shr_rne (m e n : Z) :
  0 <= m -> 0 < n ->
  exists mrs,
    shr {| shr_m := m; shr_r := false; shr_s := false |} e n = (mrs, e + n) /\
    round_nearest_even (shr_m mrs) (loc_of_shr_record mrs) = rne m n.
Proof.
  intros Hm Hn. destruct n as [|p|p]; try lia. cbn [shr].
  rewrite iter_pos_nat.
  destruct (Pos2Nat.is_succ p) as [k Hk]. rewrite Hk, shr_iter by exact Hm.
  eexists. split; [reflexivity|]. cbn [shr_m].
  assert (En : Z.of_nat (S k) = Zpos p) by lia.
  assert (Ek : Z.of_nat k = Zpos p - 1) by lia.
  rewrite En, Ek. unfold rne. cbv zeta.
  destruct (pow2_split (Zpos p) ltac:(lia)) as [HP HH].
  set (H := 2 ^ (Zpos p - 1)) in *. set (P := 2 ^ Zpos p) in *.
  assert (Hrem : m mod P = m mod H + H * ((m / H) mod 2)).
  { rewrite HP, (Z.mul_comm 2). apply Z.rem_mul_r; lia. }
  rewrite Hrem, Zodd_mod.
  pose proof (Z.mod_pos_bound m H HH) as Hr.
  pose proof (Z.mod_pos_bound (m / H) 2 ltac:(lia)) as Hb.
  clear Hrem. revert Hr Hb.
  generalize (m mod H) as R. generalize ((m / H) mod 2) as B.
  intros B R HR HB.
  unfold loc_of_shr_record, round_nearest_even.
  repeat match goal with
         | |- context [Z.eqb ?a ?b] => destruct (Z.eqb_spec a b)
         | |- context [Z.ltb ?a ?b] => destruct (Z.ltb_spec a b)
         end; cbn; try reflexivity; exfalso; nia.
Qed.

Section Rne.
Variable n : Z.
Hypothesis Hn : 0 < n.

Lemma rne_bounds (m : Z) : m / 2 ^ n <= rne m n <= m / 2 ^ n + 1.
Proof.
  unfold rne. cbv zeta.
  destruct (_ <? _); [lia|]. destruct (_ =? _); [|lia].
  destruct (Z.even _); lia.
Qed.

Lemma rne_exact (q : Z) : rne (q * 2 ^ n) n = q.
Proof.
  destruct (pow2_split n Hn) as [HP HH].
  unfold rne. cbv zeta. rewrite Z.mod_mul, Z.div_mul by lia.
  destruct (Z.ltb_spec 0 (2 ^ (n - 1))); [reflexivity | lia].
Qed.

Lemma rne_mono (m m' : Z) : m <= m' -> rne m n <= rne m' n.
Proof.
  intros Hle. destruct (pow2_split n Hn) as [HP HH].
  pose proof (Z.div_mod m (2 ^ n) ltac:(lia)) as Em.
  pose proof (Z.div_mod m' (2 ^ n) ltac:(lia)) as Em'.
  pose proof (Z.mod_pos_bound m (2 ^ n) ltac:(lia)) as Bm.
  pose proof (Z.mod_pos_bound m' (2 ^ n) ltac:(lia)) as Bm'.
  destruct (Z.eq_dec (m / 2 ^ n) (m' / 2 ^ n)) as [Eq|Ne].
  - unfold rne. cbv zeta. rewrite <- Eq.
    assert (Hr : m mod 2 ^ n <= m' mod 2 ^ n) by lia.
    repeat match goal with
           | |- context [Z.eqb ?a ?b] => destruct (Z.eqb_spec a b)
           | |- context [Z.ltb ?a ?b] => destruct (Z.ltb_spec a b)
           end; try destruct (Z.even _); lia.
  - assert (Hq : m / 2 ^ n < m' / 2 ^ n).
    { assert (m / 2 ^ n <= m' / 2 ^ n) by (apply Z.div_le_mono; lia). lia. }
    pose proof (rne_bounds m). pose proof (rne_bounds m'). lia.
Qed.

Lemma rne_shift (m j : Z) : 0 <= j -> rne (m * 2 ^ j) (n + j) = rne m n.
Proof.
  intros Hj. destruct (pow2_split n Hn) as [HP HH].
  assert (Hp : 0 < 2 ^ j) by (apply Z.pow_pos_nonneg; lia).
  unfold rne. cbv zeta.
  replace (n + j - 1) with ((n - 1) + j) by lia.
  rewrite !Z.pow_add_r by lia.
  rewrite Z.div_mul_cancel_r, Z.mul_mod_distr_r by lia.
  set (R := m mod 2 ^ n). set (H := 2 ^ (n - 1)) in *.
  repeat match goal with
         | |- context [Z.eqb ?a ?b] => destruct (Z.eqb_spec a b)
         | |- context [Z.ltb ?a ?b] => destruct (Z.ltb_spec a b)
         end; try reflexivity; exfalso; nia.
Qed.

End Rne.

Lemma grne_mono (m m' n : Z) : m <= m' -> grne m n <= grne m' n.
Proof.
  intros H. unfold grne. destruct (Z.leb_spec n 0).
  - apply Z.mul_le_mono_nonneg_r; [apply Z.pow_nonneg; lia | exact H].
  - apply rne_mono; assumption.
Qed.

(** A multiple of [2^n] is its own rounding. *)
Lemma grne_exact (q n j : Z) : 0 <= j -> n <= j -> grne (q * 2 ^ j) n = q * 2 ^ (j - n).
Proof.
  intros Hj Hle. unfold grne. destruct (Z.leb_spec n 0).
  - rewrite <- Z.mul_assoc, <- Z.pow_add_r by lia.
    replace (j + - n) with (j - n) by lia. reflexivity.
  - replace j with ((j - n) + n) at 1 by lia.
    rewrite Z.pow_add_r, Z.mul_assoc by lia. apply rne_exact. lia.
Qed.

Lemma grne_shift (m n j : Z) : 0 <= j -> grne (m * 2 ^ j) (n + j) = grne m n.
Proof.
  intros Hj. unfold grne at 2. destruct (Z.leb_spec n 0).
  - rewrite grne_exact by lia.
    replace (j - (n + j)) with (- n) by lia. reflexivity.
  - unfold grne. destruct (Z.leb_spec (n + j) 0); [lia|]. apply rne_shift; lia.
Qed.

Lemma grne_nonneg (m n : Z) : 0 <= m -> 0 <= grne m n.
Proof.
  intros H. unfold grne. destruct (Z.leb_spec n 0).
  - apply Z.mul_nonneg_nonneg; [exact H | apply Z.pow_nonneg; lia].
  - assert (Hn : 0 < n) by assumption.
    pose proof (rne_bounds n m).
    assert (0 <= m / 2 ^ n) by (apply Z.div_pos; [exact H | apply Z.pow_pos_nonneg; lia]).
    lia.
Qed.

(** ** What [binary_round] computes *)

Lemma fexp_eq (x : Z) : fexp prec emax x = Z.max (x - 53) (-1074).
Proof. reflexivity. Qed.

Lemma rndR_shift (m e j : Z) :
  0 < m -> 0 <= j -> rndR (m * 2 ^ j) (e - j) = rndR m e.
Proof.
  intros Hm Hj. unfold rndR. cbv zeta.
  rewrite Zdigits2_shift by assumption.
  replace (Zdigits2 m + j + (e - j)) with (Zdigits2 m + e) by lia.
  set (k := fexp prec emax (Zdigits2 m + e)).
  replace (k - (e - j)) with ((k - e) + j) by lia.
  rewrite grne_shift by exact Hj. reflexivity.
Qed.

Lemma grne_le_pow (m e : Z) :
  0 < m -> grne m (fexp prec emax (Zdigits2 m + e) - e) <= 2 ^ 53.
Proof.
  intros Hm. destruct (Zdigits2_bounds m Hm) as [Hd Hb].
  rewrite fexp_eq.
  set (d := Zdigits2 m) in *.
  set (n := Z.max (d + e - 53) (-1074) - e).
  assert (Hn : d - 53 <= n) by (unfold n; lia).
  unfold grne. destruct (Z.leb_spec n 0) as [Hle|Hgt].
  - assert (m * 2 ^ (- n) < 2 ^ d * 2 ^ (- n)).
    { apply Z.mul_lt_mono_pos_r; [apply Z.pow_pos_nonneg; lia | lia]. }
    rewrite <- Z.pow_add_r in H by lia.
    assert (2 ^ (d + - n) <= 2 ^ 53) by (apply Z.pow_le_mono_r; lia). lia.
  - set (D := Z.max d n).
    assert (Hm' : m <= 2 ^ (D - n) * 2 ^ n).
    { rewrite <- Z.pow_add_r by lia. replace (D - n + n) with D by lia.
      assert (2 ^ d <= 2 ^ D) by (apply Z.pow_le_mono_r; lia). lia. }
    pose proof (rne_mono n Hgt _ _ Hm') as Hr. rewrite rne_exact in Hr by exact Hgt.
    assert (2 ^ (D - n) <= 2 ^ 53) by (apply Z.pow_le_mono_r; lia). lia.
Qed.

Lemma shr_nonpos (mrs : shr_record) (e n : Z) : n <= 0 -> shr mrs e n = (mrs, e).
Proof. intros H. destruct n; try reflexivity. lia. Qed.

(** The second shift of [binary_round_aux], after the rounding. *)
Lemma shr_fexp_carry (s : bool) (q k : Z) :
  0 <= q <= 2 ^ 53 -> -1074 <= k ->
  (let '(mrs, e) := shr_fexp prec emax q k loc_Exact in
   match shr_m mrs with
   | Z0 => S754_zero s
   | Zpos m => if e <=? emax - prec then S754_finite s m e else S754_infinity s
   | Zneg _ => S754_nan
   end) = pack s (carry q k).
Proof.
  intros Hq Hk. unfold shr_fexp, carry. cbn [shr_record_of_loc].
  destruct (Z.eqb_spec q (2 ^ 53)) as [E|N].
  - subst q. change (Zdigits2 (2 ^ 53)) with 54. rewrite fexp_eq.
    replace (Z.max (54 + k - 53) (-1074) - k) with 1 by lia.
    reflexivity.
  - destruct (Z.eq_dec q 0) as [Z|NZ].
    + subst q. cbn [Zdigits2]. rewrite shr_nonpos by (rewrite fexp_eq; lia).
      reflexivity.
    + destruct (Zdigits2_bounds q ltac:(lia)) as [Hd Hb].
      assert (Zdigits2 q <= 53).
      { destruct (Z.le_gt_cases (Zdigits2 q) 53) as [L|G]; [exact L|].
        assert (2 ^ 53 <= 2 ^ (Zdigits2 q - 1)) by (apply Z.pow_le_mono_r; lia). lia. }
      rewrite shr_nonpos by (rewrite fexp_eq; lia).
      unfold pack. cbn [fst snd shr_m]. reflexivity.
Qed.

Lemma binary_round_aux_spec (s : bool) (m e : Z) :
  0 < m -> e <= fexp prec emax (Zdigits2 m + e) ->
  binary_round_aux prec emax s m e loc_Exact = pack s (rndR m e).
Proof.
  intros Hm Hk. unfold binary_round_aux, rndR. cbv zeta.
  pose proof (grne_le_pow m e Hm) as Hle.
  pose proof (grne_nonneg m (fexp prec emax (Zdigits2 m + e) - e) ltac:(lia)) as Hge.
  assert (Hkmin : -1074 <= fexp prec emax (Zdigits2 m + e)) by (rewrite fexp_eq; lia).
  set (k := fexp prec emax (Zdigits2 m + e)) in *.
  unfold shr_fexp at 1. fold k. cbn [shr_record_of_loc].
  destruct (Z.eq_dec k e) as [E|N].
  - rewrite shr_nonpos by lia. cbn [shr_m loc_of_shr_record round_nearest_even].
    replace (grne m (k - e)) with m in *.
    2:{ unfold grne. replace (k - e) with 0 by lia. cbn. lia. }
    rewrite <- E. apply shr_fexp_carry; lia.
  - destruct (shr_rne m e (k - e) ltac:(lia) ltac:(lia)) as [mrs [Hs Hr]].
    rewrite Hs, Hr. replace (e + (k - e)) with k by lia.
    replace (grne m (k - e)) with (rne m (k - e)) in *.
    2:{ unfold grne. destruct (Z.leb_spec (k - e) 0); [lia | reflexivity]. }
    apply shr_fexp_carry; lia.
Qed.

Lemma iter_xO (p d : positive) : Zpos (Pos.iter xO p d) = Zpos p * 2 ^ Zpos d.
Proof.
  induction d as [|d IH] using Pos.peano_ind.
  - cbn. lia.
  - rewrite Pos.iter_succ, Pos2Z.inj_succ, Z.pow_succ_r by lia.
    rewrite Pos2Z.inj_xO, IH. lia.
Qed.

Lemma binary_round_spec (s : bool) (p : positive) (e : Z) :
  binary_round prec emax s p e = pack s (rndR (Zpos p) e).
Proof.
  unfold binary_round, shl_align.
  change (Zpos (digits2_pos p)) with (Zdigits2 (Zpos p)).
  set (k := fexp prec emax (Zdigits2 (Zpos p) + e)).
  destruct (k - e) as [|d|d] eqn:Hd.
  - apply binary_round_aux_spec; [lia | fold k; lia].
  - apply binary_round_aux_spec; [lia | fold k; lia].
  - rewrite iter_xO.
    assert (Hj : Zpos d = e - k) by lia.
    rewrite <- (rndR_shift (Zpos p) e (Zpos d)) by lia.
    replace (e - Zpos d) with k by lia.
    apply binary_round_aux_spec; [lia|].
    rewrite Zdigits2_shift by lia.
    replace (Zdigits2 (Zpos p) + Zpos d + k) with (Zdigits2 (Zpos p) + e) by lia.
    fold k. lia.
Qed.

(** ** Canonical results and their order *)

Lemma rndR_canonical (m e : Z) : 0 < m -> canonical (rndR m e).
Proof.
  intros Hm. unfold rndR. cbv zeta.
  pose proof (grne_le_pow m e Hm) as Hle.
  pose proof (grne_nonneg m (fexp prec emax (Zdigits2 m + e) - e) ltac:(lia)) as Hge.
  destruct (Zdigits2_bounds m Hm) as [Hd Hb].
  assert (Hlow : -1074 < fexp prec emax (Zdigits2 m + e) ->
                 2 ^ 52 <= grne m (fexp prec emax (Zdigits2 m + e) - e)).
  { rewrite fexp_eq. intros Hk.
    replace (Z.max (Zdigits2 m + e - 53) (-1074) - e) with (Zdigits2 m - 53) by lia.
    assert (Hp : 1 * 2 ^ (Zdigits2 m - 1) <= m) by lia.
    apply (grne_mono _ _ (Zdigits2 m - 53)) in Hp.
    rewrite grne_exact in Hp by lia.
    replace (Zdigits2 m - 1 - (Zdigits2 m - 53)) with 52 in Hp by lia. lia. }
  revert Hle Hge Hlow. rewrite fexp_eq.
  set (k := Z.max (Zdigits2 m + e - 53) (-1074)).
  generalize (grne m (k - e)) as q. intros q Hle Hge Hlow.
  unfold carry, canonical. destruct (Z.eqb_spec q (2 ^ 53)) as [E|N]; cbn [fst snd].
  - split; [lia|]. split; [lia|]. intros _.
    change (Zdigits2 (2 ^ 52)) with 53. rewrite fexp_eq. lia.
  - split; [lia|]. split; [lia|]. intros Hq.
    destruct (Zdigits2_bounds q Hq) as [Hdq Hbq].
    assert (Zdigits2 q <= 53).
    { destruct (Z.le_gt_cases (Zdigits2 q) 53) as [L|G]; [exact L|].
      assert (2 ^ 53 <= 2 ^ (Zdigits2 q - 1)) by (apply Z.pow_le_mono_r; lia). lia. }
    rewrite fexp_eq.
    destruct (Z.eq_dec k (-1074)) as [Ek|Nk]; [lia|].
    assert (Zdigits2 q = 53).
    { apply Zdigits2_unique; [|lia]. change (53 - 1) with 52. lia. }
    lia.
Qed.

Lemma oval_rndR (B m e : Z) :
  0 < m -> B <= -1074 ->
  oval B (rndR m e)
  = grne m (fexp prec emax (Zdigits2 m + e) - e)
    * 2 ^ (fexp prec emax (Zdigits2 m + e) - B).
Proof.
  intros Hm HB. unfold rndR, oval, carry. cbv zeta.
  assert (Hk : -1074 <= fexp prec emax (Zdigits2 m + e)) by (rewrite fexp_eq; lia).
  set (k := fexp prec emax (Zdigits2 m + e)) in *.
  destruct (Z.eqb_spec (grne m (k - e)) (2 ^ 53)) as [E|N]; cbn [fst snd]; [|reflexivity].
  rewrite E. replace (k + 1 - B) with (Z.succ (k - B)) by lia.
  rewrite Z.pow_succ_r by lia. change (2 ^ 53) with (2 ^ 52 * 2). lia.
Qed.

(** Rounding at a fixed exponent is monotone in the mantissa. *)
Lemma oval_rndR_mono (B m m' e : Z) :
  0 < m <= m' -> B <= -1074 -> B <= e ->
  oval B (rndR m e) <= oval B (rndR m' e).
Proof.
  intros Hm HB HBe. rewrite !oval_rndR by lia.
  pose proof (Zdigits2_mono m m' Hm) as Hdd.
  destruct (Zdigits2_bounds m ltac:(lia)) as [Hd Hb].
  destruct (Zdigits2_bounds m' ltac:(lia)) as [Hd' Hb'].
  rewrite !fexp_eq.
  set (d := Zdigits2 m) in *. set (d' := Zdigits2 m') in *.
  set (k := Z.max (d + e - 53) (-1074)). set (k' := Z.max (d' + e - 53) (-1074)).
  assert (Hkk : k <= k') by (unfold k, k'; lia).
  destruct (Z.eq_dec k k') as [E|N].
  - rewrite <- E. apply Z.mul_le_mono_nonneg_r; [apply Z.pow_nonneg; lia|].
    apply grne_mono. lia.
  - assert (Hk' : k' = d' + e - 53) by (unfold k, k' in *; lia).
    assert (Hdlt : d < d') by (unfold k, k' in *; lia).
    assert (HP : 2 ^ d <= 2 ^ (d' - 1)) by (apply Z.pow_le_mono_r; lia).
    apply Z.le_trans with (2 ^ (d' - 1 + e - B)).
    + assert (H1 : m <= 1 * 2 ^ (d' - 1)) by lia.
      apply (grne_mono _ _ (k - e)) in H1.
      rewrite grne_exact in H1 by lia.
      apply Z.le_trans with (1 * 2 ^ (d' - 1 - (k - e)) * 2 ^ (k - B)).
      * apply Z.mul_le_mono_nonneg_r; [apply Z.pow_nonneg; lia | exact H1].
      * rewrite Z.mul_1_l, <- Z.pow_add_r by lia.
        replace (d' - 1 - (k - e) + (k - B)) with (d' - 1 + e - B) by lia. lia.
    + assert (H2 : 1 * 2 ^ (d' - 1) <= m') by lia.
      apply (grne_mono _ _ (k' - e)) in H2.
      rewrite grne_exact in H2 by lia.
      apply Z.le_trans with (1 * 2 ^ (d' - 1 - (k' - e)) * 2 ^ (k' - B)).
      * rewrite Z.mul_1_l, <- Z.pow_add_r by lia.
        replace (d' - 1 - (k' - e) + (k' - B)) with (d' - 1 + e - B) by lia. lia.
      * apply Z.mul_le_mono_nonneg_r; [apply Z.pow_nonneg; lia | exact H2].
Qed.

(** Among canonical results the one with the larger exponent is larger. *)
Lemma canonical_exp_lt (B : Z) (o1 o2 : Z * Z) :
  canonical o1 -> canonical o2 -> 0 < fst o1 -> B <= -1074 ->
  snd o2 < snd o1 -> oval B o2 < oval B o1.
Proof.
  destruct o1 as [m1 e1], o2 as [m2 e2]. unfold canonical, oval. cbn [fst snd].
  intros [_ [He1 C1]] [Hm2 [He2 C2]] Hm1 HB Hlt.
  specialize (C1 Hm1). rewrite fexp_eq in C1.
  destruct (Zdigits2_bounds m1 Hm1) as [Hd1 Hb1].
  assert (E1 : Zdigits2 m1 = 53) by lia. rewrite E1 in Hb1. change (53 - 1) with 52 in Hb1.
  assert (H2 : m2 < 2 ^ 53).
  { destruct (Z.eq_dec m2 0) as [Z|NZ]; [subst; reflexivity|].
    specialize (C2 ltac:(lia)). rewrite fexp_eq in C2.
    destruct (Zdigits2_bounds m2 ltac:(lia)) as [Hd2 Hb2].
    assert (2 ^ Zdigits2 m2 <= 2 ^ 53) by (apply Z.pow_le_mono_r; lia). lia. }
  assert (Hp2 : 0 < 2 ^ (e2 - B)) by (apply Z.pow_pos_nonneg; lia).
  apply Z.lt_le_trans with (2 ^ 53 * 2 ^ (e2 - B)).
  - apply Z.mul_lt_mono_pos_r; assumption.
  - apply Z.le_trans with (2 ^ 52 * 2 ^ (e1 - B)).
    + rewrite <- !Z.pow_add_r by lia. apply Z.pow_le_mono_r; lia.
    + apply Z.mul_le_mono_nonneg_r; [apply Z.pow_nonneg; lia | lia].
Qed.

Lemma SFleb_pack (B : Z) (o1 o2 : Z * Z) :
  canonical o1 -> canonical o2 -> B <= -1074 ->
  oval B o1 <= oval B o2 ->
  SFleb (pack false o1) (pack false o2) = true.
Proof.
  intros C1 C2 HB Hle.
  destruct (Z.eq_dec (fst o1) 0) as [Z1|N1].
  { unfold pack. rewrite Z1. destruct C2 as [H2 _].
    destruct (fst o2) as [|p|p]; [reflexivity| |lia].
    destruct (_ <=? _); reflexivity. }
  assert (P1 : 0 < fst o1) by (destruct C1; lia).
  assert (He : snd o1 <= snd o2).
  { destruct (Z.le_gt_cases (snd o1) (snd o2)) as [L|G]; [exact L|].
    pose proof (canonical_exp_lt B o1 o2 C1 C2 P1 HB ltac:(lia)). lia. }
  assert (P2 : 0 < fst o2).
  { destruct C2 as [H2 [He2 _]]. destruct (Z.eq_dec (fst o2) 0) as [Z2|N2]; [|lia].
    unfold oval in Hle. rewrite Z2 in Hle.
    assert (0 < 2 ^ (snd o1 - B)) by (destruct C1 as [_ [? _]]; apply Z.pow_pos_nonneg; lia).
    nia. }
  unfold pack. destruct o1 as [m1 e1], o2 as [m2 e2]. cbn [fst snd] in *.
  destruct m1 as [|p1|p1]; try lia. destruct m2 as [|p2|p2]; try lia.
  destruct (Z.leb_spec e1 971), (Z.leb_spec e2 971); try reflexivity; try lia.
  unfold SFleb, SFcompare.
  destruct (Z.compare_spec e1 e2) as [E|L|G]; try reflexivity; try lia.
  subst e2. unfold oval in Hle. cbn [fst snd] in Hle.
  assert (0 < 2 ^ (e1 - B)) by (destruct C1 as [_ [? _]]; cbn in *; apply Z.pow_pos_nonneg; lia).
  assert (Hp : (p1 <= p2)%positive) by nia.
  change (Pos.compare_cont Eq p1 p2) with (Pos.compare p1 p2).
  destruct (Pos.compare_spec p1 p2); try reflexivity. lia.
Qed.

(** ** Rounding a signed integer *)

Lemma N_pos (E : Z) (p : positive) : N E (Zpos p) = pack false (rndR (Zpos p) E).
Proof. apply binary_round_spec. Qed.

Lemma N_neg (E : Z) (p : positive) : N E (Zneg p) = pack true (rndR (Zpos p) E).
Proof. apply binary_round_spec. Qed.

Lemma pack_true (o : Z * Z) : pack true o = SFopp (pack false o).
Proof.
  unfold pack. destruct (fst o); try reflexivity. destruct (_ <=? _); reflexivity.
Qed.

Lemma SFcompare_opp (a b : spec_float) :
  SFcompare (SFopp a) (SFopp b) = SFcompare b a.
Proof.
  destruct a as [s1|s1| |s1 m1 e1], b as [s2|s2| |s2 m2 e2]; try reflexivity;
    try (destruct s1; reflexivity); try (destruct s2; reflexivity);
    try (destruct s1, s2; reflexivity).
  cbn [SFopp SFcompare].
  destruct s1, s2; cbn [negb]; try reflexivity;
    rewrite (Z.compare_antisym e1 e2); destruct (e1 ?= e2); cbn [CompOpp];
    try reflexivity.
  - rewrite (Pos.compare_cont_antisym m2 m1 Eq). reflexivity.
  - rewrite (Pos.compare_cont_antisym m1 m2 Eq). reflexivity.
Qed.

Lemma SFleb_opp (a b : spec_float) : SFleb (SFopp a) (SFopp b) = SFleb b a.
Proof. unfold SFleb. rewrite SFcompare_opp. reflexivity. Qed.

(** A rounded positive number is not below zero. *)
Lemma pack_nonneg (o : Z * Z) (s : bool) :
  0 <= fst o -> SFleb (S754_zero s) (pack false o) = true.
Proof.
  intros H. unfold pack. destruct (fst o) as [|p|p]; [reflexivity| |lia].
  destruct (_ <=? _); reflexivity.
Qed.

Lemma pack_nonpos (o : Z * Z) (s : bool) :
  0 <= fst o -> SFleb (pack true o) (S754_zero s) = true.
Proof.
  intros H. unfold pack. destruct (fst o) as [|p|p]; [reflexivity| |lia].
  destruct (_ <=? _); reflexivity.
Qed.

Lemma pack_neg_pos (o1 o2 : Z * Z) :
  0 <= fst o1 -> 0 <= fst o2 -> SFleb (pack true o1) (pack false o2) = true.
Proof.
  intros H1 H2. unfold pack.
  destruct (fst o1) as [|p1|p1]; try lia; destruct (fst o2) as [|p2|p2]; try lia;
    repeat destruct (_ <=? _); reflexivity.
Qed.

(** Rounding is monotone. *)
Lemma N_mono (E M1 M2 : Z) : M1 <= M2 -> SFleb (N E M1) (N E M2) = true.
Proof.
  intros Hle.
  assert (Hc : forall p, canonical (rndR (Zpos p) E)) by (intros p; apply rndR_canonical; lia).
  assert (Hpos : forall p q, (Zpos p <= Zpos q) ->
            SFleb (pack false (rndR (Zpos p) E)) (pack false (rndR (Zpos q) E)) = true).
  { intros p q H. apply (SFleb_pack (Z.min E (-1074))); try apply Hc; [lia|].
    apply oval_rndR_mono; lia. }
  destruct M1 as [|p1|p1], M2 as [|p2|p2]; try lia; rewrite ?N_pos, ?N_neg.
  - reflexivity.
  - apply pack_nonneg. apply Hc.
  - apply Hpos, Hle.
  - apply pack_nonpos. apply Hc.
  - apply pack_neg_pos; apply Hc.
  - rewrite !pack_true, SFleb_opp. apply Hpos. lia.
Qed.

(** Rounding does not depend on the unit the integer is written in. *)
Lemma N_shift (E M j : Z) : 0 <= j -> N (E - j) (M * 2 ^ j) = N E M.
Proof.
  intros Hj. assert (Hp : 0 < 2 ^ j) by (apply Z.pow_pos_nonneg; lia).
  destruct M as [|p|p].
  - reflexivity.
  - destruct (Zpos p * 2 ^ j) as [|q|q] eqn:Eq; try lia.
    rewrite !N_pos, <- Eq. f_equal. apply rndR_shift; lia.
  - destruct (Zneg p * 2 ^ j) as [|q|q] eqn:Eq; try lia.
    rewrite !N_neg. f_equal.
    replace (Zpos q) with (Zpos p * 2 ^ j) by lia. apply rndR_shift; lia.
Qed.

(** A number of the format is its own rounding. *)
Lemma rndR_id (m : positive) (e : Z) :
  bounded prec emax m e = true -> rndR (Zpos m) e = (Zpos m, e).
Proof.
  unfold bounded, canonical_mantissa. intros H.
  apply andb_true_iff in H. destruct H as [Hc _].
  apply Z.eqb_eq in Hc. change (Zpos (digits2_pos m)) with (Zdigits2 (Zpos m)) in Hc.
  unfold rndR. cbv zeta. rewrite Hc. replace (e - e) with 0 by lia.
  unfold grne. cbn [Z.leb Z.compare Z.opp]. rewrite Z.pow_0_r, Z.mul_1_r.
  unfold carry. destruct (Z.eqb_spec (Zpos m) (2 ^ 53)) as [E|_]; [|reflexivity].
  exfalso. rewrite E in Hc. change (Zdigits2 (2 ^ 53)) with 54 in Hc.
  rewrite fexp_eq in Hc. lia.
Qed.

Lemma N_id (s : bool) (m : positive) (e : Z) :
  bounded prec emax m e = true ->
  N e (if s then Zneg m else Zpos m) = S754_finite s m e.
Proof.
  intros H. pose proof (rndR_id m e H) as R.
  unfold bounded in H. apply andb_true_iff in H. destruct H as [_ Hb].
  change (emax - prec) with 971 in Hb.
  destruct s; rewrite ?N_pos, ?N_neg, R; unfold pack; cbn [fst snd]; rewrite Hb;
    reflexivity.
Qed.

(** ** The operations on numbers of the format *)

Lemma bounded_canonical (m : positive) (e : Z) :
  bounded prec emax m e = true -> canonical (Zpos m, e) /\ -1074 <= e <= 971.
Proof.
  unfold bounded, canonical_mantissa. intros H.
  apply andb_true_iff in H. destruct H as [Hc Hb].
  apply Z.eqb_eq in Hc. apply Z.leb_le in Hb. change (emax - prec) with 971 in Hb.
  change (Zpos (digits2_pos m)) with (Zdigits2 (Zpos m)) in Hc.
  assert (-1074 <= e) by (rewrite fexp_eq in Hc; lia).
  split; [|lia]. unfold canonical. cbn [fst snd]. repeat split; lia.
Qed.

Lemma N_IV (s : bool) (m : positive) (e : Z) :
  bounded prec emax m e = true ->
  N (-1074) (IV (S754_finite s m e)) = S754_finite s m e.
Proof.
  intros H. destruct (bounded_canonical m e H) as [_ He].
  cbn [IV]. replace (-1074) with (e - (e + 1074)) by lia.
  rewrite N_shift by lia. rewrite <- (N_id s m e H). destruct s; reflexivity.
Qed.

Lemma same_compare (a b : spec_float) :
  same a b ->
  forall w, SFcompare a w = SFcompare b w /\ SFcompare w a = SFcompare w b.
Proof.
  intros [->|[s [s' [-> ->]]]] w; [split; reflexivity|].
  destruct w as [t|t| |t m e]; split; reflexivity.
Qed.

Lemma same_leb (a a' b b' : spec_float) :
  same a a' -> same b b' -> SFleb a b = SFleb a' b'.
Proof.
  intros Ha Hb. unfold SFleb.
  rewrite (proj1 (same_compare a a' Ha b)), (proj2 (same_compare b b' Hb a')).
  reflexivity.
Qed.

Lemma shl_align_fst (mx : positive) (ex ez : Z) :
  ez <= ex -> Zpos (fst (shl_align mx ex ez)) = Zpos mx * 2 ^ (ex - ez).
Proof.
  intros H. unfold shl_align. destruct (ez - ex) as [|d|d] eqn:E; try lia.
  - replace (ex - ez) with 0 by lia. cbn [fst]. lia.
  - cbn [fst]. rewrite iter_xO. f_equal. f_equal. lia.
Qed.

Lemma cond_Zopp_mul (s : bool) (a b : Z) : cond_Zopp s a * b = cond_Zopp s (a * b).
Proof. destruct s; cbn; lia. Qed.

Lemma aligned (s : bool) (m : positive) (e ez : Z) :
  -1074 <= ez <= e ->
  cond_Zopp s (Zpos (fst (shl_align m e ez))) * 2 ^ (ez + 1074)
  = IV (S754_finite s m e).
Proof.
  intros H. rewrite shl_align_fst by lia. cbn [IV].
  rewrite !cond_Zopp_mul. f_equal.
  rewrite <- Z.mul_assoc, <- Z.pow_add_r by lia. f_equal. f_equal. lia.
Qed.

Section Valid.
Variables x y : spec_float.
Hypothesis Vx : valid_binary x = true.
Hypothesis Vy : valid_binary y = true.
Hypothesis Fx : finite_or_zero x = true.
Hypothesis Fy : finite_or_zero y = true.

(** The sum of two finite numbers is the rounding of their exact sum. *)
Lemma SFadd_N : same (SFadd prec emax x y) (N (-1074) (IV x + IV y)).
Proof.
  destruct x as [sx|sx| |sx mx ex], y as [sy|sy| |sy my ey]; try discriminate.
  - right. cbn [SFadd]. destruct sx, sy; do 2 eexists; split; reflexivity.
  - left. cbn [SFadd]. rewrite Z.add_0_l, N_IV by exact Vy. reflexivity.
  - left. cbn [SFadd]. rewrite Z.add_0_r, N_IV by exact Vx. reflexivity.
  - left. cbn [SFadd]. cbn [valid_binary] in Vx, Vy.
    destruct (bounded_canonical mx ex Vx) as [_ Hx].
    destruct (bounded_canonical my ey Vy) as [_ Hy].
    set (ez := Z.min ex ey).
    change (binary_normalize prec emax ?M ez false) with (N ez M).
    rewrite <- (N_shift ez _ (ez + 1074)) by lia.
    replace (ez - (ez + 1074)) with (-1074) by lia. f_equal.
    rewrite Z.mul_add_distr_r, !aligned by lia. reflexivity.
Qed.

Lemma SFsub_N : same (SFsub prec emax x y) (N (-1074) (IV x - IV y)).
Proof.
  destruct x as [sx|sx| |sx mx ex], y as [sy|sy| |sy my ey]; try discriminate.
  - right. cbn [SFsub]. destruct sx, sy; do 2 eexists; split; reflexivity.
  - left. cbn [SFsub]. cbn [valid_binary] in Vy.
    rewrite <- (N_IV (negb sy) my ey Vy). f_equal. cbn [IV].
    destruct sy; cbn; lia.
  - left. cbn [SFsub]. rewrite Z.sub_0_r, N_IV by exact Vx. reflexivity.
  - left. cbn [SFsub]. cbn [valid_binary] in Vx, Vy.
    destruct (bounded_canonical mx ex Vx) as [_ Hx].
    destruct (bounded_canonical my ey Vy) as [_ Hy].
    set (ez := Z.min ex ey).
    change (binary_normalize prec emax ?M ez false) with (N ez M).
    rewrite <- (N_shift ez _ (ez + 1074)) by lia.
    replace (ez - (ez + 1074)) with (-1074) by lia. f_equal.
    rewrite Z.mul_sub_distr_r, !aligned by lia. reflexivity.
Qed.

Lemma digits_mul (a b : positive) :
  Zdigits2 (Zpos a) + Zdigits2 (Zpos b) - 1 <= Zdigits2 (Zpos (a * b)).
Proof.
  destruct (Zdigits2_bounds (Zpos a) ltac:(lia)) as [Ha Ba].
  destruct (Zdigits2_bounds (Zpos b) ltac:(lia)) as [Hb Bb].
  destruct (Zdigits2_bounds (Zpos (a * b)) ltac:(lia)) as [Hc Bc].
  set (da := Zdigits2 (Zpos a)) in *. set (db := Zdigits2 (Zpos b)) in *.
  set (dc := Zdigits2 (Zpos (a * b))) in *.
  destruct (Z.le_gt_cases (da + db - 1) dc) as [L|G]; [exact L|].
  assert (H1 : 2 ^ dc <= 2 ^ (da - 1 + (db - 1))) by (apply Z.pow_le_mono_r; lia).
  rewrite Z.pow_add_r in H1 by lia.
  rewrite Pos2Z.inj_mul in Bc.
  assert (2 ^ (da - 1) * 2 ^ (db - 1) <= Zpos a * Zpos b) by (apply Z.mul_le_mono_nonneg; lia).
  lia.
Qed.

(** The product of two finite numbers is the rounding of their exact
    product. *)
Lemma SFmul_N : same (SFmul prec emax x y) (N (-2148) (IV x * IV y)).
Proof.
  destruct x as [sx|sx| |sx mx ex], y as [sy|sy| |sy my ey]; try discriminate.
  - right. cbn [SFmul IV]. do 2 eexists; split; reflexivity.
  - right. cbn [SFmul IV]. do 2 eexists; split; reflexivity.
  - right. cbn [SFmul IV]. rewrite Z.mul_0_r. do 2 eexists; split; reflexivity.
  - left. cbn [SFmul]. cbn [valid_binary] in Vx, Vy.
    destruct (bounded_canonical mx ex Vx) as [[_ [_ Cx]] Hx].
    destruct (bounded_canonical my ey Vy) as [[_ [_ Cy]] Hy].
    cbn [fst snd] in Cx, Cy. specialize (Cx ltac:(lia)). specialize (Cy ltac:(lia)).
    pose proof (digits_mul mx my) as Hd.
    destruct (Zdigits2_bounds (Zpos mx) ltac:(lia)) as [Hdx _].
    destruct (Zdigits2_bounds (Zpos my) ltac:(lia)) as [Hdy _].
    rewrite binary_round_aux_spec; [|lia|].
    2:{ rewrite fexp_eq in *. lia. }
    replace (pack (xorb sx sy) (rndR (Zpos (mx * my)) (ex + ey)))
      with (N (ex + ey) (cond_Zopp (xorb sx sy) (Zpos (mx * my)))).
    2:{ destruct (xorb sx sy); [apply N_neg | apply N_pos]. }
    rewrite <- (N_shift (ex + ey) _ (ex + ey + 2148)) by lia.
    replace (ex + ey - (ex + ey + 2148)) with (-2148) by lia. f_equal.
    cbn [IV]. rewrite !cond_Zopp_mul.
    replace (ex + ey + 2148) with ((ex + 1074) + (ey + 1074)) by lia.
    rewrite Z.pow_add_r by lia. rewrite Pos2Z.inj_mul.
    destruct sx, sy; cbn [xorb cond_Zopp]; lia.
Qed.

(** The order of the format is the order of the values. *)
Lemma SFleb_IV : SFleb x y = true -> IV x <= IV y.
Proof.
  destruct x as [sx|sx| |sx mx ex], y as [sy|sy| |sy my ey]; try discriminate.
  - cbn [IV]. destruct sy; [discriminate|]. intros _.
    assert (0 < 2 ^ (ey + 1074)).
    { cbn [valid_binary] in Vy. destruct (bounded_canonical my ey Vy) as [_ Hy].
      apply Z.pow_pos_nonneg; lia. }
    cbn [cond_Zopp]. lia.
  - cbn [IV]. destruct sx; [|discriminate]. intros _.
    assert (0 < 2 ^ (ex + 1074)).
    { cbn [valid_binary] in Vx. destruct (bounded_canonical mx ex Vx) as [_ Hx].
      apply Z.pow_pos_nonneg; lia. }
    cbn [cond_Zopp]. lia.
  - cbn [valid_binary] in Vx, Vy.
    destruct (bounded_canonical mx ex Vx) as [Cx Hx].
    destruct (bounded_canonical my ey Vy) as [Cy Hy].
    assert (Px : 0 < 2 ^ (ex + 1074)) by (apply Z.pow_pos_nonneg; lia).
    assert (Py : 0 < 2 ^ (ey + 1074)) by (apply Z.pow_pos_nonneg; lia).
    pose proof (canonical_exp_lt (-1074) (Zpos mx, ex) (Zpos my, ey) Cx Cy) as Lxy.
    pose proof (canonical_exp_lt (-1074) (Zpos my, ey) (Zpos mx, ex) Cy Cx) as Lyx.
    unfold oval in Lxy, Lyx. cbn [fst snd] in Lxy, Lyx.
    replace (ex - -1074) with (ex + 1074) in * by lia.
    replace (ey - -1074) with (ey + 1074) in * by lia.
    unfold SFleb, SFcompare. cbn [IV].
    destruct sx, sy; cbn [cond_Zopp]; try discriminate.
    + destruct (Z.compare_spec ex ey) as [E|L|G]; try discriminate.
      * subst ey. change (Pos.compare_cont Eq mx my) with (Pos.compare mx my).
        destruct (Pos.compare_spec mx my); cbn; try discriminate; intros _; nia.
      * intros _. specialize (Lxy ltac:(lia) ltac:(lia) ltac:(lia)). lia.
    + intros _. nia.
    + destruct (Z.compare_spec ex ey) as [E|L|G]; try discriminate.
      * subst ey. change (Pos.compare_cont Eq mx my) with (Pos.compare mx my).
        destruct (Pos.compare_spec mx my); cbn; try discriminate; intros _; nia.
      * intros _. specialize (Lyx ltac:(lia) ltac:(lia) ltac:(lia)). lia.
Qed.

End Valid.

(** ** Monotonicity of the operations *)

Lemma spec_cases (x : spec_float) :
  x = S754_nan \/ x = S754_infinity false \/ x = S754_infinity true \/
  finite_or_zero x = true.
Proof. destruct x as [s|[|]| |s m e]; auto. Qed.

Lemma leb_pinf (r : spec_float) : r <> S754_nan -> SFleb r (S754_infinity false) = true.
Proof. destruct r as [s|[|]| |s m e]; try reflexivity. congruence. Qed.

Lemma leb_ninf (r : spec_float) : r <> S754_nan -> SFleb (S754_infinity true) r = true.
Proof. destruct r as [s|[|]| |s m e]; try reflexivity. congruence. Qed.

Lemma leb_from_pinf (a : spec_float) :
  SFleb (S754_infinity false) a = true -> a = S754_infinity false.
Proof. destruct a as [s|[|]| |s m e]; try discriminate. reflexivity. Qed.

Lemma leb_to_ninf (a : spec_float) :
  SFleb a (S754_infinity true) = true -> a = S754_infinity true.
Proof. destruct a as [s|[|]| |[|] m e]; try discriminate. reflexivity. Qed.

Lemma SFleb_refl (r : spec_float) : r <> S754_nan -> SFleb r r = true.
Proof.
  intros H. unfold SFleb.
  destruct r as [s|[|]| |s m e]; try reflexivity; [congruence|].
  cbn. destruct s; rewrite Z.compare_refl, Pos.compare_cont_refl; reflexivity.
Qed.

Lemma N_not_nan (E M : Z) : N E M <> S754_nan.
Proof.
  destruct M as [|p|p]; rewrite ?N_pos, ?N_neg; [discriminate| |].
  - pose proof (rndR_canonical (Zpos p) E ltac:(lia)) as [H _].
    unfold pack. destruct (fst _); try lia; try discriminate.
    destruct (_ <=? _); discriminate.
  - pose proof (rndR_canonical (Zpos p) E ltac:(lia)) as [H _].
    unfold pack. destruct (fst _); try lia; try discriminate.
    destruct (_ <=? _); discriminate.
Qed.

Section Add.
Variables a1 a2 b1 b2 : spec_float.
Hypothesis Va1 : valid_binary a1 = true.
Hypothesis Va2 : valid_binary a2 = true.
Hypothesis Vb1 : valid_binary b1 = true.
Hypothesis Vb2 : valid_binary b2 = true.
Hypothesis Ha : SFleb a1 a2 = true.
Hypothesis Hb : SFleb b1 b2 = true.

Lemma SFadd_mono_finite :
  finite_or_zero a1 = true -> finite_or_zero a2 = true ->
  finite_or_zero b1 = true -> finite_or_zero b2 = true ->
  SFleb (SFadd prec emax a1 b1) (SFadd prec emax a2 b2) = true.
Proof.
  intros F1 F2 G1 G2.
  rewrite (same_leb _ _ _ _ (SFadd_N a1 b1 Va1 Vb1 F1 G1) (SFadd_N a2 b2 Va2 Vb2 F2 G2)).
  apply N_mono.
  pose proof (SFleb_IV a1 a2 Va1 Va2 F1 F2 Ha).
  pose proof (SFleb_IV b1 b2 Vb1 Vb2 G1 G2 Hb). lia.
Qed.

(** Addition is monotone in both arguments, wherever it is defined. *)
Lemma SFadd_mono :
  SFadd prec emax a1 b1 <> S754_nan -> SFadd prec emax a2 b2 <> S754_nan ->
  SFleb (SFadd prec emax a1 b1) (SFadd prec emax a2 b2) = true.
Proof.
  intros N1 N2.
  assert (Pinf : a2 = S754_infinity false \/ b2 = S754_infinity false ->
                 SFadd prec emax a2 b2 = S754_infinity false).
  { clear - N2. intros [E|E]; rewrite E in *.
    - destruct b2 as [t|[|]| |t n f]; try reflexivity; cbn in N2; congruence.
    - destruct a2 as [s|[|]| |s m e]; try reflexivity; cbn in N2; congruence. }
  assert (Ninf : a1 = S754_infinity true \/ b1 = S754_infinity true ->
                 SFadd prec emax a1 b1 = S754_infinity true).
  { clear - N1. intros [E|E]; rewrite E in *.
    - destruct b1 as [t|[|]| |t n f]; try reflexivity; cbn in N1; congruence.
    - destruct a1 as [s|[|]| |s m e]; try reflexivity; cbn in N1; congruence. }
  assert (Nan1 : a1 <> S754_nan /\ b1 <> S754_nan).
  { clear - N1. split; intros ->; apply N1; [reflexivity|]. destruct a1; reflexivity. }
  assert (Nan2 : a2 <> S754_nan /\ b2 <> S754_nan).
  { clear - N2. split; intros ->; apply N2; [reflexivity|]. destruct a2; reflexivity. }
  destruct (spec_cases a2) as [E|[E|[E|F2]]].
  - destruct Nan2; congruence.
  - rewrite (Pinf (or_introl E)). apply leb_pinf, N1.
  - rewrite E in Ha. apply leb_to_ninf in Ha.
    rewrite (Ninf (or_introl Ha)). apply leb_ninf, N2.
  - destruct (spec_cases b2) as [E|[E|[E|G2]]].
    + destruct Nan2; congruence.
    + rewrite (Pinf (or_intror E)). apply leb_pinf, N1.
    + rewrite E in Hb. apply leb_to_ninf in Hb.
      rewrite (Ninf (or_intror Hb)). apply leb_ninf, N2.
    + destruct (spec_cases a1) as [E|[E|[E|F1]]].
      * destruct Nan1; congruence.
      * rewrite E in Ha. apply leb_from_pinf in Ha. rewrite Ha in F2. discriminate.
      * rewrite (Ninf (or_introl E)). apply leb_ninf, N2.
      * destruct (spec_cases b1) as [E|[E|[E|G1]]].
        -- destruct Nan1; congruence.
        -- rewrite E in Hb. apply leb_from_pinf in Hb. rewrite Hb in G2. discriminate.
        -- rewrite (Ninf (or_intror E)). apply leb_ninf, N2.
        -- apply SFadd_mono_finite; assumption.
Qed.

End Add.

Section Sub.
Variables a1 a2 c : spec_float.
Hypothesis Va1 : valid_binary a1 = true.
Hypothesis Va2 : valid_binary a2 = true.
Hypothesis Vc : valid_binary c = true.
Hypothesis Ha : SFleb a1 a2 = true.

(** Subtracting a fixed number is monotone, wherever it is defined. *)
Lemma SFsub_mono :
  SFsub prec emax a1 c <> S754_nan -> SFsub prec emax a2 c <> S754_nan ->
  SFleb (SFsub prec emax a1 c) (SFsub prec emax a2 c) = true.
Proof.
  intros N1 N2.
  destruct (spec_cases c) as [E|[E|[E|Fc]]].
  - exfalso. apply N1. rewrite E. destruct a1; reflexivity.
  - subst c.
    assert (E1 : SFsub prec emax a1 (S754_infinity false) = S754_infinity true)
      by (clear - N1; destruct a1 as [s|[|]| |s m e]; try reflexivity; cbn in N1; congruence).
    assert (E2 : SFsub prec emax a2 (S754_infinity false) = S754_infinity true)
      by (clear - N2; destruct a2 as [s|[|]| |s m e]; try reflexivity; cbn in N2; congruence).
    rewrite E1, E2. reflexivity.
  - subst c.
    assert (E1 : SFsub prec emax a1 (S754_infinity true) = S754_infinity false)
      by (clear - N1; destruct a1 as [s|[|]| |s m e]; try reflexivity; cbn in N1; congruence).
    assert (E2 : SFsub prec emax a2 (S754_infinity true) = S754_infinity false)
      by (clear - N2; destruct a2 as [s|[|]| |s m e]; try reflexivity; cbn in N2; congruence).
    rewrite E1, E2. reflexivity.
  - assert (Pinf : a2 = S754_infinity false ->
                   SFsub prec emax a2 c = S754_infinity false).
    { clear - Fc. intros ->. destruct c as [s|[|]| |s m e]; try discriminate; reflexivity. }
    assert (Ninf : a1 = S754_infinity true ->
                   SFsub prec emax a1 c = S754_infinity true).
    { clear - Fc. intros ->. destruct c as [s|[|]| |s m e]; try discriminate; reflexivity. }
    destruct (spec_cases a2) as [E|[E|[E|F2]]].
    + exfalso. apply N2. rewrite E. reflexivity.
    + rewrite (Pinf E). apply leb_pinf, N1.
    + rewrite E in Ha. apply leb_to_ninf in Ha. rewrite (Ninf Ha). apply leb_ninf, N2.
    + destruct (spec_cases a1) as [E|[E|[E|F1]]].
      * exfalso. apply N1. rewrite E. reflexivity.
      * rewrite E in Ha. apply leb_from_pinf in Ha. rewrite Ha in F2. discriminate.
      * rewrite (Ninf E). apply leb_ninf, N2.
      * rewrite (same_leb _ _ _ _ (SFsub_N a1 c Va1 Vc F1 Fc) (SFsub_N a2 c Va2 Vc F2 Fc)).
        apply N_mono. pose proof (SFleb_IV a1 a2 Va1 Va2 F1 F2 Ha). lia.
Qed.

End Sub.

Section Mul.
Variables d u1 u2 : spec_float.
Hypothesis Vd : valid_binary d = true.
Hypothesis Vu1 : valid_binary u1 = true.
Hypothesis Vu2 : valid_binary u2 = true.
Hypothesis Hd : SFleb (S754_zero false) d = true.
Hypothesis Hu : SFleb u1 u2 = true.

(** Multiplying by a fixed number that is not negative is monotone, wherever
    it is defined. *)
Lemma SFmul_mono :
  SFmul prec emax d u1 <> S754_nan -> SFmul prec emax d u2 <> S754_nan ->
  SFleb (SFmul prec emax d u1) (SFmul prec emax d u2) = true.
Proof.
  intros N1 N2.
  destruct (spec_cases d) as [E|[E|[E|Fd]]].
  - rewrite E in Hd. discriminate.
  - subst d. clear Vd Hd.
    destruct u1 as [s|[|]| |[|] m e]; try (exfalso; apply N1; reflexivity);
      destruct u2 as [t|[|]| |[|] n f]; try (exfalso; apply N2; reflexivity);
      try reflexivity; discriminate.
  - rewrite E in Hd. discriminate.
  - assert (Pinf : u2 = S754_infinity false ->
                   SFmul prec emax d u2 = S754_infinity false).
    { clear - Fd Hd N2. intros ->.
      destruct d as [s|[|]| |[|] m e]; try discriminate; try reflexivity.
      exfalso. apply N2. reflexivity. }
    assert (Ninf : u1 = S754_infinity true ->
                   SFmul prec emax d u1 = S754_infinity true).
    { clear - Fd Hd N1. intros ->.
      destruct d as [s|[|]| |[|] m e]; try discriminate; try reflexivity.
      exfalso. apply N1. reflexivity. }
    destruct (spec_cases u2) as [E|[E|[E|F2]]].
    + exfalso. apply N2. rewrite E. destruct d; reflexivity.
    + rewrite (Pinf E). apply leb_pinf, N1.
    + rewrite E in Hu. apply leb_to_ninf in Hu. rewrite (Ninf Hu). apply leb_ninf, N2.
    + destruct (spec_cases u1) as [E|[E|[E|F1]]].
      * exfalso. apply N1. rewrite E. destruct d; reflexivity.
      * rewrite E in Hu. apply leb_from_pinf in Hu. rewrite Hu in F2. discriminate.
      * rewrite (Ninf E). apply leb_ninf, N2.
      * rewrite (same_leb _ _ _ _ (SFmul_N d u1 Vd Vu1 Fd F1) (SFmul_N d u2 Vd Vu2 Fd F2)).
        apply N_mono.
        pose proof (SFleb_IV u1 u2 Vu1 Vu2 F1 F2 Hu).
        pose proof (SFleb_IV (S754_zero false) d eq_refl Vd eq_refl Fd Hd) as H0.
        cbn [IV] in H0. nia.
Qed.

End Mul.

(** ** The primitive operations *)

Lemma not_nan (x : float) : PrimFloat.is_nan x = false -> Prim2SF x <> S754_nan.
Proof.
  intros H E. apply FloatFacts.is_nan_spec in E. congruence.
Qed.

Lemma add_defined (x y : float) :
  PrimFloat.is_nan (PrimFloat.add x y) = false ->
  PrimFloat.is_nan x = false /\ PrimFloat.is_nan y = false.
Proof.
  intros H. split.
  - destruct (PrimFloat.is_nan x) eqn:E; [|reflexivity].
    rewrite (FloatFacts.add_nan_l x y E) in H. discriminate.
  - destruct (PrimFloat.is_nan y) eqn:E; [|reflexivity].
    rewrite (FloatFacts.add_nan_r x y E) in H. discriminate.
Qed.

Lemma mul_defined (x y : float) :
  PrimFloat.is_nan (PrimFloat.mul x y) = false ->
  PrimFloat.is_nan x = false /\ PrimFloat.is_nan y = false.
Proof.
  intros H. split.
  - destruct (PrimFloat.is_nan x) eqn:E; [|reflexivity].
    rewrite (FloatFacts.mul_nan_l x y E) in H. discriminate.
  - destruct (PrimFloat.is_nan y) eqn:E; [|reflexivity].
    rewrite (FloatFacts.mul_nan_r x y E) in H. discriminate.
Qed.

Lemma leb_refl (x : float) : PrimFloat.is_nan x = false -> PrimFloat.leb x x = true.
Proof.
  intros H. rewrite FloatAxioms.leb_spec. apply SFleb_refl, not_nan, H.
Qed.

(** Binary64 addition is monotone in both arguments. *)
Lemma add_mono (x1 x2 y1 y2 : float) :
  PrimFloat.leb x1 x2 = true -> PrimFloat.leb y1 y2 = true ->
  PrimFloat.is_nan (PrimFloat.add x1 y1) = false ->
  PrimFloat.is_nan (PrimFloat.add x2 y2) = false ->
  PrimFloat.leb (PrimFloat.add x1 y1) (PrimFloat.add x2 y2) = true.
Proof.
  rewrite !FloatAxioms.leb_spec. intros Hx Hy N1 N2.
  apply not_nan in N1, N2. rewrite FloatAxioms.add_spec in N1, N2.
  rewrite !FloatAxioms.add_spec.
  apply SFadd_mono; try apply FloatAxioms.Prim2SF_valid; assumption.
Qed.

(** Binary64 subtraction of a fixed number is monotone. *)
Lemma sub_mono (x1 x2 c : float) :
  PrimFloat.leb x1 x2 = true ->
  PrimFloat.is_nan (PrimFloat.sub x1 c) = false ->
  PrimFloat.is_nan (PrimFloat.sub x2 c) = false ->
  PrimFloat.leb (PrimFloat.sub x1 c) (PrimFloat.sub x2 c) = true.
Proof.
  rewrite !FloatAxioms.leb_spec. intros Hx N1 N2.
  apply not_nan in N1, N2. rewrite FloatAxioms.sub_spec in N1, N2.
  rewrite !FloatAxioms.sub_spec.
  apply SFsub_mono; try apply FloatAxioms.Prim2SF_valid; assumption.
Qed.

(** Binary64 multiplication by a fixed number that is not negative is
    monotone. *)
Lemma mul_mono (d u1 u2 : float) :
  PrimFloat.leb 0 d = true -> PrimFloat.leb u1 u2 = true ->
  PrimFloat.is_nan (PrimFloat.mul d u1) = false ->
  PrimFloat.is_nan (PrimFloat.mul d u2) = false ->
  PrimFloat.leb (PrimFloat.mul d u1) (PrimFloat.mul d u2) = true.
Proof.
  rewrite !FloatAxioms.leb_spec. intros Hd Hu N1 N2.
  apply not_nan in N1, N2. rewrite FloatAxioms.mul_spec in N1, N2.
  rewrite !FloatAxioms.mul_spec.
  apply SFmul_mono; try apply FloatAxioms.Prim2SF_valid; assumption.
Qed.

End Rounding.

(* ================================================================== *)
(** * Offset fusion *)
(* ================================================================== *)

Module Fusion.
Import Clock ClockFacts Runs Scenarios.

(** In error-free arithmetic one step moves the offset a tenth of the way to
    the measurement. *)
Lemma exact_offset_step (c : @ClockSync Exact) (s : @ClockSample Exact) :
  (offset (addSample c s) - offset c == 0.1 * (s_offset s - offset c))%Q.
Proof.
  rewrite addSample_offset. unfold filterWeight. cbn. ring.
Qed.

(** C3.  Every sample updates the offset by the moving average
    [offset * (1 - 0.1) + offset_meas * 0.1]; in error-free arithmetic the
    offset therefore moves by at most (indeed exactly) 0.1 times its distance
    to the measurement. *)
Theorem offset_moving_average :
  (forall (N : Number) (c : @ClockSync N) (s : @ClockSample N),
     filterWeight = lit 0.1 /\
     offset (addSample c s)
     = (offset c * (lit 1 - lit 0.1) + s_offset s * lit 0.1)%num) /\
  (forall (c : @ClockSync Exact) (s : @ClockSample Exact),
     (Qabs (offset (addSample c s) - offset c)
      <= 0.1 * Qabs (s_offset s - offset c))%Q).
Proof.
  split.
  - intros N c s. split; [reflexivity | apply addSample_offset].
  - intros c s. rewrite exact_offset_step, Qabs_Qmult.
    change (Qabs 0.1) with 0.1%Q. apply Qle_refl.
Qed.

End Fusion.

(* ================================================================== *)
(** * Monotonicity of [now()] *)
(* ================================================================== *)

Module Monotone.
Import Clock ClockFacts Runs Scenarios FloatFacts.

(** In error-free arithmetic two readings of [now()] under one state differ
    by [(1 + drift)] times the elapsed local time. *)
Lemma exact_now_difference (c : @ClockSync Exact) (d1 d2 : Q) :
  (now c d2 - now c d1 == (1 + drift c) * (d2 / 1000 - d1 / 1000))%Q.
Proof. unfold now. cbn. ring. Qed.

Lemma Qdiv_1000 (x : Q) : (x / 1000 = x * (1 # 1000))%Q.
Proof. reflexivity. Qed.

(** C5, as stated, fails.  Three quick samples whose offsets fall by 2 s per
    second give a reachable state with drift -2, and under that state the
    later reading 4000 ms yields an earlier [now()] than the reading 3000 ms,
    in binary64 and in error-free arithmetic alike.  And in binary64 a drift
    above -1 does not help: after three quick samples whose offsets fall by
    0.9999 s per second the drift is -0.99990018, and the reading
    1700000002009 ms yields an earlier [now()] than the reading
    1700000002008 ms, the rounding of the two sums being larger than the
    0.1 microseconds the exact value gains. *)
Lemma steep_clock_runs_backwards :
  reachable steep /\
  drift steep = (-2)%float /\
  PrimFloat.ltb 3000 4000 = true /\
  now steep 3000%float = 0.41999999999999993%float /\
  now steep 4000%float = (-0.58000000000000007)%float /\
  PrimFloat.ltb (now steep 4000%float) (now steep 3000%float) = true /\
  reachable steepExact /\
  (drift steepExact == -2)%Q /\
  (now steepExact 4000 < now steepExact 3000)%Q /\
  reachable slipping /\
  drift slipping = (-0.9999001820882162)%float /\
  PrimFloat.leb (-1) (drift slipping) = true /\
  PrimFloat.ltb 1700000002008 1700000002009 = true /\
  now slipping 1700000002008%float = 2160700001.71003%float /\
  now slipping 1700000002009%float = 2160700001.7100296%float /\
  PrimFloat.ltb (now slipping 1700000002009%float)
    (now slipping 1700000002008%float) = true.
Proof.
  split; [exists steepSubmissions; reflexivity|].
  do 5 (split; [vm_compute; reflexivity|]).
  split; [eexists; reflexivity|].
  do 2 (split; [vm_compute; reflexivity|]).
  split; [exists slippingSubmissions; reflexivity|].
  repeat split; vm_compute; reflexivity.
Qed.

(** Below -1 the order is reversed, so the bound is the exact one. *)
Lemma now_decreasing_when_drift_below_minus_one
    (c : @ClockSync Exact) (d1 d2 : Q) :
  (drift c < -1)%Q -> (d1 < d2)%Q -> (now c d2 < now c d1)%Q.
Proof.
  intros Hd Hlt.
  assert (H : (0 < (- (1 + drift c)) * (d2 / 1000 - d1 / 1000))%Q).
  { rewrite !Qdiv_1000. apply Qmult_lt_0_compat; lra. }
  pose proof (exact_now_difference c d1 d2) as E. lra.
Qed.

(** In binary64, with a drift that is not negative, every operation of
    [now()] is monotone in the local time, roundings included. *)
Lemma binary64_now_monotone (c : @ClockSync IEEE) (d1 d2 : float) :
  PrimFloat.leb 0 (drift c) = true ->
  PrimFloat.leb (d1 / 1000)%float (d2 / 1000)%float = true ->
  PrimFloat.is_nan (now c d1) = false -> PrimFloat.is_nan (now c d2) = false ->
  PrimFloat.leb (now c d1) (now c d2) = true.
Proof.
  unfold now. cbv zeta. cbn [nadd nsub nmul ndiv IEEE].
  change (@lit IEEE 1000) with 1000%float.
  set (t1 := (d1 / 1000)%float). set (t2 := (d2 / 1000)%float).
  intros Hd Ht N1 N2.
  destruct (Rounding.add_defined _ _ N1) as [A1 B1].
  destruct (Rounding.add_defined _ _ N2) as [A2 B2].
  destruct (Rounding.add_defined _ _ A1) as [_ Ho].
  destruct (Rounding.mul_defined _ _ B1) as [_ U1].
  destruct (Rounding.mul_defined _ _ B2) as [_ U2].
  apply Rounding.add_mono; try assumption.
  - apply Rounding.add_mono; try assumption. apply Rounding.leb_refl, Ho.
  - apply Rounding.mul_mono; try assumption.
    apply Rounding.sub_mono; assumption.
Qed.

(** C5, amended.  In the arithmetic the program runs on (any arithmetic)
    [now()] is [t_local + offset + drift * (t_local - t_anchor)] with
    [t_local = Date.now() / 1000].  With offset, drift and anchor fixed:
    in binary64 it is monotone non-decreasing in [t_local] whenever the drift
    is not negative (and the two readings are numbers); in error-free
    arithmetic it is monotone non-decreasing whenever [drift >= -1], and
    strictly decreasing when [drift < -1].  The regression does not bound the
    drift. *)
Theorem now_monotone_when_drift_at_least_minus_one :
  (forall (N : Number) (c : @ClockSync N) (dateNow : num),
     now c dateNow
     = (dateNow / lit 1000 + offset c
        + drift c * (dateNow / lit 1000 - lastSyncTime c))%num) /\
  (forall (c : @ClockSync IEEE) (d1 d2 : float),
     PrimFloat.leb 0 (drift c) = true ->
     PrimFloat.leb (d1 / 1000)%float (d2 / 1000)%float = true ->
     PrimFloat.is_nan (now c d1) = false -> PrimFloat.is_nan (now c d2) = false ->
     PrimFloat.leb (now c d1) (now c d2) = true) /\
  (forall (c : @ClockSync Exact) (d1 d2 : Q),
     (-1 <= drift c)%Q -> (d1 <= d2)%Q -> (now c d1 <= now c d2)%Q) /\
  (forall (c : @ClockSync Exact) (d1 d2 : Q),
     (drift c < -1)%Q -> (d1 < d2)%Q -> (now c d2 < now c d1)%Q).
Proof.
  split; [reflexivity|]. split; [exact binary64_now_monotone|]. split.
  - intros c d1 d2 Hd Hle.
    assert (H : (0 <= (1 + drift c) * (d2 / 1000 - d1 / 1000))%Q).
    { rewrite !Qdiv_1000. apply Qmult_le_0_compat; lra. }
    rewrite <- exact_now_difference in H. lra.
  - exact now_decreasing_when_drift_below_minus_one.
Qed.

(** A state with drift -1/2 in error-free arithmetic, and one with drift 1 in
    binary64, each read at 3 s and at 4 s of local time. *)
Lemma now_monotone_witness :
  ((-1 <= drift gentle)%Q /\ (3000 <= 4000)%Q) /\
  (drift gentle == -0.5)%Q /\
  (now gentle 3000 <= now gentle 4000)%Q /\
  (PrimFloat.leb 0 (drift risingFloat) = true /\
   PrimFloat.leb (3000 / 1000)%float (4000 / 1000)%float = true /\
   PrimFloat.is_nan (now risingFloat 3000%float) = false /\
   PrimFloat.is_nan (now risingFloat 4000%float) = false) /\
  PrimFloat.leb (now risingFloat 3000%float) (now risingFloat 4000%float) = true.
Proof.
  assert (Hd : (-1 <= drift gentle)%Q) by (vm_compute; discriminate).
  assert (Ht : (3000 <= 4000)%Q) by discriminate.
  assert (F1 : PrimFloat.leb 0 (drift risingFloat) = true) by reflexivity.
  assert (F2 : PrimFloat.leb (3000 / 1000)%float (4000 / 1000)%float = true)
    by reflexivity.
  assert (F3 : PrimFloat.is_nan (now risingFloat 3000%float) = false) by reflexivity.
  assert (F4 : PrimFloat.is_nan (now risingFloat 4000%float) = false) by reflexivity.
  split; [split; assumption|]. split; [vm_compute; reflexivity|].
  split.
  - exact (proj1 (proj2 (proj2 now_monotone_when_drift_at_least_minus_one))
             gentle 3000%Q 4000%Q Hd Ht).
  - split; [repeat split; assumption|].
    exact (proj1 (proj2 now_monotone_when_drift_at_least_minus_one)
             risingFloat 3000%float 4000%float F1 F2 F3 F4).
Defined.

End Monotone.

(* ================================================================== *)
(** * Non-finite measurements *)
(* ================================================================== *)

Module NonFinite.
Import Clock ClockFacts Runs Scenarios FloatFacts.

(** C6, as stated, fails: a quick sample whose offset is NaN is appended to
    the empty ring of a fresh clock and turns the offset into NaN; a probe
    with infinite server time stamps is appended and makes the offset
    infinite. *)
Lemma non_finite_samples_change_state :
  PrimFloat.is_nan (offset (@init IEEE)) = false /\
  samples (@init IEEE) = [] /\
  PrimFloat.is_nan (offset afterNaNQuick) = true /\
  length (samples afterNaNQuick) = 1%nat /\
  afterInfiniteProbe
  = (mkClock infinity 0 [mkSample infinity nan 12] 12)%float.
Proof. repeat split; vm_compute; reflexivity. Qed.

(** C6, amended.  The clock makes no finiteness check: a sample whose
    measured offset is NaN is appended to the ring and fused like any other,
    the anchor moves to its time stamp and the offset becomes NaN; and once
    the offset is NaN every later sample leaves it NaN. *)
Theorem nan_offset_is_fused (c : @ClockSync IEEE) (s : @ClockSample IEEE) :
  PrimFloat.is_nan (s_offset s) = true \/ PrimFloat.is_nan (offset c) = true ->
  PrimFloat.is_nan (offset (addSample c s)) = true /\
  (exists dropped kept,
     samples c = dropped ++ kept /\ samples (addSample c s) = kept ++ [s]) /\
  lastSyncTime (addSample c s) = s_timestamp s.
Proof.
  intros H. split; [|split].
  - rewrite addSample_offset. cbn [nadd nmul IEEE].
    destruct H as [H|H].
    + apply add_nan_r, mul_nan_l, H.
    + apply add_nan_l, mul_nan_l, H.
  - rewrite addSample_samples. apply ringAfter_keeps_order.
  - reflexivity.
Qed.

(** Only the drift is guarded: a NaN regression denominator fails the test
    [Math.abs(denom) > 0.0001] and the drift keeps its value. *)
Lemma nan_denominator_keeps_drift (c : @ClockSync IEEE) (s : @ClockSample IEEE) :
  let ring := samples (addSample c s) in
  let n := Nat.min 10 (length ring) in
  let recent := slice_last n ring in
  (3 <= length ring)%nat ->
  PrimFloat.is_nan
    (regressionDenom n (regressionSums (windowStart recent) recent)) = true ->
  drift (addSample c s) = drift c.
Proof.
  cbv zeta. intros H3 Hnan.
  rewrite (Drift.addSample_drift_enough c s H3).
  cbn [nltb nabs IEEE].
  rewrite ltb_nan_r by (apply abs_nan, Hnan). reflexivity.
Qed.

Lemma nan_offset_is_fused_witness :
  (PrimFloat.is_nan nan = true \/ PrimFloat.is_nan (offset (@init IEEE)) = true) /\
  PrimFloat.is_nan
    (offset (addSample (@init IEEE) (mkSample nan 0 0)%float)) = true.
Proof.
  split; [left; reflexivity|].
  apply (nan_offset_is_fused (@init IEEE) (mkSample nan 0 0)%float).
  left. reflexivity.
Defined.

End NonFinite.

(* ================================================================== *)
(** * Frame admission *)
(* ================================================================== *)

Module Admission.
Import Clock Scenarios FloatFacts.

Lemma lit_0 : @lit IEEE 0 = 0%float.
Proof. reflexivity. Qed.

Lemma lit_10 : @lit IEEE 10 = 10%float.
Proof. reflexivity. Qed.

Lemma lit_1000 : @lit IEEE 1000 = 1000%float.
Proof. reflexivity. Qed.

Section WithDecoder.
Variables ArrayBuffer AudioBuffer : Type.
Variable decodeAudioData : ArrayBuffer -> option AudioBuffer.

Abbreviation scheduleFrame :=
  (@Player.scheduleFrame IEEE ArrayBuffer AudioBuffer decodeAudioData).
Abbreviation initContext := (@Player.initContext IEEE AudioBuffer).

Lemma initContext_sources (p : @Player.FutureAudioPlayer IEEE AudioBuffer) :
  Player.scheduledSources (initContext p) = Player.scheduledSources p.
Proof. unfold Player.initContext. destruct (Player.audioContext p); reflexivity. Qed.

(** C2.  With [delta = frame.timestamp - now()] as computed at admission:
    if [delta < 0] the frame is dropped as late, if [delta > 10] it is dropped
    as too far ahead, and in both cases no source is started and the table of
    scheduled sources is left as it was; if [delta = 0] the frame is not
    dropped, and once decoded its source is started at [currentTime + delta]
    and registered under the frame's sequence number ([currentTime] being a
    time the audio context reports: finite and not negative). *)
Theorem frame_admission (p : @Player.FutureAudioPlayer IEEE AudioBuffer)
    (clockSync : @ClockSync IEEE) (frame : @Player.MediaFrame IEEE ArrayBuffer)
    (dateNow currentTime : float) :
  let delta := PrimFloat.sub (Player.f_timestamp frame) (now clockSync dateNow) in
  let result := scheduleFrame p clockSync frame dateNow currentTime in
  (PrimFloat.ltb delta 0 = true ->
     result = (initContext p,
               Player.DroppedLate (- delta * 1000)%float) /\
     Player.reachesRenderer (snd result) = false /\
     Player.scheduledSources (fst result) = Player.scheduledSources p) /\
  (PrimFloat.ltb 10 delta = true ->
     result = (initContext p,
               Player.DroppedTooFar (delta * 1000)%float) /\
     Player.reachesRenderer (snd result) = false /\
     Player.scheduledSources (fst result) = Player.scheduledSources p) /\
  (PrimFloat.eqb delta 0 = true ->
     Player.dropped (snd result) = false /\
     forall audioBuffer, decodeAudioData (Player.f_data frame) = Some audioBuffer ->
       Player.startAccepts currentTime = true ->
       let source := Player.mkSource audioBuffer (currentTime + delta)%float in
       snd result = Player.Started source /\
       Player.scheduledSources (fst result)
       = <[Player.f_sequence frame := source]> (Player.scheduledSources p)).
Proof.
  cbv zeta. unfold Player.scheduleFrame. cbv zeta.
  rewrite lit_0, lit_10, lit_1000. cbn [nltb nsub nmul nadd nopp IEEE].
  set (delta := PrimFloat.sub _ _).
  split; [|split].
  - intros H. rewrite H. cbn [fst snd Player.reachesRenderer].
    auto using initContext_sources.
  - intros H. rewrite (above_ten_not_negative _ H), H.
    cbn [fst snd Player.reachesRenderer]. auto using initContext_sources.
  - intros H. destruct (zero_within_window _ H) as [H0 H10].
    rewrite H0, H10. split.
    + destruct (decodeAudioData _); [|reflexivity].
      destruct (Player.startAccepts _); reflexivity.
    + intros audioBuffer -> Hc.
      pose proof (startAccepts_add_zero _ _ H Hc) as Hs.
      match goal with
      | |- context [if ?b then _ else _] =>
          replace b with true by (symmetry; exact Hs)
      end.
      cbn [fst snd Player.scheduledSources].
      rewrite initContext_sources. split; reflexivity.
Qed.

End WithDecoder.

(** The three cases at work, on a fresh clock read at 10 s: a frame for 9.8 s
    is late by (nearly) 200 ms, a frame for 21 s is 11 s ahead, a frame for
    exactly 10 s is started with no delay. *)
Lemma frame_admission_witness :
  (snd (scheduleAt 9.8) = Player.DroppedLate 199.99999999999929%float /\
   Player.reachesRenderer (snd (scheduleAt 9.8)) = false) /\
  (snd (scheduleAt 21) = Player.DroppedTooFar 11000%float /\
   Player.reachesRenderer (snd (scheduleAt 21)) = false) /\
  snd (scheduleAt 10) = Player.Started (Player.mkSource tt 5%float).
Proof.
  split; [|split].
  - destruct (frame_admission unit unit decodeAlways idlePlayer init
                (frameAt 9.8) 10000%float 5%float) as [H _].
    destruct (H eq_refl) as [E [R _]]. split; [|exact R].
    unfold scheduleAt. rewrite E. reflexivity.
  - destruct (frame_admission unit unit decodeAlways idlePlayer init
                (frameAt 21) 10000%float 5%float) as [_ [H _]].
    destruct (H eq_refl) as [E [R _]]. split; [|exact R].
    unfold scheduleAt. rewrite E. reflexivity.
  - destruct (frame_admission unit unit decodeAlways idlePlayer init
                (frameAt 10) 10000%float 5%float) as [_ [_ H]].
    destruct (H eq_refl) as [_ S]. destruct (S tt eq_refl eq_refl) as [E _].
    exact E.
Defined.

End Admission.

(* ================================================================== *)
(** * The drift is the least-squares slope *)
(* ================================================================== *)

Module Regression.
Import Clock ClockFacts Runs Scenarios Drift.
Local Open Scope Q_scope.

Lemma sse_snoc (pts : list (Q * Q)) (t y a b : Q) :
  Spec.sse (pts ++ [(t, y)]) a b
  == Spec.sse pts a b + (y - (a + b * t)) * (y - (a + b * t)).
Proof.
  induction pts as [|[t' y'] pts IH]; cbn [Spec.sse app].
  - ring.
  - rewrite IH. ring.
Qed.

Lemma count_snoc (l : list (@ClockSample Exact)) (s : @ClockSample Exact) :
  Spec.count (l ++ [s]) == Spec.count l + 1.
Proof.
  unfold Spec.count. rewrite length_app, Nat2Z.inj_add, inject_Z_plus.
  reflexivity.
Qed.

Lemma Qsquare_nonneg (w : Q) : 0 <= w * w.
Proof.
  destruct (Qlt_le_dec w 0) as [H|H].
  - assert (E : w * w == (- w) * (- w)) by ring.
    rewrite E. apply Qmult_le_0_compat; lra.
  - apply Qmult_le_0_compat; assumption.
Qed.

(** The squared error of one line minus that of another, through the sums
    the loop accumulates ([A], [A'] are the intercepts at [t0]). *)
Lemma sse_difference (t0 : Q) (l : list (@ClockSample Exact)) (a b a' b' : Q) :
  let S := @regressionSums Exact t0 l in
  let A := a + b * t0 in
  let A' := a' + b' * t0 in
  Spec.sse (Spec.points l) a' b' - Spec.sse (Spec.points l) a b
  == Spec.count l * (A' * A' - A * A) + 2 * (A' * b' - A * b) * sumX S
     + (b' * b' - b * b) * sumXX S
     - 2 * (A' - A) * sumY S - 2 * (b' - b) * sumXY S.
Proof.
  cbv zeta. induction l as [|s l IH] using rev_ind.
  - change (Spec.count []) with 0. unfold regressionSums.
    cbn [Spec.points map Spec.sse fold_left sumX sumY sumXY sumXX lit Exact].
    ring.
  - rewrite regressionSums_snoc. unfold Spec.points in *. rewrite map_app.
    cbn [map]. rewrite !sse_snoc, count_snoc.
    cbn [regressionStep sumX sumY sumXY sumXX nadd nsub nmul Exact].
    lra.
Qed.

Lemma quadratic_nonneg (t0 : Q) (l : list (@ClockSample Exact)) (u v : Q) :
  let S := @regressionSums Exact t0 l in
  0 <= Spec.count l * (u * u) + 2 * (u * v) * sumX S + (v * v) * sumXX S.
Proof.
  cbv zeta. induction l as [|s l IH] using rev_ind.
  - change (Spec.count []) with 0. unfold regressionSums.
    cbn [fold_left sumX sumXX lit Exact]. lra.
  - rewrite regressionSums_snoc, count_snoc.
    cbn [regressionStep sumX sumY sumXY sumXX nadd nsub nmul Exact].
    pose proof (Qsquare_nonneg (u + v * (s_timestamp s - t0))) as Hsq.
    lra.
Qed.

(** The squared error of any line exceeds that of the fitted line by a
    quadratic form in the differences of intercept and slope: the fitted line
    satisfies the normal equations. *)
Lemma fitted_line_gap (t0 : Q) (l : list (@ClockSample Exact)) (a' b' : Q) :
  let S := @regressionSums Exact t0 l in
  let n := length l in
  let b := @regressionSlope Exact n S in
  let A := Spec.fittedIntercept n S in
  ~ @regressionDenom Exact n S == 0 ->
  (0 < n)%nat ->
  Spec.sse (Spec.points l) a' b' - Spec.sse (Spec.points l) (A - b * t0) b
  == Spec.count l * ((a' + b' * t0 - A) * (a' + b' * t0 - A))
     + 2 * ((a' + b' * t0 - A) * (b' - b)) * sumX S
     + ((b' - b) * (b' - b)) * sumXX S.
Proof.
  cbv zeta. intros HD Hn.
  set (S := @regressionSums Exact t0 l) in *.
  assert (Hc : ~ Spec.count l == 0).
  { unfold Spec.count, Qeq. cbn [Qnum Qden inject_Z]. lia. }
  set (b := @regressionSlope Exact (length l) S).
  set (A := Spec.fittedIntercept (length l) S).
  assert (N1 : Spec.count l * A + b * sumX S == sumY S).
  { unfold A, Spec.fittedIntercept. fold b.
    change (@of_nat Exact (length l)) with (Spec.count l).
    field. exact Hc. }
  assert (N2 : A * sumX S + b * sumXX S == sumXY S).
  { unfold A, Spec.fittedIntercept, b, regressionSlope. unfold regressionDenom in *.
    change (@of_nat Exact (length l)) with (Spec.count l) in *.
    cbn [nmul nsub ndiv Exact] in *. field. split; assumption. }
  clearbody A b.
  pose proof (sse_difference t0 l (A - b * t0) b a' b') as E. cbv zeta in E.
  fold S in E.
  assert (K : Spec.count l * ((a' + b' * t0) * (a' + b' * t0)
                         - (A - b * t0 + b * t0) * (A - b * t0 + b * t0))
              + 2 * ((a' + b' * t0) * b' - (A - b * t0 + b * t0) * b) * sumX S
              + (b' * b' - b * b) * sumXX S
              - 2 * (a' + b' * t0 - (A - b * t0 + b * t0)) * sumY S
              - 2 * (b' - b) * sumXY S
              == Spec.count l * ((a' + b' * t0 - A) * (a' + b' * t0 - A))
                 + 2 * ((a' + b' * t0 - A) * (b' - b)) * sumX S
                 + (b' - b) * (b' - b) * sumXX S
                 + 2 * (a' + b' * t0 - A) * (Spec.count l * A + b * sumX S - sumY S)
                 + 2 * (b' - b) * (A * sumX S + b * sumXX S - sumXY S)).
  { ring. }
  rewrite N1, N2 in K. lra.
Qed.

(** The slope the code computes minimises the squared error. *)
Lemma fitted_line_is_optimal (t0 : Q) (l : list (@ClockSample Exact)) :
  let S := @regressionSums Exact t0 l in
  let n := length l in
  ~ @regressionDenom Exact n S == 0 ->
  (0 < n)%nat ->
  Spec.is_ols_slope (Spec.points l) (@regressionSlope Exact n S).
Proof.
  cbv zeta. intros HD Hn.
  exists (Spec.fittedIntercept (length l) (regressionSums t0 l)
          - regressionSlope (length l) (regressionSums t0 l) * t0).
  intros a' b'.
  pose proof (fitted_line_gap t0 l a' b' HD Hn) as E. cbv zeta in E.
  pose proof (quadratic_nonneg t0 l
                (a' + b' * t0 - Spec.fittedIntercept (length l) (regressionSums t0 l))
                (b' - regressionSlope (length l) (regressionSums t0 l))) as Q.
  cbv zeta in Q. lra.
Qed.

(** The denominator is never negative. *)
Lemma denom_nonneg (t0 : Q) (l : list (@ClockSample Exact)) :
  0 <= @regressionDenom Exact (length l) (regressionSums t0 l).
Proof.
  destruct l as [|s0 l0] eqn:El.
  - vm_compute. discriminate.
  - rewrite <- El. assert (Hn : (0 < length l)%nat) by (subst l; cbn; lia).
    clear El s0 l0.
    pose proof (quadratic_nonneg t0 l (- sumX (@regressionSums Exact t0 l))
                  (Spec.count l)) as Q. cbv zeta in Q.
    unfold regressionDenom.
    change (@of_nat Exact (length l)) with (Spec.count l).
    cbn [nmul nsub Exact].
    set (n := Spec.count l) in *. set (S := @regressionSums Exact t0 l) in *.
    assert (Hc : 0 < n).
    { unfold n, Spec.count, Qlt. cbn [Qnum Qden inject_Z]. lia. }
    assert (E : n * (- sumX S * - sumX S) + 2 * (- sumX S * n) * sumX S
                + n * n * sumXX S == n * (n * sumXX S - sumX S * sumX S)) by ring.
    rewrite E in Q.
    destruct (Qlt_le_dec (n * sumXX S - sumX S * sumX S) 0) as [Hneg|Hpos];
      [|exact Hpos].
    assert (Hlt : 0 < n * (- (n * sumXX S - sumX S * sumX S)))
      by (apply Qmult_lt_0_compat; lra).
    lra.
Qed.

(** The least-squares slope is unique when the denominator does not vanish:
    [Spec.is_ols_slope] holds of the computed slope only. *)
Lemma ols_slope_unique (t0 : Q) (l : list (@ClockSample Exact)) (b2 : Q) :
  let S := @regressionSums Exact t0 l in
  let n := length l in
  ~ @regressionDenom Exact n S == 0 ->
  (0 < n)%nat ->
  Spec.is_ols_slope (Spec.points l) b2 ->
  b2 == @regressionSlope Exact n S.
Proof.
  cbv zeta. intros HD Hn [a2 Hmin].
  pose proof (fitted_line_gap t0 l a2 b2 HD Hn) as E. cbv zeta in E.
  pose proof (denom_nonneg t0 l) as Dge.
  specialize (Hmin (Spec.fittedIntercept (length l) (regressionSums t0 l)
                    - regressionSlope (length l) (regressionSums t0 l) * t0)
                   (regressionSlope (length l) (regressionSums t0 l))).
  unfold regressionDenom in HD, Dge.
  change (@of_nat Exact (length l)) with (Spec.count l) in HD, Dge.
  cbn [nmul nsub Exact] in HD, Dge.
  set (S := @regressionSums Exact t0 l) in *.
  set (b := @regressionSlope Exact (length l) S) in *.
  set (A := Spec.fittedIntercept (length l) S) in *.
  set (n := Spec.count l) in *.
  assert (Hc : 0 < n).
  { unfold n, Spec.count, Qlt. cbn [Qnum Qden inject_Z]. lia. }
  set (u := a2 + b2 * t0 - A) in *. set (v := b2 - b) in *.
  assert (Hq : n * (u * u) + 2 * (u * v) * sumX S + v * v * sumXX S <= 0) by lra.
  assert (Hsq : 0 <= (n * u + v * sumX S) * (n * u + v * sumX S))
    by apply Qsquare_nonneg.
  assert (Hvv : 0 <= v * v) by apply Qsquare_nonneg.
  assert (HD' : 0 < n * sumXX S - sumX S * sumX S).
  { destruct (Qle_lt_or_eq _ _ Dge) as [H|H]; [exact H|].
    exfalso. apply HD. symmetry. exact H. }
  assert (Hid : n * (n * (u * u) + 2 * (u * v) * sumX S + v * v * sumXX S)
                == (n * u + v * sumX S) * (n * u + v * sumX S)
                   + (v * v) * (n * sumXX S - sumX S * sumX S)) by ring.
  assert (Hn0 : n * (n * (u * u) + 2 * (u * v) * sumX S + v * v * sumXX S) <= 0).
  { assert (H0 : 0 <= n * - (n * (u * u) + 2 * (u * v) * sumX S + v * v * sumXX S))
      by (apply Qmult_le_0_compat; lra).
    lra. }
  assert (Hprod : 0 <= (v * v) * (n * sumXX S - sumX S * sumX S))
    by (apply Qmult_le_0_compat; lra).
  assert (Hzero : (v * v) * (n * sumXX S - sumX S * sumX S) == 0) by lra.
  apply Qmult_integral in Hzero. destruct Hzero as [Hv|Hd]; [|lra].
  apply Qmult_integral in Hv. unfold v in Hv. destruct Hv; lra.
Qed.

(** Moving the origin of the regression leaves its denominator unchanged:
    the code shifts the receive times by [t0] before summing, and
    [n * sumXX - sumX * sumX] is the same for the receive times themselves. *)
Lemma sums_shift (t0 : Q) (l : list (@ClockSample Exact)) :
  sumX (@regressionSums Exact t0 l)
  == sumX (@regressionSums Exact 0 l) - Spec.count l * t0 /\
  sumXX (@regressionSums Exact t0 l)
  == sumXX (@regressionSums Exact 0 l)
     - 2 * t0 * sumX (@regressionSums Exact 0 l) + Spec.count l * (t0 * t0).
Proof.
  induction l as [|s l [IHx IHxx]] using rev_ind.
  - change (Spec.count []) with 0. unfold regressionSums.
    cbn [fold_left sumX sumXX lit Exact]. split; ring.
  - rewrite !regressionSums_snoc, count_snoc.
    cbn [regressionStep sumX sumY sumXY sumXX nadd nsub nmul lit Exact].
    split; lra.
Qed.

Lemma denom_shift_invariant (t0 : Q) (l : list (@ClockSample Exact)) :
  @regressionDenom Exact (length l) (regressionSums t0 l)
  == @regressionDenom Exact (length l) (regressionSums 0 l).
Proof.
  destruct (sums_shift t0 l) as [Hx Hxx].
  unfold regressionDenom.
  change (@of_nat Exact (length l)) with (Spec.count l).
  cbn [nmul nsub Exact]. rewrite Hx, Hxx. ring.
Qed.

(** The guard [Math.abs(denom) > 0.0001] in error-free arithmetic. *)
Lemma guard_true (d : Q) : @nltb Exact 0.0001 (Qabs d) = true <-> 0.0001 < Qabs d.
Proof.
  cbn [nltb Exact]. unfold Qltb. rewrite negb_true_iff.
  split; intros H.
  - apply Qnot_le_lt. intros Hle. apply Qle_bool_iff in Hle. congruence.
  - destruct (Qle_bool (Qabs d) 0.0001) eqn:E; [|reflexivity].
    apply Qle_bool_iff in E. lra.
Qed.

(** In error-free arithmetic: with fewer than 3 samples the drift keeps its
    value.  With 3 or more, the regression runs over the last
    [min 10 |samples|] samples; when its denominator
    [n * sumXX - sumX * sumX] (the same whether the receive times are shifted
    by [t0] or not) is at most 0.0001 in magnitude the drift keeps its value,
    and otherwise the drift becomes the slope the loop computes, which is the
    ordinary-least-squares slope of sample offset against sample receive time
    over that window, and the only one. *)
Lemma exact_drift_is_least_squares_slope
    (c : @ClockSync Exact) (s : @ClockSample Exact) :
  let ring := samples (addSample c s) in
  let n := Nat.min 10 (length ring) in
  let recent := slice_last n ring in
  let sums := regressionSums (windowStart recent) recent in
  let denom := regressionDenom n sums in
  ((length ring < 3)%nat -> drift (addSample c s) = drift c) /\
  ((3 <= length ring)%nat ->
     (exists older, ring = older ++ recent) /\
     length recent = n /\
     denom == regressionDenom n (regressionSums 0 recent) /\
     (Qabs denom <= 0.0001 -> drift (addSample c s) = drift c) /\
     (0.0001 < Qabs denom ->
        drift (addSample c s) = regressionSlope n sums /\
        Spec.is_ols_slope (Spec.points recent) (drift (addSample c s)) /\
        forall b, Spec.is_ols_slope (Spec.points recent) b ->
                  b == drift (addSample c s))).
Proof.
  cbv zeta. split; [apply addSample_drift_few|].
  intros H3.
  set (ring := samples (addSample c s)) in *.
  assert (Hlen : length (slice_last (Nat.min 10 (length ring)) ring)
                 = Nat.min 10 (length ring))
    by (rewrite slice_last_length; lia).
  split; [apply slice_last_suffix|]. split; [exact Hlen|].
  split.
  { revert Hlen. clear.
    generalize (slice_last (Nat.min 10 (length ring)) ring) as recent.
    generalize (Nat.min 10 (length ring)) as n.
    intros n recent <-. apply denom_shift_invariant. }
  pose proof (addSample_drift_enough c s H3) as D. cbv zeta in D.
  fold ring in D. split.
  - intros Hsmall. rewrite D.
    match goal with |- (if ?g then _ else _) = _ => destruct g eqn:G end;
      [|reflexivity].
    apply guard_true in G. lra.
  - intros Hbig. rewrite D.
    apply guard_true in Hbig as G.
    match goal with
    | |- context [if ?g then _ else _] => replace g with true by (symmetry; exact G)
    end.
    split; [reflexivity|].
    assert (Hn : (0 < Nat.min 10 (length ring))%nat) by lia.
    revert Hlen Hbig Hn. clear.
    generalize (slice_last (Nat.min 10 (length ring)) ring) as recent.
    generalize (Nat.min 10 (length ring)) as n.
    intros n recent <- Hbig Hn.
    assert (HD : ~ regressionDenom (length recent)
                     (regressionSums (windowStart recent) recent) == 0).
    { intros Z. rewrite Z in Hbig. discriminate Hbig. }
    split.
    + apply fitted_line_is_optimal; assumption.
    + intros b Hb. apply ols_slope_unique; assumption.
Qed.

(** C4, as stated, fails in the arithmetic the program runs on.  Three quick
    samples lie exactly on a line of slope 2^-20 (the doubles stand for the
    very rationals of the error-free run, whose drift is that slope, the
    least-squares slope of the three points).  In binary64 the ring holds the
    three samples and the denominator, 6, passes the guard, but the products
    of the loop are rounded and the drift stored is 1.27e-6, a third above
    the slope 9.54e-7. *)
Lemma rounded_regression_misses_the_slope :
  @run Exact collinearQuicks = addSample collinearTwo collinearThird /\
  map (fun x => option_map Qred (float_value (s_offset x)))
    (samples (@run IEEE collinearQuicks))
  = map (fun x => Some (Qred (s_offset x))) collinearRing /\
  map (fun x => option_map Qred (float_value (s_timestamp x)))
    (samples (@run IEEE collinearQuicks))
  = map (fun x => Some (Qred (s_timestamp x))) collinearRing /\
  Forall (fun x => s_offset x
                   == 1700000000 + (1 # 1048576) * (s_timestamp x - 1700000000))
    collinearRecent /\
  drift (addSample collinearTwo collinearThird) == 1 # 1048576 /\
  Spec.is_ols_slope (Spec.points collinearRecent)
    (drift (addSample collinearTwo collinearThird)) /\
  length (samples (@run IEEE collinearQuicks)) = 3%nat /\
  regressionDenom 3
    (regressionSums 1700000000%float (samples (@run IEEE collinearQuicks)))
  = 6%float /\
  drift (@run IEEE collinearQuicks) = 1.2715657552083333e-06%float /\
  @lit IEEE (1 # 1048576) = 9.5367431640625e-07%float /\
  PrimFloat.eqb (drift (@run IEEE collinearQuicks)) (@lit IEEE (1 # 1048576))
  = false.
Proof.
  split; [vm_compute; reflexivity|].
  split; [vm_compute; reflexivity|]. split; [vm_compute; reflexivity|].
  split.
  { replace collinearRecent with collinearRing by (vm_compute; reflexivity).
    unfold collinearRing.
    replace (samples (addSample collinearTwo collinearThird))
      with [@mkSample Exact 1700000000 0.05 (1700000000000 / 1000);
            @mkSample Exact (1782579200000001 # 1048576) 0.05
              (1700000001000 / 1000);
            collinearThird]
      by (vm_compute; reflexivity).
    repeat (apply List.Forall_cons; [vm_compute; reflexivity|]).
    apply List.Forall_nil. }
  split; [vm_compute; reflexivity|].
  split.
  - assert (H3 : (3 <= length collinearRing)%nat) by (vm_compute; lia).
    assert (Hd : 0.0001 < Qabs collinearDenom) by (vm_compute; reflexivity).
    destruct (exact_drift_is_least_squares_slope collinearTwo collinearThird)
      as [_ H].
    destruct (H H3) as [_ [_ [_ [_ Hbig]]]].
    exact (proj1 (proj2 (Hbig Hd))).
  - repeat split; vm_compute; reflexivity.
Qed.

(** C4, amended.  In the arithmetic the program runs on (any arithmetic):
    with fewer than 3 samples after the insertion the drift keeps its value;
    with 3 or more the loop runs over the last [min 10 |samples|] samples,
    with receive times taken from the first of them, and the drift keeps its
    value unless [|n * sumXX - sumX * sumX| > 0.0001], in which case it
    becomes the quotient [(n * sumXY - sumX * sumY) / denom] of the rounded
    sums.  In error-free arithmetic that quotient is the
    ordinary-least-squares slope of sample offset against sample receive time
    over the window, and the only one. *)
Theorem drift_is_windowed_regression_quotient :
  (forall (N : Number) (c : @ClockSync N) (s : @ClockSample N),
     let ring := samples (addSample c s) in
     let n := Nat.min 10 (length ring) in
     let recent := slice_last n ring in
     let sums := regressionSums (windowStart recent) recent in
     let denom := (of_nat n * sumXX sums - sumX sums * sumX sums)%num in
     ((length ring < 3)%nat -> drift (addSample c s) = drift c) /\
     ((3 <= length ring)%nat ->
        (exists older, ring = older ++ recent) /\
        length recent = n /\
        drift (addSample c s)
        = if (nabs denom >? lit 0.0001)%num
          then ((of_nat n * sumXY sums - sumX sums * sumY sums) / denom)%num
          else drift c)) /\
  (forall (c : @ClockSync Exact) (s : @ClockSample Exact),
     let ring := samples (addSample c s) in
     let n := Nat.min 10 (length ring) in
     let recent := slice_last n ring in
     let sums := regressionSums (windowStart recent) recent in
     let denom := regressionDenom n sums in
     (3 <= length ring)%nat ->
     denom == regressionDenom n (regressionSums 0 recent) /\
     (Qabs denom <= 0.0001 -> drift (addSample c s) = drift c) /\
     (0.0001 < Qabs denom ->
        Spec.is_ols_slope (Spec.points recent) (drift (addSample c s)) /\
        forall b, Spec.is_ols_slope (Spec.points recent) b ->
                  b == drift (addSample c s))).
Proof.
  split.
  - intros N c s. cbv zeta. split; [apply addSample_drift_few|].
    intros H3. split; [apply slice_last_suffix|].
    split; [rewrite slice_last_length; lia|].
    exact (addSample_drift_enough c s H3).
  - intros c s. cbv zeta. intros H3.
    destruct (exact_drift_is_least_squares_slope c s) as [_ H].
    destruct (H H3) as [_ [_ [Hd [Hsmall Hbig]]]].
    split; [exact Hd|]. split; [exact Hsmall|].
    intros Hb. destruct (Hbig Hb) as [_ R]. exact R.
Qed.

(** The first regression: two samples on the line [offset = t], then a third.
    The ring reaches 3 samples, the denominator is 6 and the drift goes from 0
    to the slope 1. *)
Lemma drift_first_regression_witness :
  ((3 <= length risingRing)%nat /\ 0.0001 < Qabs risingDenom) /\
  (length risingRing = 3%nat /\ risingDenom == 6 /\ drift risingTwo == 0 /\
   drift (addSample risingTwo risingThird) == 1) /\
  Spec.is_ols_slope (Spec.points risingRecent)
    (drift (addSample risingTwo risingThird)).
Proof.
  assert (H3 : (3 <= length risingRing)%nat) by (vm_compute; lia).
  assert (Hd : 0.0001 < Qabs risingDenom) by (vm_compute; reflexivity).
  split; [split; assumption|].
  split; [repeat split; vm_compute; reflexivity|].
  destruct drift_is_windowed_regression_quotient as [_ H].
  destruct (H risingTwo risingThird H3) as [_ [_ Hbig]].
  destruct (Hbig Hd) as [Hols _]. exact Hols.
Defined.

End Regression.

(* ================================================================== *)
(** * The ring as a window on the history *)
(* ================================================================== *)

Module HistoryFacts.
Import Clock ClockFacts Runs History.

Section WithNumber.
Context {N : Number}.

Lemma submit_addSample (c : ClockSync) (e : Submission) :
  submit c e = addSample c (sampleOf e).
Proof. destruct e; reflexivity. Qed.

Lemma runFrom_snoc (c : ClockSync) (es : list Submission) (e : Submission) :
  runFrom c (es ++ [e]) = addSample (runFrom c es) (sampleOf e).
Proof.
  unfold runFrom. rewrite fold_left_app. cbn [fold_left].
  apply submit_addSample.
Qed.

Lemma run_runFrom (es : list Submission) : run es = runFrom init es.
Proof. reflexivity. Qed.

(** Cutting to the last [n] entries commutes with pushing one more. *)
Lemma slice_last_push {A : Type} (n : nat) (l : list A) (x : A) :
  (0 < n)%nat ->
  slice_last n (slice_last n l ++ [x]) = slice_last n (l ++ [x]).
Proof.
  intros Hn. unfold slice_last.
  destruct (Nat.eqb_spec n 0) as [->|_]; [lia|].
  rewrite !length_app, length_skipn. cbn [length].
  destruct (Nat.le_gt_cases (length l) n) as [Hle|Hgt].
  - replace (length l - n)%nat with 0%nat by lia. cbn [skipn].
    replace (length l - 0 + 1 - n)%nat with (length l + 1 - n)%nat by lia.
    reflexivity.
  - replace (length l - (length l - n) + 1 - n)%nat with 1%nat by lia.
    rewrite !skipn_app, length_skipn.
    replace (1 - (length l - (length l - n)))%nat with 0%nat by lia.
    replace (length l + 1 - n - length l)%nat with 0%nat by lia.
    cbn [skipn]. rewrite skipn_skipn.
    replace (1 + (length l - n))%nat with (length l + 1 - n)%nat by lia.
    reflexivity.
Qed.

Lemma slice_last_short {A : Type} (n : nat) (l : list A) :
  (length l <= n)%nat -> slice_last n l = l.
Proof.
  intros H. unfold slice_last. destruct (Nat.eqb n 0); [reflexivity|].
  replace (length l - n)%nat with 0%nat by lia. reflexivity.
Qed.

Lemma ringAfter_window (l : list ClockSample) (o d a : num) (s : ClockSample) :
  ringAfter (mkClock o d (slice_last maxSamples l) a) s
  = slice_last maxSamples (l ++ [s]).
Proof.
  unfold ringAfter. cbn [samples].
  destruct (Nat.ltb_spec maxSamples (length (slice_last maxSamples l ++ [s])))
    as [H|H].
  - apply slice_last_push. unfold maxSamples. lia.
  - rewrite length_app, slice_last_length in H by (unfold maxSamples; lia).
    cbn [length] in H.
    assert (Hl : (length l < maxSamples)%nat) by lia.
    rewrite (slice_last_short maxSamples l) by lia.
    rewrite slice_last_short; [reflexivity|].
    rewrite length_app. cbn [length]. lia.
Qed.

(** X1.  After any sequence of probe and quick-sample submissions on a fresh
    clock the ring holds exactly the last 20 submitted samples, in submission
    order (all of them while there are at most 20); so it holds
    [min 20 (number of submissions)] samples. *)
Theorem ring_is_window_on_history (es : list Submission) :
  samples (run es) = slice_last 20 (map sampleOf es) /\
  length (samples (run es)) = Nat.min 20 (length es).
Proof.
  assert (H : samples (run es) = slice_last 20 (map sampleOf es)).
  { rewrite run_runFrom.
    induction es as [|e es IH] using rev_ind; [reflexivity|].
    rewrite runFrom_snoc, addSample_samples, map_app. cbn [map].
    destruct (runFrom init es) as [o d ss a]. cbn [samples] in IH. subst ss.
    apply ringAfter_window. }
  split; [exact H|].
  rewrite H, slice_last_length by lia. rewrite length_map. reflexivity.
Qed.

End WithNumber.
End HistoryFacts.

(* ================================================================== *)
(** * The offset filter over a whole run (error-free arithmetic) *)
(* ================================================================== *)

Module FusionFacts.
Import Clock ClockFacts Runs History HistoryFacts Scenarios2.
Local Open Scope Q_scope.

Lemma exact_offset_next (c : @ClockSync Exact) (s : @ClockSample Exact) :
  offset (addSample c s) == 0.9 * offset c + 0.1 * s_offset s.
Proof. rewrite addSample_offset. unfold filterWeight. cbn. ring. Qed.

Lemma Qpow_snoc (q : Q) (n : nat) : Qpow q (n + 1) == Qpow q n * q.
Proof.
  induction n as [|n IH]; cbn [Qpow Nat.add].
  - ring.
  - rewrite IH. ring.
Qed.

(** X2.  The fused offset never leaves the range of what was measured: if the
    offset and every measured offset of a run lie in [lo .. hi], so does the
    offset after the run. *)
Theorem offset_stays_in_measured_range (lo hi : Q) (c : @ClockSync Exact)
    (es : list (@Submission Exact)) :
  lo <= offset c <= hi ->
  Forall (fun e => lo <= s_offset (sampleOf e) <= hi) es ->
  lo <= offset (runFrom c es) <= hi.
Proof.
  intros Hc Hes. induction es as [|e es IH] using rev_ind; [exact Hc|].
  apply Forall_app in Hes. destruct Hes as [Hes He].
  inversion He as [|? ? Hm _]; subst.
  specialize (IH Hes).
  rewrite runFrom_snoc, exact_offset_next. lra.
Qed.

Lemma offset_stays_in_measured_range_witness :
  ((-0.1) <= offset (@init Exact) <= 0.2 /\
   Forall (fun e => (-0.1) <= s_offset (sampleOf e) <= 0.2) mixedQuicks) /\
  (-0.1) <= offset (runFrom init mixedQuicks) <= 0.2.
Proof.
  assert (Hc : (-0.1) <= offset (@init Exact) <= 0.2)
    by (split; discriminate).
  assert (Hes : Forall (fun e => (-0.1) <= s_offset (sampleOf e) <= 0.2) mixedQuicks)
    by (repeat constructor; discriminate).
  split; [split; assumption|].
  exact (offset_stays_in_measured_range (-0.1) 0.2 init mixedQuicks Hc Hes).
Defined.

(** X3.  Two clocks fed the same submissions forget their initial difference
    geometrically: after [n] submissions their offsets differ by [0.9 ^ n]
    times the initial difference. *)
Theorem initial_offset_is_forgotten (c1 c2 : @ClockSync Exact)
    (es : list (@Submission Exact)) :
  offset (runFrom c1 es) - offset (runFrom c2 es)
  == Qpow 0.9 (length es) * (offset c1 - offset c2).
Proof.
  induction es as [|e es IH] using rev_ind.
  - cbn. ring.
  - rewrite !runFrom_snoc, !exact_offset_next, length_app. cbn [length].
    rewrite Qpow_snoc. lra.
Qed.

(** X4.  When every submission of a run measures the same offset [m], the
    error of the fused offset shrinks by the factor 0.9 per submission:
    [offset - m] is [0.9 ^ n] times what it was. *)
Theorem offset_converges_to_steady_measurement (m : Q) (c : @ClockSync Exact)
    (es : list (@Submission Exact)) :
  Forall (fun e => s_offset (sampleOf e) == m) es ->
  offset (runFrom c es) - m == Qpow 0.9 (length es) * (offset c - m).
Proof.
  intros Hes. induction es as [|e es IH] using rev_ind.
  - cbn. ring.
  - apply Forall_app in Hes. destruct Hes as [Hes He].
    inversion He as [|? ? Hm _]; subst. specialize (IH Hes).
    rewrite runFrom_snoc, exact_offset_next, length_app. cbn [length].
    rewrite Qpow_snoc, Hm. lra.
Qed.

Lemma offset_converges_witness :
  Forall (fun e => s_offset (sampleOf e) == 1000.05) steadyProbes /\
  offset (run steadyProbes) - 1000.05 == Qpow 0.9 3 * (0 - 1000.05).
Proof.
  assert (Hes : Forall (fun e => s_offset (sampleOf e) == 1000.05) steadyProbes)
    by (repeat constructor; vm_compute; reflexivity).
  split; [exact Hes|].
  exact (offset_converges_to_steady_measurement 1000.05 init steadyProbes Hes).
Defined.

End FusionFacts.

(* ================================================================== *)
(** * The round trip is recorded, never used by the filter *)
(* ================================================================== *)

Module RttUnused.
Import Clock ClockFacts Drift Runs History HistoryFacts.

Section WithNumber.
Context {N : Number}.

Lemma Forall2_skipn {A : Type} (R : A -> A -> Prop) (n : nat) (l l' : list A) :
  Forall2 R l l' -> Forall2 R (skipn n l) (skipn n l').
Proof.
  intros H. revert n. induction H as [|x y l l' Hxy H IH]; intros [|n];
    cbn [skipn]; try constructor; auto.
Qed.

Lemma Forall2_slice_last {A : Type} (R : A -> A -> Prop) (n : nat) (l l' : list A) :
  Forall2 R l l' -> Forall2 R (slice_last n l) (slice_last n l').
Proof.
  intros H. unfold slice_last. rewrite (Forall2_length _ _ _ H).
  destruct (Nat.eqb n 0); [exact H | apply Forall2_skipn, H].
Qed.

Lemma regression_ignores_rtt (t0 : num) (l l' : list ClockSample) (acc : Sums) :
  Forall2 sameButRtt l l' ->
  fold_left (regressionStep t0) l acc = fold_left (regressionStep t0) l' acc.
Proof.
  intros H. revert acc. induction H as [|x y l l' [Ho Ht] H IH]; intros acc;
    cbn [fold_left]; [reflexivity|].
  unfold regressionStep at 2 4. rewrite Ho, Ht. apply IH.
Qed.

Lemma windowStart_ignores_rtt (l l' : list ClockSample) :
  Forall2 sameButRtt l l' -> windowStart l = windowStart l'.
Proof. intros [|x y ? ? [_ Ht] _]; [reflexivity | exact Ht]. Qed.

Lemma ringAfter_ignores_rtt (c c' : ClockSync) (s s' : ClockSample) :
  Forall2 sameButRtt (samples c) (samples c') -> sameButRtt s s' ->
  Forall2 sameButRtt (ringAfter c s) (ringAfter c' s').
Proof.
  intros Hss Hs.
  assert (H : Forall2 sameButRtt (samples c ++ [s]) (samples c' ++ [s']))
    by (apply Forall2_app; [exact Hss | constructor; [exact Hs | constructor]]).
  unfold ringAfter. cbv zeta. rewrite (Forall2_length _ _ _ H).
  destruct (Nat.ltb _ _); [apply Forall2_slice_last, H | exact H].
Qed.

Lemma addSample_ignores_rtt (c c' : ClockSync) (s s' : ClockSample) :
  offset c = offset c' -> drift c = drift c' ->
  Forall2 sameButRtt (samples c) (samples c') -> sameButRtt s s' ->
  offset (addSample c s) = offset (addSample c' s') /\
  drift (addSample c s) = drift (addSample c' s') /\
  lastSyncTime (addSample c s) = lastSyncTime (addSample c' s') /\
  Forall2 sameButRtt (samples (addSample c s)) (samples (addSample c' s')).
Proof.
  intros Ho Hd Hss Hs.
  pose proof (ringAfter_ignores_rtt c c' s s' Hss Hs) as Hring.
  destruct Hs as [Hso Hst].
  split; [rewrite !addSample_offset, Ho, Hso; reflexivity|].
  split; [|split; [rewrite !addSample_lastSyncTime; exact Hst
                  | rewrite !addSample_samples; exact Hring]].
  pose proof (Forall2_length _ _ _ Hring) as Hlen.
  destruct (Nat.lt_ge_cases (length (ringAfter c s)) 3) as [Hfew|Hmany].
  - rewrite !addSample_drift_few by (rewrite addSample_samples; lia).
    exact Hd.
  - rewrite (addSample_drift_enough c s) by (rewrite addSample_samples; lia).
    rewrite (addSample_drift_enough c' s') by (rewrite addSample_samples; lia).
    cbv zeta. rewrite !addSample_samples, <- Hlen.
    pose proof (Forall2_slice_last sameButRtt
                  (Nat.min 10 (length (ringAfter c s))) _ _ Hring) as Hw.
    rewrite <- (windowStart_ignores_rtt _ _ Hw).
    unfold regressionSums.
    rewrite <- (regression_ignores_rtt _ _ _ _ Hw), Hd. reflexivity.
Qed.

(** X5.  The round trip of a sample is stored but never enters the estimate:
    two runs whose submissions measure the same offsets at the same times end
    with the same offset, drift and anchor, hence the same [now()], whatever
    round trips they carried. *)
Theorem rtt_never_enters_the_estimate (es es' : list Submission) (dateNow : num) :
  Forall2 (fun e e' => sameButRtt (sampleOf e) (sampleOf e')) es es' ->
  offset (run es) = offset (run es') /\
  drift (run es) = drift (run es') /\
  lastSyncTime (run es) = lastSyncTime (run es') /\
  now (run es) dateNow = now (run es') dateNow.
Proof.
  intros H.
  assert (Inv : offset (run es) = offset (run es') /\
                drift (run es) = drift (run es') /\
                lastSyncTime (run es) = lastSyncTime (run es') /\
                Forall2 sameButRtt (samples (run es)) (samples (run es'))).
  { rewrite !run_runFrom. revert H. revert es'.
    induction es as [|e es IH] using rev_ind; intros es' H.
    - inversion H; subst. cbn. repeat split; constructor.
    - apply Forall2_app_inv_l in H.
      destruct H as [es1 [e1 [Hes [He ->]]]].
      inversion He as [|? e' ? ? Hee Hnil]; subst. inversion Hnil; subst.
      destruct (IH es1 Hes) as [Io [Id [_ Is]]].
      rewrite !runFrom_snoc.
      apply addSample_ignores_rtt; assumption. }
  destruct Inv as [Io [Id [Ia _]]].
  repeat split; try assumption.
  unfold now. rewrite Io, Id, Ia. reflexivity.
Qed.

End WithNumber.

Lemma rtt_never_enters_witness :
  Forall2 (fun e e' => sameButRtt (sampleOf e) (sampleOf e'))
    Scenarios2.mixedQuicks Scenarios2.mixedQuicksSlow /\
  now (run Scenarios2.mixedQuicks) 3000%Q
  = now (run Scenarios2.mixedQuicksSlow) 3000%Q.
Proof.
  assert (H : Forall2 (fun e e' => sameButRtt (sampleOf e) (sampleOf e'))
                Scenarios2.mixedQuicks Scenarios2.mixedQuicksSlow)
    by (repeat constructor).
  split; [exact H|].
  exact (proj2 (proj2 (proj2
           (rtt_never_enters_the_estimate Scenarios2.mixedQuicks
              Scenarios2.mixedQuicksSlow 3000%Q H)))).
Defined.

End RttUnused.

(* ================================================================== *)
(** * What the regression returns on special windows *)
(* ================================================================== *)

Module DriftFacts.
Import Clock ClockFacts Drift Runs History Scenarios2.
Local Open Scope Q_scope.

Lemma sse_nonneg (pts : list (Q * Q)) (a b : Q) : 0 <= Spec.sse pts a b.
Proof.
  induction pts as [|[t y] pts IH]; cbn [Spec.sse]; [discriminate|].
  pose proof (Regression.Qsquare_nonneg (y - (a + b * t))). lra.
Qed.

Lemma sse_on_line (l : list (@ClockSample Exact)) (a b : Q) :
  Forall (fun x => s_offset x == a + b * s_timestamp x) l ->
  Spec.sse (Spec.points l) a b == 0.
Proof.
  induction 1 as [|x l Hx _ IH]; cbn [Spec.points map Spec.sse]; [reflexivity|].
  fold (Spec.points l). rewrite IH, Hx. ring.
Qed.

Lemma Forall_slice_last {A : Type} (P : A -> Prop) (n : nat) (l : list A) :
  Forall P l -> Forall P (slice_last n l).
Proof.
  intros H. destruct (slice_last_suffix n l) as [d E].
  rewrite E in H. apply Forall_app in H. apply H.
Qed.

(** X6.  When the samples of the regression window lie on one line
    [offset = a + b * t] (and the denominator passes the guard), the drift
    becomes exactly the slope [b] of that line. *)
Theorem drift_of_collinear_window (c : @ClockSync Exact) (s : @ClockSample Exact)
    (a b : Q) :
  let ring := samples (addSample c s) in
  let n := Nat.min 10 (length ring) in
  let recent := slice_last n ring in
  let denom := regressionDenom n (regressionSums (windowStart recent) recent) in
  (3 <= length ring)%nat ->
  Forall (fun x => s_offset x == a + b * s_timestamp x) recent ->
  0.0001 < Qabs denom ->
  drift (addSample c s) == b.
Proof.
  cbv zeta. intros H3 Hline Hbig.
  rewrite (addSample_drift_enough c s H3). cbv zeta.
  apply Regression.guard_true in Hbig as G.
  match goal with
  | |- context [if ?g then _ else _] => replace g with true by (symmetry; exact G)
  end.
  set (ring := samples (addSample c s)) in *.
  assert (Hlen : length (slice_last (Nat.min 10 (length ring)) ring)
                 = Nat.min 10 (length ring))
    by (rewrite slice_last_length; lia).
  assert (Hn : (0 < Nat.min 10 (length ring))%nat) by lia.
  revert Hlen Hline Hbig Hn. clear.
  generalize (slice_last (Nat.min 10 (length ring)) ring) as recent.
  generalize (Nat.min 10 (length ring)) as n.
  intros n recent <- Hline Hbig Hn.
  symmetry. apply Regression.ols_slope_unique; [|exact Hn|].
  - intros Z. rewrite Z in Hbig. discriminate Hbig.
  - exists a. intros a' b'. rewrite (sse_on_line recent a b Hline).
    apply sse_nonneg.
Qed.

Lemma drift_of_collinear_window_witness :
  ((3 <= length onLineRing)%nat /\
   Forall (fun x => s_offset x == 0.5 + 2 * s_timestamp x) onLineRecent /\
   0.0001 < Qabs onLineDenom) /\
  drift (addSample onLineTwo onLineThird) == 2.
Proof.
  assert (H3 : (3 <= length onLineRing)%nat) by (vm_compute; lia).
  assert (Hl : Forall (fun x => s_offset x == 0.5 + 2 * s_timestamp x) onLineRecent)
    by (vm_compute; repeat constructor).
  assert (Hd : 0.0001 < Qabs onLineDenom) by (vm_compute; reflexivity).
  split; [repeat split; assumption|].
  exact (drift_of_collinear_window onLineTwo onLineThird 0.5 2 H3 Hl Hd).
Defined.

Lemma sums_of_simultaneous (t0 : Q) (l : list (@ClockSample Exact)) :
  Forall (fun x => s_timestamp x == t0) l ->
  sumX (@regressionSums Exact t0 l) == 0 /\
  sumXX (@regressionSums Exact t0 l) == 0.
Proof.
  induction l as [|s l IH] using rev_ind; intros H.
  - split; reflexivity.
  - apply Forall_app in H. destruct H as [Hl Hs].
    inversion Hs as [|? ? Ht _]; subst. destruct (IH Hl) as [Hx Hxx].
    rewrite regressionSums_snoc.
    cbn [regressionStep sumX sumXX nadd nsub nmul Exact].
    rewrite Hx, Hxx, Ht. split; ring.
Qed.

(** X7.  Samples that all carry the same time stamp (a burst within one
    millisecond) give the regression a zero denominator, so the drift keeps
    the value it had. *)
Theorem simultaneous_samples_keep_drift (c : @ClockSync Exact)
    (s : @ClockSample Exact) (t : Q) :
  Forall (fun x => s_timestamp x == t) (samples (addSample c s)) ->
  drift (addSample c s) = drift c.
Proof.
  intros Hall.
  destruct (Nat.lt_ge_cases (length (samples (addSample c s))) 3) as [Hfew|H3];
    [apply addSample_drift_few, Hfew|].
  rewrite (addSample_drift_enough c s H3). cbv zeta.
  set (ring := samples (addSample c s)) in *.
  assert (Hlen : length (slice_last (Nat.min 10 (length ring)) ring)
                 = Nat.min 10 (length ring))
    by (rewrite slice_last_length; lia).
  pose proof (Forall_slice_last _ (Nat.min 10 (length ring)) ring Hall) as Hw.
  revert Hlen Hw. generalize (slice_last (Nat.min 10 (length ring)) ring) as recent.
  intros recent Hlen Hw.
  assert (Hstart : Forall (fun x => s_timestamp x == windowStart recent) recent).
  { destruct recent as [|first rest]; [constructor|].
    cbn [windowStart].
    assert (Hf : s_timestamp first == t) by (inversion Hw; assumption).
    clear Hlen. induction Hw as [|x l Hx _ IH]; constructor;
      [rewrite Hx, Hf; reflexivity | exact IH]. }
  destruct (sums_of_simultaneous _ _ Hstart) as [Hx Hxx].
  match goal with
  | |- (if ?g then _ else _) = _ => destruct g eqn:G
  end; [|reflexivity].
  apply Regression.guard_true in G. exfalso.
  unfold regressionDenom in G. cbn [nmul nsub Exact] in G.
  rewrite Hx, Hxx in G.
  assert (E : @of_nat Exact (Nat.min 10 (length ring)) * 0 - 0 * 0 == 0) by ring.
  rewrite E in G. discriminate G.
Qed.

Lemma simultaneous_samples_witness :
  Forall (fun x => s_timestamp x == 7) (samples (addSample burstTwo burstThird)) /\
  length (samples (addSample burstTwo burstThird)) = 3%nat /\
  drift (addSample burstTwo burstThird) = 0.25.
Proof.
  assert (H : Forall (fun x => s_timestamp x == 7)
                (samples (addSample burstTwo burstThird)))
    by (vm_compute; repeat constructor).
  split; [exact H|]. split; [vm_compute; reflexivity|].
  exact (simultaneous_samples_keep_drift burstTwo burstThird 7 H).
Defined.

End DriftFacts.

(* ================================================================== *)
(** * The stored send time *)
(* ================================================================== *)

Module SendTime.
Import Clock ClockFacts Runs History.
Local Open Scope Q_scope.

Lemma exact_truthy (x : Q) : @truthy Exact x = true <-> ~ x == 0.
Proof.
  cbn [truthy Exact]. rewrite negb_true_iff. split.
  - intros H E. apply Qeq_bool_iff in E. congruence.
  - intros H. destruct (Qeq_bool x 0) eqn:E; [|reflexivity].
    apply Qeq_bool_iff in E. contradiction.
Qed.

(** X8.  [handleResponse] pairs a response with the send time of the latest
    [sendSync], not with the [t1] the response echoes: the echoed [t1] has no
    effect, and when the response answers an earlier probe (echoed [t1]
    earlier by [gap]) the computed round trip is short by [gap] and the
    measured offset low by [gap / 2]. *)
Theorem response_is_paired_with_latest_send (lastSend : Q)
    (response response' : @ClockSyncResponse Exact) (dateNow : Q) :
  ~ lastSend == 0 ->
  r_t2 response' = r_t2 response -> r_t3 response' = r_t3 response ->
  let used := probeSample (sendSync lastSend) response dateNow in
  let echoed := probeSample None response dateNow in
  let gap := lastSend / 1000 - r_t1 response in
  probeSample (sendSync lastSend) response' dateNow = used /\
  s_rtt used == s_rtt echoed - gap /\
  s_offset used == s_offset echoed - gap / 2 /\
  s_timestamp used = s_timestamp echoed.
Proof.
  intros Hne H2 H3. cbv zeta.
  assert (Ht : @truthy Exact (lastSend / 1000) = true).
  { apply exact_truthy. intros E. apply Hne.
    rewrite Monotone.Qdiv_1000 in E. lra. }
  unfold probeSample, probeT1, sendSync. cbn [lit ndiv Exact] in *.
  rewrite Ht, H2, H3. cbn [s_rtt s_offset s_timestamp nsub nadd ndiv Exact].
  repeat split; field.
Qed.

(** A probe sent at 10 s, another sent at 11 s, then the answer to the first
    arrives at 11.5 s: the round trip computes to 0.5 s instead of 1.5 s. *)
Lemma response_pairing_witness :
  ~ 11000 == 0 /\
  s_rtt (@probeSample Exact (sendSync 11000) (mkResponse 10 100 100) 11500) == 0.5 /\
  s_rtt (@probeSample Exact None (mkResponse 10 100 100) 11500) == 1.5.
Proof.
  assert (Hne : ~ 11000 == 0) by discriminate.
  split; [exact Hne|].
  destruct (response_is_paired_with_latest_send 11000
              (mkResponse 10 100 100) (mkResponse 10 100 100) 11500
              Hne eq_refl eq_refl) as [_ [Hr _]].
  cbv zeta in Hr. split; [rewrite Hr|]; vm_compute; reflexivity.
Defined.

End SendTime.

(* ================================================================== *)
(** * More binary64 facts *)
(* ================================================================== *)

Module FloatFacts2.
Import FloatFacts.
Local Open Scope float_scope.

Lemma sub_nan_l (x y : float) : is_nan x = true -> is_nan (x - y) = true.
Proof. rewrite !is_nan_spec, FloatAxioms.sub_spec. intros ->. reflexivity. Qed.

Lemma sub_nan_r (x y : float) : is_nan y = true -> is_nan (x - y) = true.
Proof.
  rewrite !is_nan_spec, FloatAxioms.sub_spec. intros ->.
  unfold SF64sub. destruct (Prim2SF x); reflexivity.
Qed.

(** A value equal to a positive finite number is neither below zero nor
    above that number. *)
Lemma SF_equal_positive (D : spec_float) (m0 : positive) (e0 : Z) :
  SFeqb D (S754_finite false m0 e0) = true ->
  SFltb D (S754_zero false) = false /\
  SFltb (S754_finite false m0 e0) D = false.
Proof.
  destruct D as [s|s| |s m e]; unfold SFeqb, SFltb, SFcompare;
    try discriminate.
  - destruct s; discriminate.
  - destruct s; [discriminate|].
    destruct (Z.compare e e0) eqn:Ez; try discriminate.
    destruct (Pos.compare_cont Eq m m0) eqn:Em; try discriminate.
    intros _. apply Z.compare_eq in Ez. apply Pos.compare_eq in Em. subst.
    rewrite Z.compare_refl, Pos.compare_cont_refl. split; reflexivity.
Qed.

Lemma ten_within_window (d : float) :
  (d =? 10) = true -> (d <? 0) = false /\ (10 <? d) = false.
Proof.
  rewrite FloatAxioms.eqb_spec, !FloatAxioms.ltb_spec.
  change (Prim2SF 0) with (S754_zero false).
  change (Prim2SF 10) with (S754_finite false 5629499534213120 (-49)).
  apply SF_equal_positive.
Qed.

(** The falsy numbers: zero of either sign, and NaN. *)
Lemma float_truthy_false (x : float) :
  float_truthy x = false <-> (x =? 0) = true \/ is_nan x = true.
Proof.
  unfold float_truthy. rewrite negb_false_iff, orb_true_iff. reflexivity.
Qed.

End FloatFacts2.

(* ================================================================== *)
(** * A clock poisoned by NaN *)
(* ================================================================== *)

Module Poison.
Import Clock ClockFacts Runs History HistoryFacts FloatFacts FloatFacts2.
Import Scenarios Scenarios2.

Lemma now_nan (c : @ClockSync IEEE) (dateNow : float) :
  PrimFloat.is_nan (offset c) = true -> PrimFloat.is_nan (now c dateNow) = true.
Proof.
  intros H. unfold now. cbn [nadd nmul nsub ndiv IEEE].
  apply add_nan_l, add_nan_r, H.
Qed.

Lemma addSample_keeps_nan (c : @ClockSync IEEE) (s : @ClockSample IEEE) :
  PrimFloat.is_nan (offset c) = true ->
  PrimFloat.is_nan (offset (addSample c s)) = true.
Proof.
  intros H. rewrite addSample_offset. cbn [nadd nmul IEEE].
  apply add_nan_l, mul_nan_l, H.
Qed.

(** X9.  A NaN offset survives every further run of probes and quick samples,
    and while it lasts every reading of [now()] is NaN; only [reset()] brings
    the offset back (to 0). *)
Theorem nan_offset_poisons_clock (c : @ClockSync IEEE)
    (es : list (@Submission IEEE)) (dateNow : float) :
  PrimFloat.is_nan (offset c) = true ->
  PrimFloat.is_nan (offset (runFrom c es)) = true /\
  PrimFloat.is_nan (now (runFrom c es) dateNow) = true /\
  offset (reset (runFrom c es)) = 0%float.
Proof.
  intros H.
  assert (Ho : PrimFloat.is_nan (offset (runFrom c es)) = true).
  { induction es as [|e es IH] using rev_ind; [exact H|].
    rewrite runFrom_snoc. apply addSample_keeps_nan, IH. }
  split; [exact Ho|]. split; [apply now_nan, Ho | reflexivity].
Qed.

Lemma nan_offset_poisons_witness :
  PrimFloat.is_nan (offset afterNaNQuick) = true /\
  PrimFloat.is_nan (now (runFrom afterNaNQuick afterPoison) 3000%float) = true.
Proof.
  assert (H : PrimFloat.is_nan (offset afterNaNQuick) = true) by reflexivity.
  split; [exact H|].
  exact (proj1 (proj2 (nan_offset_poisons_clock afterNaNQuick afterPoison
                         3000%float H))).
Defined.

Section WithDecoder.
Context {ArrayBuffer AudioBuffer : Type}.
Variable decodeAudioData : ArrayBuffer -> option AudioBuffer.

(** What [scheduleFrame] does with a delay that fails both guards: the
    frame is not dropped, and once decoded its fate is that of
    [source.start]. *)
Lemma scheduleFrame_admitted (p : @Player.FutureAudioPlayer IEEE AudioBuffer)
    (clockSync : @ClockSync IEEE) (frame : @Player.MediaFrame IEEE ArrayBuffer)
    (dateNow currentTime : float) :
  let delta := PrimFloat.sub (Player.f_timestamp frame) (now clockSync dateNow) in
  let result :=
    Player.scheduleFrame decodeAudioData p clockSync frame dateNow currentTime in
  PrimFloat.ltb delta 0 = false -> PrimFloat.ltb 10 delta = false ->
  Player.dropped (snd result) = false /\
  (Player.startAccepts (currentTime + delta)%float = false ->
     Player.reachesRenderer (snd result) = false /\
     Player.scheduledSources (fst result) = Player.scheduledSources p) /\
  forall audioBuffer, decodeAudioData (Player.f_data frame) = Some audioBuffer ->
    snd result
    = if Player.startAccepts (currentTime + delta)%float
      then Player.Started (Player.mkSource audioBuffer (currentTime + delta)%float)
      else Player.StartFailed.
Proof.
  cbv zeta. intros H0 H10. unfold Player.scheduleFrame. cbv zeta.
  rewrite Admission.lit_0, Admission.lit_10. cbn [nltb nsub nadd IEEE].
  rewrite H0, H10.
  pose proof (Admission.initContext_sources _ p) as Hi.
  split; [|split].
  - destruct (decodeAudioData _); [|reflexivity].
    destruct (Player.startAccepts _); reflexivity.
  - intros Hs. destruct (decodeAudioData _); [|split; [reflexivity | exact Hi]].
    match goal with
    | |- context [if ?b then _ else _] =>
        replace b with false by (symmetry; exact Hs)
    end.
    split; [reflexivity | exact Hi].
  - intros audioBuffer ->. destruct (Player.startAccepts _); reflexivity.
Qed.

(** X10.  A frame whose presentation time is NaN, or any frame offered while
    the clock's offset is NaN, passes both admission guards (the delay is NaN
    and compares false), so it is not dropped with a warning; but no source
    is started and the table is left as it was: once the payload is decoded,
    [source.start] is handed a NaN time and throws. *)
Theorem nan_delay_passes_guards_and_fails_at_start
    (p : @Player.FutureAudioPlayer IEEE AudioBuffer)
    (clockSync : @ClockSync IEEE) (frame : @Player.MediaFrame IEEE ArrayBuffer)
    (dateNow currentTime : float) :
  PrimFloat.is_nan (Player.f_timestamp frame) = true \/
  PrimFloat.is_nan (offset clockSync) = true ->
  let result :=
    Player.scheduleFrame decodeAudioData p clockSync frame dateNow currentTime in
  Player.dropped (snd result) = false /\
  Player.reachesRenderer (snd result) = false /\
  Player.scheduledSources (fst result) = Player.scheduledSources p /\
  forall audioBuffer, decodeAudioData (Player.f_data frame) = Some audioBuffer ->
    snd result = Player.StartFailed.
Proof.
  intros H. cbv zeta.
  assert (Hd : PrimFloat.is_nan
                 (PrimFloat.sub (Player.f_timestamp frame) (now clockSync dateNow))
               = true).
  { destruct H as [H|H]; [apply sub_nan_l, H | apply sub_nan_r, now_nan, H]. }
  pose proof (startAccepts_nan _ (add_nan_r currentTime _ Hd)) as Hs.
  destruct (scheduleFrame_admitted p clockSync frame dateNow currentTime
              (ltb_nan_l _ _ Hd) (ltb_nan_r _ _ Hd)) as [Hnot [Hfail Hstart]].
  destruct (Hfail Hs) as [Hr Ht].
  split; [exact Hnot|]. split; [exact Hr|]. split; [exact Ht|].
  intros audioBuffer Hdec. rewrite (Hstart audioBuffer Hdec).
  match goal with
  | |- context [if ?b then _ else _] =>
      replace b with false by (symmetry; exact Hs)
  end.
  reflexivity.
Qed.

(** X11.  The admission window is closed above: a frame due exactly 10 s
    ahead is not dropped, and once decoded it is started at
    [currentTime + 10] (when that is a time [source.start] accepts). *)
Theorem frame_ten_seconds_ahead_is_admitted
    (p : @Player.FutureAudioPlayer IEEE AudioBuffer)
    (clockSync : @ClockSync IEEE) (frame : @Player.MediaFrame IEEE ArrayBuffer)
    (dateNow currentTime : float) :
  let delta := PrimFloat.sub (Player.f_timestamp frame) (now clockSync dateNow) in
  let result :=
    Player.scheduleFrame decodeAudioData p clockSync frame dateNow currentTime in
  PrimFloat.eqb delta 10 = true ->
  Player.dropped (snd result) = false /\
  forall audioBuffer, decodeAudioData (Player.f_data frame) = Some audioBuffer ->
    Player.startAccepts (currentTime + delta)%float = true ->
    snd result
    = Player.Started (Player.mkSource audioBuffer (currentTime + delta)%float).
Proof.
  cbv zeta. intros H. destruct (ten_within_window _ H) as [H0 H10].
  destruct (scheduleFrame_admitted p clockSync frame dateNow currentTime H0 H10)
    as [Hnot [_ Hstart]].
  split; [exact Hnot|]. intros audioBuffer Hdec Hs.
  rewrite (Hstart audioBuffer Hdec).
  match goal with
  | |- context [if ?b then _ else _] =>
      replace b with true by (symmetry; exact Hs)
  end.
  reflexivity.
Qed.

End WithDecoder.

Lemma nan_delay_witness :
  (PrimFloat.is_nan (Player.f_timestamp (frameAt PrimFloat.nan)) = true \/
   PrimFloat.is_nan (offset (@init IEEE)) = true) /\
  snd scheduleNaNFrame = Player.StartFailed /\
  Player.scheduledSources (fst scheduleNaNFrame)
  = Player.scheduledSources idlePlayer.
Proof.
  assert (H : PrimFloat.is_nan (Player.f_timestamp (frameAt PrimFloat.nan)) = true \/
              PrimFloat.is_nan (offset (@init IEEE)) = true)
    by (left; reflexivity).
  split; [exact H|].
  destruct (nan_delay_passes_guards_and_fails_at_start decodeAlways idlePlayer
              init (frameAt PrimFloat.nan) 10000%float 5%float H)
    as [_ [_ [Ht Hs]]].
  split; [exact (Hs tt eq_refl) | exact Ht].
Defined.

Lemma frame_ten_seconds_ahead_witness :
  (PrimFloat.eqb (PrimFloat.sub (Player.f_timestamp (frameAt 20%float))
                    (now (@init IEEE) 10000%float)) 10 = true /\
   @Player.startAccepts IEEE
     (5 + PrimFloat.sub (Player.f_timestamp (frameAt 20%float))
            (now (@init IEEE) 10000%float))%float = true) /\
  snd (scheduleAt 20%float) = Player.Started (Player.mkSource tt 15%float).
Proof.
  assert (H : PrimFloat.eqb (PrimFloat.sub (Player.f_timestamp (frameAt 20%float))
                   (now (@init IEEE) 10000%float)) 10 = true) by reflexivity.
  assert (Hs : @Player.startAccepts IEEE
                 (5 + PrimFloat.sub (Player.f_timestamp (frameAt 20%float))
                        (now (@init IEEE) 10000%float))%float = true)
    by reflexivity.
  split; [split; assumption|].
  destruct (frame_ten_seconds_ahead_is_admitted decodeAlways idlePlayer init
              (frameAt 20%float) 10000%float 5%float H) as [_ S].
  exact (S tt eq_refl Hs).
Defined.

End Poison.

(* ================================================================== *)
(** * Heartbeats *)
(* ================================================================== *)

Module Heartbeats.
Import Clock ClockFacts Runs History.
Local Open Scope Q_scope.

(** X12.  When the three clock readings of [handleHeartbeat] coincide, the
    quick sample it submits is the sample of a full probe that was sent at
    [client_time] and answered without delay at [server_time]
    ([t2 = t3 = server_time]): same measured offset, same round trip, same
    time stamp. *)
Theorem heartbeat_is_probe_without_server_delay (c : @ClockSync Exact)
    (clientTime serverTime dateNow : Q) :
  ~ serverTime == 0 ->
  let probe :=
    probeSample None (mkResponse clientTime serverTime serverTime) dateNow in
  exists quick,
    Client.handleHeartbeat c (Client.mkHeartbeat clientTime (Some serverTime))
      dateNow dateNow dateNow
    = addSample c quick /\
    s_offset quick == s_offset probe /\
    s_rtt quick == s_rtt probe /\
    s_timestamp quick = s_timestamp probe.
Proof.
  intros Hne. cbv zeta.
  apply SendTime.exact_truthy in Hne.
  unfold Client.handleHeartbeat. cbn [Client.server_time Client.client_time].
  rewrite Hne. unfold updateQuickSample. eexists. split; [reflexivity|].
  unfold probeSample, probeT1.
  cbn [s_offset s_rtt s_timestamp r_t1 r_t2 r_t3 nadd nsub ndiv lit Exact].
  repeat split; field.
Qed.

(** A heartbeat sent at 5 s and echoed with server time 1000.3 s, read at
    5.2 s: round trip 0.2 s, measured offset 995.2 s. *)
Lemma heartbeat_is_probe_witness :
  ~ 1000.3 == 0 /\
  exists quick,
    Client.handleHeartbeat (@init Exact) (Client.mkHeartbeat 5 (Some 1000.3))
      5200 5200 5200
    = addSample init quick /\
    s_rtt quick == 0.2 /\ s_offset quick == 995.2.
Proof.
  assert (Hne : ~ 1000.3 == 0) by discriminate.
  split; [exact Hne|].
  destruct (heartbeat_is_probe_without_server_delay init 5 1000.3 5200 Hne)
    as [quick [E [Ho [Hr _]]]].
  exists quick. split; [exact E|].
  split; [rewrite Hr | rewrite Ho]; vm_compute; reflexivity.
Defined.

End Heartbeats.

(* ================================================================== *)
(** * [playBuffer], [stop] and the table of scheduled sources *)
(* ================================================================== *)

Module PlayerFacts.
Import Clock Player Player2 FloatFacts FloatFacts2 Scenarios Scenarios2.

(** [Math.max(0, d)] in binary64: never below zero; [+0] for a negative [d];
    [d] itself for a positive [d]. *)
Lemma float_max_zero (d : float) :
  PrimFloat.ltb (float_max 0 d) 0 = false /\
  (PrimFloat.ltb d 0 = true -> float_max 0 d = 0%float) /\
  (PrimFloat.ltb 0 d = true -> float_max 0 d = d).
Proof.
  unfold float_max. change (PrimFloat.is_nan 0) with false. cbn [orb].
  destruct (PrimFloat.is_nan d) eqn:Hnan.
  - rewrite (ltb_nan_l d 0 Hnan), (ltb_nan_r 0 d Hnan).
    repeat split; discriminate.
  - destruct (PrimFloat.ltb 0 d) eqn:Hpos.
    + assert (Hneg : PrimFloat.ltb d 0 = false).
      { revert Hpos. rewrite !FloatAxioms.ltb_spec.
        change (Prim2SF 0) with (S754_zero false).
        destruct (Prim2SF d) as [s|s| |s m e]; cbn; try discriminate; auto;
          destruct s; try discriminate; reflexivity. }
      rewrite Hneg. repeat split; [discriminate].
    + destruct (PrimFloat.ltb d 0) eqn:Hneg.
      * repeat split; discriminate.
      * change (PrimFloat.eqb 0 PrimFloat.zero) with true. cbv iota.
        split; [|split; discriminate].
        assert (Hz : exists s, Prim2SF d = S754_zero s).
        { revert Hnan Hpos Hneg.
          rewrite !FloatAxioms.ltb_spec.
          change (Prim2SF 0) with (S754_zero false).
          intros Hnan. assert (Hn : Prim2SF d <> S754_nan).
          { intros E. apply is_nan_spec in E. congruence. }
          destruct (Prim2SF d) as [s|s| |s m e]; cbn; try congruence;
            try (destruct s; discriminate).
          intros _ _. eexists. reflexivity. }
        destruct Hz as [s Hz].
        rewrite FloatAxioms.ltb_spec, FloatAxioms.add_spec, Hz.
        change (Prim2SF 0) with (S754_zero false).
        destruct s; reflexivity.
Qed.

(** [Math.max(0, d)] is NaN for a NaN [d] and otherwise not below zero. *)
Lemma float_max_zero_sign (d : float) :
  (PrimFloat.is_nan d = true -> PrimFloat.is_nan (float_max 0 d) = true) /\
  (PrimFloat.is_nan d = false -> PrimFloat.leb 0 (float_max 0 d) = true).
Proof.
  unfold float_max. change (PrimFloat.is_nan 0) with false. cbn [orb].
  split; intros Hnan; rewrite Hnan; [reflexivity|].
  assert (Hn : Prim2SF d <> S754_nan).
  { intros E. apply is_nan_spec in E. congruence. }
  destruct (PrimFloat.ltb 0 d) eqn:Hpos.
  - revert Hpos. rewrite FloatAxioms.ltb_spec, FloatAxioms.leb_spec.
    unfold SFltb, SFleb. destruct (SFcompare _ _) as [[ | | ]|];
      try discriminate; reflexivity.
  - destruct (PrimFloat.ltb d 0) eqn:Hneg; [reflexivity|].
    change (PrimFloat.eqb 0 PrimFloat.zero) with true. cbv iota.
    revert Hpos Hneg. rewrite !FloatAxioms.ltb_spec, FloatAxioms.leb_spec,
      FloatAxioms.add_spec.
    change (Prim2SF 0) with (S754_zero false).
    destruct (Prim2SF d) as [s|s| |s m e]; cbn; try congruence;
      try (destruct s; discriminate).
    intros _ _. destruct s; reflexivity.
Qed.

(** No sum with NaN or with an infinity is a time [source.start] accepts. *)
Lemma startAccepts_add_not_finite (c d : float) :
  PrimFloat.is_finite d = false ->
  @startAccepts IEEE (c + d)%float = false.
Proof.
  rewrite is_finite_spec, startAccepts_spec, FloatAxioms.add_spec.
  destruct (Prim2SF d) as [sd|sd| |sd md ed]; try discriminate; intros _.
  - destruct (Prim2SF c) as [s|s| |s m e]; try reflexivity.
    destruct s, sd; reflexivity.
  - destruct (Prim2SF c); reflexivity.
Qed.

Section WithDecoders.
Context {ArrayBuffer AudioBuffer : Type}.
Variable decodeAudioData : ArrayBuffer -> option AudioBuffer.
Variable contextDecode : ArrayBuffer -> option AudioBuffer.


End WithDecoders.

Section Table.
Context {N : Number} {M : MathMax N}.
Context {ArrayBuffer AudioBuffer : Type}.
Variable decodeAudioData : ArrayBuffer -> option AudioBuffer.
Variable contextDecode : ArrayBuffer -> option AudioBuffer.

Lemma initContext_table (p : @FutureAudioPlayer N AudioBuffer) :
  scheduledSources (initContext p) = scheduledSources p /\
  nextSequence (initContext p) = nextSequence p /\
  futureBufferMs (initContext p) = futureBufferMs p.
Proof. unfold initContext. destruct (audioContext p); repeat split. Qed.

(** The table after a call of [scheduleFrame] that started a source. *)
Lemma scheduleFrame_started (p : @FutureAudioPlayer N AudioBuffer)
    (clockSync : ClockSync) (frame : @MediaFrame N ArrayBuffer)
    (dateNow currentTime : num) (source : @SourceNode N AudioBuffer) :
  snd (scheduleFrame decodeAudioData p clockSync frame dateNow currentTime)
  = Started source ->
  scheduledSources
    (fst (scheduleFrame decodeAudioData p clockSync frame dateNow currentTime))
  = <[f_sequence frame := source]> (scheduledSources p) /\
  nextSequence
    (fst (scheduleFrame decodeAudioData p clockSync frame dateNow currentTime))
  = nextSequence p.
Proof.
  unfold scheduleFrame. cbv zeta.
  destruct (nltb _ _); [discriminate|].
  destruct (nltb _ _); [discriminate|].
  destruct (decodeAudioData _); [|discriminate].
  destruct (startAccepts _); [|discriminate].
  cbn [fst snd scheduledSources nextSequence]. intros [= <-].
  destruct (initContext_table p) as [E1 [E2 _]]. rewrite E1, E2.
  split; reflexivity.
Qed.

(** The table after a call of [playBuffer] that started a source. *)
Lemma playBuffer_played (p : @FutureAudioPlayer N AudioBuffer)
    (clockSync : ClockSync) (data : ArrayBuffer) (startAt : num)
    (volume : option num) (dateNow currentTime : num)
    (source : @SourceNode N AudioBuffer) (gain : num) :
  snd (playBuffer contextDecode p clockSync data startAt volume dateNow currentTime)
  = Played source gain ->
  scheduledSources
    (fst (playBuffer contextDecode p clockSync data startAt volume dateNow
            currentTime))
  = <[nextSequence p := source]> (scheduledSources p) /\
  nextSequence
    (fst (playBuffer contextDecode p clockSync data startAt volume dateNow
            currentTime))
  = (nextSequence p + 1)%Z.
Proof.
  unfold playBuffer. cbv zeta.
  destruct (contextDecode _); [|discriminate].
  destruct (negb _); [discriminate|].
  destruct (startAccepts _); [|discriminate].
  cbn [fst snd scheduledSources nextSequence]. intros [= <- _].
  destruct (initContext_table p) as [E1 [E2 _]]. rewrite E1, E2.
  split; reflexivity.
Qed.

(** X14.  While no entry sits at or above the counter, [playBuffer] registers
    its source under a key of its own: the entries already in the table are
    all kept, the table grows by one, and again no entry sits at or above the
    (incremented) counter. *)
Theorem playBuffer_registers_under_fresh_key
    (p : @FutureAudioPlayer N AudioBuffer) (clockSync : ClockSync)
    (data : ArrayBuffer) (startAt : num) (volume : option num)
    (dateNow currentTime : num) (source : @SourceNode N AudioBuffer) (gain : num) :
  countedKeysFree p ->
  let result :=
    playBuffer contextDecode p clockSync data startAt volume dateNow currentTime in
  snd result = Played source gain ->
  scheduledSources (fst result) !! nextSequence p = Some source /\
  (forall k s, scheduledSources p !! k = Some s ->
               scheduledSources (fst result) !! k = Some s) /\
  size (scheduledSources (fst result)) = S (size (scheduledSources p)) /\
  countedKeysFree (fst result).
Proof.
  intros Hfree. cbv zeta. intros Hplayed.
  destruct (playBuffer_played _ _ _ _ _ _ _ _ _ Hplayed) as [Ht Hn].
  assert (Hnone : scheduledSources p !! nextSequence p = None)
    by (apply Hfree; lia).
  split; [rewrite Ht; apply lookup_insert_eq|].
  split.
  - intros k s Hk. rewrite Ht, lookup_insert_ne; [exact Hk|].
    intros E. subst k. congruence.
  - split; [rewrite Ht; apply map_size_insert_None, Hnone|].
    intros k Hk. rewrite Hn in Hk. rewrite Ht, lookup_insert_ne by lia.
    apply Hfree. lia.
Qed.

Lemma initContext_record (p : @FutureAudioPlayer N AudioBuffer) :
  initContext p
  = {| audioContext := true; futureBufferMs := futureBufferMs p;
       scheduledSources := scheduledSources p; nextSequence := nextSequence p |}.
Proof. destruct p as [[|] f t n]; reflexivity. Qed.

(** [scheduleFrame] changes the table at the frame's key at most. *)
Lemma scheduleFrame_state (p : @FutureAudioPlayer N AudioBuffer)
    (clockSync : ClockSync) (frame : @MediaFrame N ArrayBuffer)
    (dateNow currentTime : num) :
  let q := fst (scheduleFrame decodeAudioData p clockSync frame dateNow currentTime) in
  futureBufferMs q = futureBufferMs p /\ nextSequence q = nextSequence p /\
  forall source,
    <[f_sequence frame := source]> (scheduledSources q)
    = <[f_sequence frame := source]> (scheduledSources p).
Proof.
  cbv zeta. unfold scheduleFrame. cbv zeta. rewrite initContext_record.
  destruct (nltb _ _); [repeat split|].
  destruct (nltb _ _); [repeat split|].
  destruct (decodeAudioData _); [|repeat split].
  destruct (startAccepts _); [|repeat split].
  cbn [fst futureBufferMs nextSequence scheduledSources].
  split; [reflexivity|]. split; [reflexivity|].
  intros source. apply insert_insert_eq.
Qed.

(** A successful [playBuffer] depends on the player through
    [futureBufferMs], the counter and the table away from the counter's
    key. *)
Lemma playBuffer_same (q q' : @FutureAudioPlayer N AudioBuffer)
    (clockSync : ClockSync) (data : ArrayBuffer) (startAt : num)
    (volume : option num) (dateNow currentTime : num)
    (source : @SourceNode N AudioBuffer) (gain : num) :
  futureBufferMs q = futureBufferMs q' -> nextSequence q = nextSequence q' ->
  (forall s, <[nextSequence q := s]> (scheduledSources q)
             = <[nextSequence q := s]> (scheduledSources q')) ->
  snd (playBuffer contextDecode q clockSync data startAt volume dateNow currentTime)
  = Played source gain ->
  playBuffer contextDecode q clockSync data startAt volume dateNow currentTime
  = playBuffer contextDecode q' clockSync data startAt volume dateNow currentTime.
Proof.
  intros Hf Hn Ht. unfold playBuffer. cbv zeta. rewrite !initContext_record.
  destruct (contextDecode data); [|discriminate].
  destruct (negb _); [discriminate|].
  destruct (startAccepts _); [|discriminate].
  intros _. cbn [audioContext futureBufferMs scheduledSources nextSequence].
  rewrite Ht, Hf, Hn. reflexivity.
Qed.

(** X15.  [scheduleFrame] and [playBuffer] share one key space.  When a
    frame whose sequence number equals the player's counter has been offered
    and a buffer is then played, the call of [playBuffer] has the outcome,
    and leaves the player in the state, it would have had the frame never
    been offered: the entry under that key is the played source and the
    frame's entry is gone from the table. *)
Theorem playBuffer_overwrites_frame_with_counter_key
    (p : @FutureAudioPlayer N AudioBuffer) (clockSync : ClockSync)
    (frame : @MediaFrame N ArrayBuffer) (data : ArrayBuffer) (startAt : num)
    (volume : option num) (dateNow1 currentTime1 dateNow2 currentTime2 : num)
    (playSource : @SourceNode N AudioBuffer) (gain : num) :
  f_sequence frame = nextSequence p ->
  let r1 := scheduleFrame decodeAudioData p clockSync frame dateNow1 currentTime1 in
  let r2 :=
    playBuffer contextDecode (fst r1) clockSync data startAt volume dateNow2
      currentTime2 in
  snd r2 = Played playSource gain ->
  r2 = playBuffer contextDecode p clockSync data startAt volume dateNow2
         currentTime2 /\
  scheduledSources (fst r2) !! f_sequence frame = Some playSource /\
  scheduledSources (fst r2)
  = <[nextSequence p := playSource]> (scheduledSources p).
Proof.
  intros Hkey. cbv zeta. intros H2.
  destruct (scheduleFrame_state p clockSync frame dateNow1 currentTime1)
    as [Hf [Hn Ht]].
  assert (E : playBuffer contextDecode
                (fst (scheduleFrame decodeAudioData p clockSync frame dateNow1
                        currentTime1))
                clockSync data startAt volume dateNow2 currentTime2
              = playBuffer contextDecode p clockSync data startAt volume dateNow2
                  currentTime2).
  { apply (playBuffer_same _ _ _ _ _ _ _ _ playSource gain Hf Hn); [|exact H2].
    intros s. rewrite Hn, <- Hkey. apply Ht. }
  split; [exact E|].
  rewrite E in H2 |- *.
  destruct (playBuffer_played _ _ _ _ _ _ _ _ _ H2) as [T _].
  split; [|exact T]. rewrite T, Hkey. apply lookup_insert_eq.
Qed.

(** X16.  [stop()] reaches every source that was started by [scheduleFrame]
    and has not ended, and leaves the table empty: a second [stop()] stops
    nothing. *)
Theorem stop_reaches_started_frame (p : @FutureAudioPlayer N AudioBuffer)
    (clockSync : ClockSync) (frame : @MediaFrame N ArrayBuffer)
    (dateNow currentTime : num) (source : @SourceNode N AudioBuffer) :
  let r := scheduleFrame decodeAudioData p clockSync frame dateNow currentTime in
  snd r = Started source ->
  source ∈ snd (stop (fst r)) /\
  scheduledSources (fst (stop (fst r))) = ∅ /\
  snd (stop (fst (stop (fst r)))) = [].
Proof.
  cbv zeta. intros H.
  destruct (scheduleFrame_started _ _ _ _ _ _ H) as [T _].
  split; [|split].
  - unfold stop. cbn [snd]. rewrite T. apply list_elem_of_fmap.
    exists (f_sequence frame, source). split; [reflexivity|].
    apply elem_of_map_to_list, lookup_insert_eq.
  - reflexivity.
  - unfold stop. cbn [fst snd scheduledSources].
    rewrite map_to_list_empty. reflexivity.
Qed.

(** X17.  [onended] deletes by sequence number, not by source: when two
    frames with the same sequence number were started, the end of the first
    removes the entry of the second, and the table is what it was without
    either frame. *)
Theorem first_frame_end_unregisters_second
    (p : @FutureAudioPlayer N AudioBuffer) (clockSync : ClockSync)
    (frame1 frame2 : @MediaFrame N ArrayBuffer)
    (dateNow1 currentTime1 dateNow2 currentTime2 : num)
    (source1 source2 : @SourceNode N AudioBuffer) :
  f_sequence frame2 = f_sequence frame1 ->
  let r1 := scheduleFrame decodeAudioData p clockSync frame1 dateNow1 currentTime1 in
  snd r1 = Started source1 ->
  let r2 :=
    scheduleFrame decodeAudioData (fst r1) clockSync frame2 dateNow2 currentTime2 in
  snd r2 = Started source2 ->
  scheduledSources (fst r2) !! f_sequence frame1 = Some source2 /\
  scheduledSources (sourceEnded (fst r2) (f_sequence frame1))
  = delete (f_sequence frame1) (scheduledSources p) /\
  scheduledSources (sourceEnded (fst r2) (f_sequence frame1)) !! f_sequence frame2
  = None.
Proof.
  intros Hkey. cbv zeta. intros H1 H2.
  destruct (scheduleFrame_started _ _ _ _ _ _ H1) as [T1 _].
  destruct (scheduleFrame_started _ _ _ _ _ _ H2) as [T2 _].
  unfold sourceEnded. cbn [scheduledSources].
  rewrite T2, T1, Hkey. split; [apply lookup_insert_eq|].
  rewrite insert_insert_eq, delete_insert_eq.
  split; [reflexivity | apply lookup_delete_eq].
Qed.

(** X18.  The configured future buffer is stored and returned but never
    consulted: the outcome of [scheduleFrame] and of [playBuffer], and the
    table they leave, are the same whatever [setFutureBufferMs] has set, and
    neither call changes the stored value. *)
Theorem future_buffer_is_never_consulted
    (p : @FutureAudioPlayer N AudioBuffer) (ms : num) (clockSync : ClockSync)
    (frame : @MediaFrame N ArrayBuffer) (data : ArrayBuffer) (startAt : num)
    (volume : option num) (dateNow currentTime : num) :
  let p' := setFutureBufferMs p ms in
  let frameOn q := scheduleFrame decodeAudioData q clockSync frame dateNow currentTime in
  let playOn q :=
    playBuffer contextDecode q clockSync data startAt volume dateNow currentTime in
  snd (frameOn p') = snd (frameOn p) /\
  scheduledSources (fst (frameOn p')) = scheduledSources (fst (frameOn p)) /\
  snd (playOn p') = snd (playOn p) /\
  scheduledSources (fst (playOn p')) = scheduledSources (fst (playOn p)) /\
  getFutureBufferMs (fst (frameOn p')) = ms /\
  getFutureBufferMs (fst (playOn p')) = ms.
Proof.
  cbv zeta. unfold scheduleFrame, playBuffer, setFutureBufferMs, getFutureBufferMs,
    initContext.
  cbn [audioContext futureBufferMs scheduledSources nextSequence].
  destruct (audioContext p), (decodeAudioData (f_data frame)),
    (contextDecode data);
    repeat match goal with
           | |- context [if ?b then _ else _] => destruct b
           end;
    repeat split.
Qed.

End Table.


Lemma idle_keys_free : countedKeysFree idlePlayer.
Proof. intros k _. apply lookup_empty. Qed.

Lemma sources_differ (a b : float) :
  PrimFloat.Leibniz.eqb a b = false -> @mkSource IEEE unit tt a <> mkSource tt b.
Proof.
  intros H E. assert (Hab : a = b) by congruence.
  apply FloatAxioms.Leibniz.eqb_spec in Hab. congruence.
Qed.

Lemma playBuffer_fresh_key_witness :
  (countedKeysFree idlePlayer /\
   snd (playAt 60%float) = Played (mkSource tt 55%float) 1%float) /\
  scheduledSources (fst (playAt 60%float)) !! 0%Z = Some (mkSource tt 55%float) /\
  size (scheduledSources (fst (playAt 60%float))) = 1%nat.
Proof.
  assert (H : snd (playAt 60%float) = Played (mkSource tt 55%float) 1%float)
    by reflexivity.
  split; [split; [exact idle_keys_free | exact H]|].
  destruct (playBuffer_registers_under_fresh_key decodeAlways idlePlayer init tt
              60%float None 10000%float 5%float (mkSource tt 55%float) 1%float
              idle_keys_free H) as [Hk [_ [Hs _]]].
  split; [exact Hk | exact Hs].
Defined.

Lemma playBuffer_overwrites_witness :
  (Player.f_sequence frameZero = nextSequence idlePlayer /\
   snd afterFrameZeroThenPlay = Played (mkSource tt 55%float) 1%float) /\
  snd afterFrameZero = Started (mkSource tt 5%float) /\
  afterFrameZeroThenPlay = playAt 60%float /\
  scheduledSources (fst afterFrameZeroThenPlay)
  = <[0%Z := mkSource tt 55%float]> ∅.
Proof.
  assert (Hk : Player.f_sequence frameZero = nextSequence idlePlayer) by reflexivity.
  assert (H1 : snd afterFrameZero = Started (mkSource tt 5%float)) by reflexivity.
  assert (H2 : snd afterFrameZeroThenPlay = Played (mkSource tt 55%float) 1%float)
    by reflexivity.
  split; [split; assumption|]. split; [exact H1|].
  destruct (playBuffer_overwrites_frame_with_counter_key decodeAlways decodeAlways
              idlePlayer init frameZero tt 60%float None 10000%float 5%float
              10000%float 5%float (mkSource tt 55%float) 1%float Hk H2)
    as [E [_ T]].
  split; [exact E | exact T].
Defined.

Lemma stop_reaches_started_witness :
  snd (scheduleAt 10%float) = Started (mkSource tt 5%float) /\
  @mkSource IEEE unit tt 5%float ∈ snd (stop (fst (scheduleAt 10%float))).
Proof.
  assert (H : snd (scheduleAt 10%float) = Started (mkSource tt 5%float))
    by reflexivity.
  split; [exact H|].
  exact (proj1 (stop_reaches_started_frame decodeAlways idlePlayer init
                  (frameAt 10%float) 10000%float 5%float
                  (mkSource tt 5%float) H)).
Defined.

Lemma first_frame_end_witness :
  (Player.f_sequence (frameAt 12%float) = Player.f_sequence (frameAt 10%float) /\
   snd afterFirstSeven = Started (mkSource tt 5%float) /\
   snd afterSecondSeven = Started (mkSource tt 7%float)) /\
  scheduledSources (fst afterSecondSeven) !! 7%Z = Some (mkSource tt 7%float) /\
  scheduledSources (sourceEnded (fst afterSecondSeven) 7) !! 7%Z = None.
Proof.
  assert (Hk : Player.f_sequence (frameAt 12%float)
               = Player.f_sequence (frameAt 10%float)) by reflexivity.
  assert (H1 : snd afterFirstSeven = Started (mkSource tt 5%float)) by reflexivity.
  assert (H2 : snd afterSecondSeven = Started (mkSource tt 7%float)) by reflexivity.
  split; [repeat split; assumption|].
  destruct (first_frame_end_unregisters_second decodeAlways idlePlayer init
              (frameAt 10%float) (frameAt 12%float) 10000%float 5%float
              10000%float 5%float (mkSource tt 5%float) (mkSource tt 7%float)
              Hk H1 H2) as [Ha [_ Hb]].
  split; [exact Ha | exact Hb].
Defined.

End PlayerFacts.

(* ================================================================== *)
(** * Sequence numbers and dispatch in the client *)
(* ================================================================== *)

Module SessionFacts.
Import Clock Session SessionScenarios.

Section WithNumber.
Context {N : Number}.

Lemma createHeader_spec (c : SoluSyncClient) (id : String.string) (dateNow : num) :
  h_sequence (fst (createHeader c id dateNow)) = sequence c /\
  snd (createHeader c id dateNow) = withSequence c (sequence c + 1)%Z.
Proof. split; reflexivity. Qed.

Lemma countedSequences_snoc (ms : list Outgoing) (m : Outgoing) :
  countedSequences (ms ++ [m])
  = countedSequences ms
    ++ (if isSyncRequest m then [] else [h_sequence (headerOf m)]).
Proof.
  unfold countedSequences. rewrite List.filter_app, map_app. cbn [List.filter].
  destruct (isSyncRequest m); cbn [negb map]; [rewrite app_nil_r|]; reflexivity.
Qed.

Lemma StronglySorted_snoc (l : list Z) (x : Z) :
  Sorted.StronglySorted Z.lt l -> Forall (fun n => (n < x)%Z) l ->
  Sorted.StronglySorted Z.lt (l ++ [x]).
Proof.
  induction 1 as [|y l Hs IH Hy]; intros Hx; cbn [app].
  - constructor; constructor.
  - inversion Hx; subst. constructor; [apply IH; assumption|].
    apply Forall_app. split; [assumption | constructor; [assumption|constructor]].
Qed.

(** Sending a frame built on a fresh header keeps the order. *)
Lemma ordered_send_counted (c : SoluSyncClient) (m : Outgoing) :
  ordered c -> isSyncRequest m = false ->
  h_sequence (headerOf m) = sequence c ->
  ordered (send (withSequence c (sequence c + 1)%Z) m) /\
  sequence (send (withSequence c (sequence c + 1)%Z) m) = (sequence c + 1)%Z /\
  connected (send (withSequence c (sequence c + 1)%Z) m) = connected c.
Proof.
  intros [Hs [Hb Hz]] Hm Hseq. unfold send, withSequence.
  cbn [socketOpen]. destruct (socketOpen c); cbn [sequence sent connected].
  - split; [|split; reflexivity]. unfold ordered. cbn [sent sequence].
    rewrite countedSequences_snoc, Hm, Hseq. split; [|split].
    + apply StronglySorted_snoc; assumption.
    + apply Forall_app. split.
      * eapply Forall_impl; [exact Hb|]. cbn beta. intros n Hn. lia.
      * constructor; [lia | constructor].
    + unfold syncRequests. rewrite List.filter_app. cbn [List.filter]. rewrite Hm.
      rewrite app_nil_r. exact Hz.
  - split; [|split; reflexivity]. unfold ordered. cbn [sent sequence].
    split; [exact Hs|]. split; [|exact Hz].
    eapply Forall_impl; [exact Hb|]. cbn beta. intros n Hn. lia.
Qed.

(** No call changes [connected], so the count of header-making calls can be
    taken at any state of the run. *)
Lemma headersMade_step (c : SoluSyncClient) (k : Call) (ks : list Call) :
  connected (call c k) = connected c ->
  headersMade c (k :: ks)
  = ((if makesHeader c k then 1 else 0) + headersMade (call c k) ks)%nat.
Proof.
  intros Hconn. unfold headersMade. cbn [List.filter].
  assert (E : List.filter (makesHeader (call c k)) ks
              = List.filter (makesHeader c) ks).
  { apply List.filter_ext. intros [ | | | | | ]; cbn [makesHeader]; auto. }
  rewrite E. destruct (makesHeader c k); reflexivity.
Qed.

Lemma ordered_call (c : SoluSyncClient) (k : Call) :
  ordered c ->
  ordered (call c k) /\
  sequence (call c k)
  = (sequence c + (if makesHeader c k then 1 else 0))%Z /\
  connected (call c k) = connected c.
Proof.
  intros Hord. destruct k as [t s ps id d1 d2|t id d1 d2|t id d1 d2|id d1 d2|id d|m d1 d2 d3];
    cbn [call makesHeader].
  - unfold play. cbn [createHeader]. apply ordered_send_counted; auto.
  - unfold pause. cbn [createHeader]. apply ordered_send_counted; auto.
  - unfold stop. cbn [createHeader]. apply ordered_send_counted; auto.
  - unfold heartbeatTick. destruct (connected c) eqn:Hc.
    + cbn [createHeader].
      match goal with
      | |- context [send _ ?m] =>
          destruct (ordered_send_counted c m Hord eq_refl eq_refl) as [A [B C]]
      end.
      split; [exact A|]. split; [exact B | rewrite C; exact Hc].
    + rewrite Z.add_0_r. auto.
  - rewrite Z.add_0_r. unfold clockSyncTick.
    destruct (connected c) eqn:Hc; [|auto].
    destruct Hord as [Hs [Hb Hz]].
    unfold sendSync, send. cbn [socketOpen].
    destruct (socketOpen c); cbn [sequence connected]; (split; [|auto]);
      unfold ordered; cbn [sent sequence]; [|auto].
    rewrite countedSequences_snoc. cbn [isSyncRequest]. rewrite app_nil_r.
    split; [exact Hs|]. split; [exact Hb|].
    unfold syncRequests. rewrite List.filter_app. cbn [List.filter isSyncRequest].
    apply Forall_app. split; [exact Hz|]. constructor; [reflexivity|constructor].
  - rewrite Z.add_0_r. unfold handleMessage.
    repeat match goal with
           | |- context [if ?b then _ else _] => destruct b
           end; auto.
Qed.

(** X19.  Through any sequence of calls (play, pause, stop, timer ticks,
    incoming messages) the frames the client has sent carry strictly
    increasing header sequence numbers, all below the counter, except the
    clock-sync requests, which always carry sequence 0; and the counter
    advances by one per call that builds a header, whether or not its frame
    was sent. *)
Theorem sent_sequences_increase (c : SoluSyncClient) (ks : list Call) :
  ordered c ->
  ordered (calls c ks) /\
  sequence (calls c ks)
  = (sequence c + Z.of_nat (headersMade c ks))%Z.
Proof.
  revert c. induction ks as [|k ks IH]; intros c Hord; cbn [calls fold_left].
  - cbn. rewrite Z.add_0_r. auto.
  - destruct (ordered_call c k Hord) as [Hord' [Hseq Hconn]].
    destruct (IH (call c k) Hord') as [Ho Hs]. fold (calls (call c k) ks).
    split; [exact Ho|]. rewrite Hs, Hseq, (headersMade_step c k ks Hconn).
    destruct (makesHeader c k); lia.
Qed.

(** X20.  While the socket is not open nothing is sent and nothing is
    queued, yet every call that builds a header consumes a sequence number:
    the frames are lost. *)
Theorem closed_socket_loses_frames (c : SoluSyncClient) (ks : list Call) :
  socketOpen c = false ->
  sent (calls c ks) = sent c /\
  socketOpen (calls c ks) = false /\
  sequence (calls c ks)
  = (sequence c + Z.of_nat (headersMade c ks))%Z.
Proof.
  revert c. induction ks as [|k ks IH]; intros c Hclosed; cbn [calls fold_left].
  - cbn. rewrite Z.add_0_r. auto.
  - fold (calls (call c k) ks).
    assert (Hstep : sent (call c k) = sent c /\ socketOpen (call c k) = false /\
                    connected (call c k) = connected c /\
                    sequence (call c k)
                    = (sequence c + (if makesHeader c k then 1 else 0))%Z).
    { destruct k; cbn [call makesHeader];
        unfold play, pause, stop, heartbeatTick, clockSyncTick, sendSync,
          handleMessage, send, emit, withClock;
        cbn [createHeader withSequence socketOpen];
        rewrite ?Hclosed;
        repeat match goal with
               | |- context [if ?b then _ else _] => destruct b eqn:?
               end;
        cbn [sent socketOpen connected sequence]; rewrite ?Z.add_0_r; auto. }
    destruct Hstep as [Hsent [Hsock [Hconn Hseq]]].
    destruct (IH (call c k) Hsock) as [Hs [Ho Hq]].
    rewrite Hs, Hsent, Hq, Hseq. split; [reflexivity|]. split; [exact Ho|].
    rewrite (headersMade_step c k ks Hconn).
    destruct (makesHeader c k); lia.
Qed.

(** X21.  [handleMessage] never sends a frame, never moves the sequence
    counter and never touches the stored send time; only messages of type
    [clock_sync_response] or [heartbeat] can change the clock, and these emit
    no event; every other message emits exactly one event and leaves the
    clock alone. *)
Theorem dispatch_touches_clock_for_two_types_only (c : SoluSyncClient)
    (message : Incoming) (dateNow1 dateNow2 dateNow3 : num) :
  let c' := handleMessage c message dateNow1 dateNow2 dateNow3 in
  sent c' = sent c /\ sequence c' = sequence c /\
  lastSyncT1 c' = lastSyncT1 c /\
  (in_type message <> typeResponse -> in_type message <> typeHeartbeat ->
     clockSync c' = clockSync c /\
     exists e, emitted c' = emitted c ++ [e]) /\
  (in_type message = typeResponse \/ in_type message = typeHeartbeat ->
     emitted c' = emitted c).
Proof.
  cbv zeta. unfold handleMessage.
  destruct (String.eqb_spec (in_type message) typeHello) as [Eh|Nh].
  - cbn [sent sequence lastSyncT1 emitted clockSync emit].
    split; [reflexivity|]. split; [reflexivity|]. split; [reflexivity|].
    split; [intros _ _; split; [reflexivity | eexists; reflexivity]|].
    rewrite Eh. intros [H|H]; discriminate H.
  - destruct (String.eqb_spec (in_type message) typeResponse) as [Er|Nr].
    + cbn [sent sequence lastSyncT1 emitted withClock].
      split; [reflexivity|]. split; [reflexivity|]. split; [reflexivity|].
      split; [intros H; contradiction | reflexivity].
    + destruct (String.eqb_spec (in_type message) typeHeartbeat) as [Eb|Nb].
      * cbn [sent sequence lastSyncT1 emitted withClock].
        split; [reflexivity|]. split; [reflexivity|]. split; [reflexivity|].
        split; [intros _ H; contradiction | reflexivity].
      * destruct (String.eqb (in_type message) typeError);
          cbn [sent sequence lastSyncT1 emitted clockSync emit];
          (split; [reflexivity|]; split; [reflexivity|]; split; [reflexivity|];
           split; [intros _ _; split; [reflexivity | eexists; reflexivity]
                  | intros [H|H]; contradiction]).
Qed.

End WithNumber.
Lemma sent_sequences_witness :
  ordered (SessionScenarios.freshClient true) /\
  (ordered (calls (SessionScenarios.freshClient true) SessionScenarios.someCalls) /\
   sequence (calls (SessionScenarios.freshClient true) SessionScenarios.someCalls)
   = (sequence (SessionScenarios.freshClient true)
      + Z.of_nat (headersMade (SessionScenarios.freshClient true)
                    SessionScenarios.someCalls))%Z).
Proof.
  assert (H : ordered (SessionScenarios.freshClient true))
    by (repeat split; constructor).
  split; [exact H|].
  exact (sent_sequences_increase _ SessionScenarios.someCalls H).
Defined.

Lemma closed_socket_witness :
  socketOpen (SessionScenarios.freshClient false) = false /\
  (sent (calls (SessionScenarios.freshClient false) SessionScenarios.someCalls)
   = sent (SessionScenarios.freshClient false) /\
   socketOpen (calls (SessionScenarios.freshClient false) SessionScenarios.someCalls)
   = false /\
   sequence (calls (SessionScenarios.freshClient false) SessionScenarios.someCalls)
   = (sequence (SessionScenarios.freshClient false)
      + Z.of_nat (headersMade (SessionScenarios.freshClient false)
                    SessionScenarios.someCalls))%Z).
Proof.
  assert (H : socketOpen (SessionScenarios.freshClient false) = false)
    by reflexivity.
  split; [exact H|].
  exact (closed_socket_loses_frames _ SessionScenarios.someCalls H).
Defined.

Lemma dispatch_witness :
  (in_type SessionScenarios.statusMessage <> typeResponse /\
   in_type SessionScenarios.statusMessage <> typeHeartbeat) /\
  clockSync (handleMessage (SessionScenarios.freshClient true)
               SessionScenarios.statusMessage 0 0 0)%float
  = clockSync (SessionScenarios.freshClient true) /\
  exists e,
    emitted (handleMessage (SessionScenarios.freshClient true)
               SessionScenarios.statusMessage 0 0 0)%float
    = emitted (SessionScenarios.freshClient true) ++ [e].
Proof.
  assert (H1 : in_type SessionScenarios.statusMessage <> typeResponse)
    by discriminate.
  assert (H2 : in_type SessionScenarios.statusMessage <> typeHeartbeat)
    by discriminate.
  split; [split; assumption|].
  pose proof (dispatch_touches_clock_for_two_types_only
                (SessionScenarios.freshClient true)
                SessionScenarios.statusMessage 0 0 0)%float as H.
  cbv zeta in H. destruct H as (_ & _ & _ & H & _). exact (H H1 H2).
Defined.

End SessionFacts.

(* ================================================================== *)
(** * Decoding raw PCM16 *)
(* ================================================================== *)

Module PcmFacts.
Import Pcm Scenarios2.

Section WithNumber.
Context {N : Number}.

Lemma getInt16_in_range (data : list Z) (offset : nat) :
  (offset + 1 < length data)%nat -> exists value, getInt16 data offset = Some value.
Proof.
  intros H. unfold getInt16.
  destruct (nth_error data offset) eqn:E0;
    [|apply nth_error_None in E0; lia].
  destruct (nth_error data (offset + 1)) eqn:E1;
    [|apply nth_error_None in E1; lia].
  eexists. reflexivity.
Qed.

Lemma getInt16_out_of_range (data : list Z) (offset : nat) :
  (length data <= offset + 1)%nat -> getInt16 data offset = None.
Proof.
  intros H. unfold getInt16.
  destruct (nth_error data offset); [|reflexivity].
  destruct (nth_error data (offset + 1)) eqn:E1; [|reflexivity].
  assert (nth_error data (offset + 1) <> None) by congruence.
  apply nth_error_Some in H0. lia.
Qed.

(** Filling a channel of [k] frames from data of [4 k] bytes succeeds, keeps
    the length, leaves the entries below [i] alone and puts the sample of
    frame [j] at every [j] from [i] on. *)
Lemma fillChannel_well_formed (data : list Z) (k channel : nat) :
  length data = (4 * k)%nat -> (channel < 2)%nat ->
  forall remaining i channelData,
    (i + remaining = k)%nat -> length channelData = k ->
    exists filled,
      fillChannel data channel i remaining channelData = Some filled /\
      length filled = k /\
      (forall j, (j < i)%nat -> filled !! j = channelData !! j) /\
      (forall j, (i <= j < k)%nat -> filled !! j = sampleAt data channel j).
Proof.
  intros Hlen Hch. induction remaining as [|remaining IH];
    intros i channelData Hi Hk; cbn [fillChannel].
  - exists channelData. repeat split; auto. intros j Hj. lia.
  - destruct (getInt16_in_range data ((i * 2 + channel) * 2)) as [value Hv];
      [lia|].
    rewrite Hv.
    destruct (IH (S i) (<[i := toSample value]> channelData)) as [filled [Hf [Hl [Hlow Hhigh]]]];
      [lia | rewrite length_insert; exact Hk|].
    exists filled. split; [exact Hf|]. split; [exact Hl|]. split.
    + intros j Hj. rewrite Hlow by lia. apply list_lookup_insert_ne. lia.
    + intros j Hj. destruct (Nat.eq_dec j i) as [->|Hne].
      * rewrite Hlow by lia. rewrite list_lookup_insert_eq by lia.
        unfold sampleAt. rewrite Hv. reflexivity.
      * apply Hhigh. lia.
Qed.

(** X22.  For a payload of [4 k] bytes with [k >= 1], [decodeAudioData]
    returns a buffer of [k] frames per channel in which frame [i] of the left
    channel is the little-endian 16-bit integer at byte [4 i] divided by
    32768, and frame [i] of the right channel the one at byte [4 i + 2]. *)
Theorem decode_deinterleaves_pcm16 (data : list Z) (k : nat) :
  length data = (4 * k)%nat -> (1 <= k)%nat ->
  exists buffer,
    decodeAudioData data = Some buffer /\
    length (channel0 buffer) = k /\ length (channel1 buffer) = k /\
    forall i, (i < k)%nat ->
      channel0 buffer !! i = toSample <$> getInt16 data (4 * i) /\
      channel1 buffer !! i = toSample <$> getInt16 data (4 * i + 2).
Proof.
  intros Hlen Hk. unfold decodeAudioData. cbv zeta. rewrite Hlen.
  replace (4 * k / 4)%nat with k by (apply Nat.div_unique with 0%nat; lia).
  replace ((4 * k + 3) / 4)%nat with k
    by (apply Nat.div_unique with 3%nat; lia).
  destruct (Nat.eqb_spec k 0) as [->|_]; [lia|].
  destruct (fillChannel_well_formed data k 0 Hlen ltac:(lia) k 0%nat
              (repeat (lit 0) k) ltac:(lia) (repeat_length _ _))
    as [f0 [E0 [L0 [_ S0]]]].
  destruct (fillChannel_well_formed data k 1 Hlen ltac:(lia) k 0%nat
              (repeat (lit 0) k) ltac:(lia) (repeat_length _ _))
    as [f1 [E1 [L1 [_ S1]]]].
  rewrite E0, E1. eexists. split; [reflexivity|]. cbn [channel0 channel1].
  split; [exact L0|]. split; [exact L1|]. intros i Hi.
  rewrite S0, S1 by lia. unfold sampleAt.
  replace ((i * 2 + 0) * 2)%nat with (4 * i)%nat by lia.
  replace ((i * 2 + 1) * 2)%nat with (4 * i + 2)%nat by lia.
  split; reflexivity.
Qed.

(** A loop that reaches an index whose bytes are missing throws. *)
Lemma fillChannel_fails (data : list Z) (channel : nat) :
  forall remaining i channelData j,
    (i <= j < i + remaining)%nat ->
    getInt16 data ((j * 2 + channel) * 2) = None ->
    fillChannel data channel i remaining channelData = None.
Proof.
  induction remaining as [|remaining IH]; intros i channelData j Hj Hnone;
    [lia|]. cbn [fillChannel].
  destruct (getInt16 data ((i * 2 + channel) * 2)) as [value|] eqn:Hv;
    [|reflexivity].
  apply (IH (S i) _ j); [|exact Hnone].
  destruct (Nat.eq_dec j i) as [->|Hne]; [congruence | lia].
Qed.

(** [createBuffer] throws on an empty payload and the second channel's loop
    reads past the end of any payload whose length is not a multiple of 4. *)
Lemma decodeAudioData_throws (data : list Z) :
  length data = 0%nat \/ (length data mod 4 <> 0)%nat ->
  decodeAudioData data = None.
Proof.
  intros H. unfold decodeAudioData. cbv zeta.
  destruct (Nat.eqb_spec (length data / 4) 0) as [_|Hframes]; [reflexivity|].
  destruct H as [H0|Hmis]; [rewrite H0 in Hframes; cbn in Hframes; lia|].
  set (k := (length data / 4)%nat) in *.
  assert (Hdm : length data = (4 * k + length data mod 4)%nat)
    by (apply Nat.div_mod_eq).
  assert (Hr : (length data mod 4 < 4)%nat) by (apply Nat.mod_upper_bound; lia).
  assert (Hit : ((length data + 3) / 4 = k + 1)%nat).
  { symmetry. apply Nat.div_unique with (length data mod 4 - 1)%nat; lia. }
  rewrite Hit.
  destruct (fillChannel data 0 0 (k + 1) _); [|reflexivity].
  rewrite (fillChannel_fails data 1 (k + 1) 0 _ k); [reflexivity | lia|].
  apply getInt16_out_of_range. lia.
Qed.

(** X23.  An empty payload, and any payload whose length is not a multiple
    of 4, is rejected: [decodeAudioData] throws instead of returning a
    buffer. *)
Theorem decode_rejects_empty_and_misaligned (data : list Z) :
  length data = 0%nat \/ (length data mod 4 <> 0)%nat ->
  decodeAudioData data = None.
Proof. exact (decodeAudioData_throws data). Qed.

End WithNumber.

Lemma decode_rejects_witness :
  (length (@nil Z) = 0%nat \/ (length (@nil Z) mod 4 <> 0)%nat) /\
  (length [1; 2; 3; 4; 5; 6]%Z = 0%nat \/
   (length [1; 2; 3; 4; 5; 6]%Z mod 4 <> 0)%nat) /\
  @decodeAudioData IEEE [] = None /\
  @decodeAudioData IEEE [1; 2; 3; 4; 5; 6]%Z = None.
Proof.
  assert (H0 : length (@nil Z) = 0%nat \/ (length (@nil Z) mod 4 <> 0)%nat)
    by (left; reflexivity).
  assert (H6 : length [1; 2; 3; 4; 5; 6]%Z = 0%nat \/
               (length [1; 2; 3; 4; 5; 6]%Z mod 4 <> 0)%nat)
    by (right; discriminate).
  split; [exact H0|]. split; [exact H6|].
  split; [exact (decode_rejects_empty_and_misaligned [] H0)
         | exact (decode_rejects_empty_and_misaligned _ H6)].
Defined.

Lemma decode_deinterleaves_witness :
  (length twoFrames = (4 * 2)%nat /\ (1 <= 2)%nat) /\
  exists buffer,
    @decodeAudioData IEEE twoFrames = Some buffer /\
    length (channel0 buffer) = 2%nat /\ length (channel1 buffer) = 2%nat /\
    forall i, (i < 2)%nat ->
      channel0 buffer !! i = toSample <$> getInt16 twoFrames (4 * i) /\
      channel1 buffer !! i = toSample <$> getInt16 twoFrames (4 * i + 2).
Proof.
  assert (Hl : length twoFrames = (4 * 2)%nat) by reflexivity.
  assert (Hk : (1 <= 2)%nat) by lia.
  split; [split; assumption|].
  exact (@decode_deinterleaves_pcm16 IEEE twoFrames 2 Hl Hk).
Defined.

Local Open Scope Q_scope.

Lemma getInt16_bounds (data : list Z) (offset : nat) (value : Z) :
  Forall (fun b => (0 <= b < 256)%Z) data ->
  getInt16 data offset = Some value -> (-32768 <= value < 32768)%Z.
Proof.
  intros Hb. unfold getInt16.
  destruct (nth_error data offset) as [low|] eqn:E0; [|discriminate].
  destruct (nth_error data (offset + 1)) as [high|] eqn:E1; [|discriminate].
  apply nth_error_In in E0, E1.
  rewrite List.Forall_forall in Hb.
  pose proof (Hb _ E0). pose proof (Hb _ E1).
  destruct (Z.ltb_spec (low + 256 * high) 32768); intros [= <-]; lia.
Qed.

Lemma toSample_bounds (value : Z) :
  (-32768 <= value < 32768)%Z ->
  -1 <= @toSample Exact value /\ @toSample Exact value < 1.
Proof.
  intros H. unfold toSample. cbn [lit ndiv Exact].
  unfold Qdiv, Qle, Qlt. cbn. lia.
Qed.

Lemma fillChannel_bounds (data : list Z) (channel : nat) :
  Forall (fun b => (0 <= b < 256)%Z) data ->
  forall remaining i (channelData filled : list Q),
    Forall (fun x => -1 <= x /\ x < 1) channelData ->
    @fillChannel Exact data channel i remaining channelData = Some filled ->
    Forall (fun x => -1 <= x /\ x < 1) filled.
Proof.
  intros Hb. induction remaining as [|remaining IH];
    intros i channelData filled Hc; cbn [fillChannel].
  - intros [= <-]. exact Hc.
  - destruct (getInt16 data ((i * 2 + channel) * 2)) as [value|] eqn:Hv;
      [|discriminate].
    apply IH. apply Forall_insert; [exact Hc|].
    apply toSample_bounds. eapply getInt16_bounds; eassumption.
Qed.

(** X24.  Every sample of a decoded buffer lies in [-1, 1): the 16-bit
    integers are scaled by 1/32768 (error-free arithmetic, bytes in
    [0 .. 255]). *)
Theorem decoded_samples_are_normalised (data : list Z)
    (buffer : @AudioBuffer Exact) :
  Forall (fun b => (0 <= b < 256)%Z) data ->
  decodeAudioData data = Some buffer ->
  Forall (fun x => -1 <= x /\ x < 1) (channel0 buffer ++ channel1 buffer).
Proof.
  intros Hb. unfold decodeAudioData. cbv zeta.
  destruct (Nat.eqb _ 0); [discriminate|].
  assert (Hz : forall n, Forall (fun x : Q => -1 <= x /\ x < 1)
                           (repeat (@lit Exact 0) n)).
  { intros n. induction n as [|n IHn]; cbn [repeat]; constructor;
      [split; [discriminate | reflexivity] | exact IHn]. }
  destruct (fillChannel data 0 _ _ _) as [f0|] eqn:E0; [|discriminate].
  destruct (fillChannel data 1 _ _ _) as [f1|] eqn:E1; [|discriminate].
  intros [= <-]. cbn [channel0 channel1]. apply Forall_app. split.
  - eapply fillChannel_bounds; [exact Hb | apply Hz | exact E0].
  - eapply fillChannel_bounds; [exact Hb | apply Hz | exact E1].
Qed.

Lemma decoded_samples_witness :
  (Forall (fun b => (0 <= b < 256)%Z) twoFrames /\
   @decodeAudioData Exact twoFrames
   = Some (mkBuffer [inject_Z 1 / 32768; inject_Z (-32768) / 32768]
             [inject_Z (-1) / 32768; inject_Z 32767 / 32768])) /\
  Forall (fun x => -1 <= x /\ x < 1)
    [inject_Z 1 / 32768; inject_Z (-32768) / 32768;
     inject_Z (-1) / 32768; inject_Z 32767 / 32768].
Proof.
  assert (Hb : Forall (fun b => (0 <= b < 256)%Z) twoFrames)
    by (repeat constructor; lia).
  assert (Hd : @decodeAudioData Exact twoFrames
               = Some (mkBuffer [inject_Z 1 / 32768; inject_Z (-32768) / 32768]
                         [inject_Z (-1) / 32768; inject_Z 32767 / 32768]))
    by reflexivity.
  split; [split; assumption|].
  exact (decoded_samples_are_normalised twoFrames _ Hb Hd).
Defined.

End PcmFacts.

(* ================================================================== *)
(** * Frames with a malformed payload *)
(* ================================================================== *)

Module Pipeline.
Import Player Pcm.

(** X25.  [scheduleFrame] on a frame whose payload is empty or whose length
    is not a multiple of 4 never starts a source and leaves the table of
    scheduled sources as it was, whatever the frame's timestamp: the frame is
    dropped by one of the guards or the decoder's exception rejects the
    call. *)
Theorem malformed_frame_never_plays {N : Number} (p : FutureAudioPlayer)
    (clockSync : Clock.ClockSync) (frame : MediaFrame)
    (dateNow currentTime : num) :
  length (f_data frame) = 0%nat \/ (length (f_data frame) mod 4 <> 0)%nat ->
  let r := scheduleFrame decodeAudioData p clockSync frame dateNow currentTime in
  reachesRenderer (snd r) = false /\
  scheduledSources (fst r) = scheduledSources p.
Proof.
  intros H. cbv zeta. unfold scheduleFrame.
  rewrite (PcmFacts.decodeAudioData_throws _ H).
  assert (Ht : scheduledSources (initContext p) = scheduledSources p)
    by (unfold initContext; destruct (audioContext p); reflexivity).
  repeat match goal with
         | |- context [if ?b then _ else _] => destruct b
         end; cbn [fst snd reachesRenderer]; split; auto.
Qed.

Lemma malformed_frame_witness :
  (length (f_data Scenarios2.emptyFrame) = 0%nat \/
   (length (f_data Scenarios2.emptyFrame) mod 4 <> 0)%nat) /\
  reachesRenderer
    (snd (scheduleFrame decodeAudioData Scenarios2.pcmPlayer Clock.init
            Scenarios2.emptyFrame 1000 0))%float = false /\
  scheduledSources
    (fst (scheduleFrame decodeAudioData Scenarios2.pcmPlayer Clock.init
            Scenarios2.emptyFrame 1000 0))%float
  = scheduledSources Scenarios2.pcmPlayer.
Proof.
  assert (H : length (f_data Scenarios2.emptyFrame) = 0%nat \/
              (length (f_data Scenarios2.emptyFrame) mod 4 <> 0)%nat)
    by (left; reflexivity).
  split; [exact H|].
  exact (malformed_frame_never_plays Scenarios2.pcmPlayer Clock.init
           Scenarios2.emptyFrame 1000 0 H)%float.
Defined.

End Pipeline.
